(** * booking-api: the seat-reservation transaction engine

    A shallow embedding of [src/services/booking.service.ts],
    [src/services/notification.service.ts], [src/schemas/booking.schema.ts],
    the handlers of [src/routes/booking.routes.ts] (POST /bookings,
    GET /bookings/:id, POST /bookings/:id/cancel) and of
    [src/routes/event.routes.ts], over the tables of the Prisma migrations.

    Conventions of the embedding:
    - a table is the list of its rows, in insertion order; a [WHERE id = x]
      clause is a filter over that list, so the primary-key and unique indexes
      of the migrations are written out as checks on insertion;
    - the line items of a booking are nested in their booking row (they are
      created with it, never edited, and always read through [include]);
      Prisma returns them in insertion order; the surrogate key of a line item
      is never read by the service and is left out;
    - INTEGER columns and JavaScript numbers holding integers are [Z];
    - what the database or the runtime chooses (the fresh booking id, the
      clock) is an explicit [Env] argument;
    - a transaction body runs on a working copy of the database and returns
      it together with its result; [transaction] commits the copy on success
      and discards it when the body throws. *)

From Stdlib Require Import String ZArith List Bool Lia Permutation Sorted.
Import ListNotations.
Open Scope string_scope.
Open Scope list_scope.
Open Scope Z_scope.

(** ** Tables (prisma/migrations) *)

Inductive BookingStatus := CONFIRMED | CANCELLED.

Definition BookingStatus_eqb (a b : BookingStatus) : bool :=
  match a, b with
  | CONFIRMED, CONFIRMED | CANCELLED, CANCELLED => true
  | _, _ => false
  end.

(** Table "events". *)
Record Event := mkEvent {
  e_id : string;
  e_name : string;
  e_date : Z;
  e_venue : string;
  e_total_seats : Z;
  e_available_seats : Z;
  e_created_at : Z;
  e_updated_at : Z
}.

(** Table "booking_items" (columns event_id and quantity; booking_id is the
    enclosing booking). *)
Record BookingItem := mkBookingItem {
  i_event_id : string;
  i_quantity : Z
}.

(** Table "bookings", with its line items. *)
Record Booking := mkBooking {
  b_id : string;
  b_customer_email : string;
  b_status : BookingStatus;
  b_created_at : Z;
  b_idempotency_key : option string;
  b_items : list BookingItem
}.

Record Db := mkDb {
  events : list Event;
  bookings : list Booking
}.

(** ** Values of the service *)

(** [BookingItemInput] and [CreateBookingInput] of booking.schema.ts. *)
Record BookingItemInput := mkItemInput {
  eventId : string;
  quantity : Z
}.

Record CreateBookingInput := mkInput {
  customerEmail : string;
  items : list BookingItemInput
}.

Record BookingResultItem := mkResultItem {
  ri_eventId : string;
  ri_eventName : string;
  ri_quantity : Z
}.

(** [interface BookingResult]. *)
Record BookingResult := mkResult {
  r_id : string;
  r_customerEmail : string;
  r_status : BookingStatus;
  r_createdAt : Z;
  r_items : list BookingResultItem;
  r_totalTickets : Z
}.

(** The rows pushed on [eventDetails] in phase 1 of createBooking. *)
Record EventDetail := mkDetail {
  d_id : string;
  d_name : string;
  d_availableSeats : Z;
  d_requestedQuantity : Z
}.

(** What is thrown: the four error classes of the service, the errors of the
    Prisma client (constraint violations, by their code), a TypeError of the
    runtime, and any error of a notification channel. *)
Inductive Error :=
| EventNotFoundError (eventId : string)
| InsufficientSeatsError (eventId : string) (requested available : Z)
| BookingNotFoundError (bookingId : string)
| BookingAlreadyCancelledError (bookingId : string)
| PrismaError (code : string)
| TypeError
| ChannelError (message : string).

Inductive Result (A : Type) :=
| Ok (a : A)
| Throw (e : Error).
Arguments Ok {A} a.
Arguments Throw {A} e.

(** The choices left to the environment in one call. *)
Record Env := mkEnv {
  env_uuid : string;
  env_now : Z
}.

(** ** Transactions *)

Definition Tx (A : Type) : Type := Db -> Result A * Db.

Definition ret {A} (a : A) : Tx A := fun db => (Ok a, db).

Definition throw {A} (e : Error) : Tx A := fun db => (Throw e, db).

Definition bind {A B} (m : Tx A) (k : A -> Tx B) : Tx B :=
  fun db =>
    match m db with
    | (Ok a, db') => k a db'
    | (Throw e, db') => (Throw e, db')
    end.

Notation "x <- m ;; k" := (bind m (fun x => k))
  (at level 61, m at next level, right associativity).
Notation "m ;;; k" := (bind m (fun _ => k))
  (at level 61, right associativity).

(** [prisma.$transaction(body)]: commit on success, roll back on throw. *)
Definition transaction {A} (body : Tx A) (db : Db) : Result A * Db :=
  match body db with
  | (Ok a, db') => (Ok a, db')
  | (Throw e, _) => (Throw e, db)
  end.

(** [for (const x of xs) { await body(x) }] *)
Fixpoint forEach {A} (body : A -> Tx unit) (xs : list A) : Tx unit :=
  match xs with
  | [] => ret tt
  | x :: rest => body x ;;; forEach body rest
  end.

(** ** Queries *)

(** SELECT id, name, available_seats FROM events WHERE id = $1 FOR UPDATE.
    The row lock has no effect on a single unit of work. *)
Definition selectEventForUpdate (id : string) : Tx (list Event) :=
  fun db => (Ok (filter (fun e => String.eqb (e_id e) id) (events db)), db).

Definition setSeats (delta now : Z) (id : string) (e : Event) : Event :=
  if String.eqb (e_id e) id
  then mkEvent (e_id e) (e_name e) (e_date e) (e_venue e) (e_total_seats e)
               (e_available_seats e + delta) (e_created_at e) now
  else e.

(** UPDATE events SET available_seats = available_seats + delta,
    updated_at = NOW() WHERE id = $2. *)
Definition updateSeats (delta now : Z) (id : string) : Tx unit :=
  fun db => (Ok tt, mkDb (map (setSeats delta now id) (events db)) (bookings db)).

(** booking.findUnique({ where: { id } }) *)
Definition findBooking (id : string) (db : Db) : option Booking :=
  find (fun b => String.eqb (b_id b) id) (bookings db).

Definition key_is (k : string) (b : Booking) : bool :=
  match b_idempotency_key b with
  | Some k' => String.eqb k' k
  | None => false
  end.

(** booking.findUnique({ where: { idempotencyKey } }) *)
Definition findBookingByKey (k : string) (db : Db) : option Booking :=
  find (key_is k) (bookings db).

Definition findEvent (id : string) (db : Db) : option Event :=
  find (fun e => String.eqb (e_id e) id) (events db).

Fixpoint nodupb (l : list string) : bool :=
  match l with
  | [] => true
  | x :: rest => negb (existsb (String.eqb x) rest) && nodupb rest
  end.

Definition key_free (k : option string) (db : Db) : bool :=
  match k with
  | Some k' => negb (existsb (key_is k') (bookings db))
  | None => true
  end.

(** booking.create({ data: { customerEmail, idempotencyKey?, items: { create } } }).
    The insert fails on the primary key of "bookings", on the unique index of
    idempotency_key, on the unique index (booking_id, event_id) of
    "booking_items" (code P2002) and on the foreign key to "events" (P2003).
    The status column takes its default, CONFIRMED. *)
Definition bookingCreate (env : Env) (email : string) (key : option string)
    (its : list BookingItem) : Tx Booking :=
  fun db =>
    if existsb (fun b => String.eqb (b_id b) (env_uuid env)) (bookings db)
    then (Throw (PrismaError "P2002"), db)
    else if negb (key_free key db) then (Throw (PrismaError "P2002"), db)
    else if negb (nodupb (map i_event_id its)) then (Throw (PrismaError "P2002"), db)
    else if negb (forallb (fun i => existsb (fun e => String.eqb (e_id e) (i_event_id i))
                                            (events db)) its)
    then (Throw (PrismaError "P2003"), db)
    else
      let b := mkBooking (env_uuid env) email CONFIRMED (env_now env) key its in
      (Ok b, mkDb (events db) (bookings db ++ [b])).

Definition setStatus (id : string) (s : BookingStatus) (b : Booking) : Booking :=
  if String.eqb (b_id b) id
  then mkBooking (b_id b) (b_customer_email b) s (b_created_at b)
                 (b_idempotency_key b) (b_items b)
  else b.

(** booking.update({ where: { id }, data: { status } }); P2025 when no row
    has that id. *)
Definition bookingUpdate (id : string) (s : BookingStatus) : Tx Booking :=
  fun db =>
    let db' := mkDb (events db) (map (setStatus id s) (bookings db)) in
    match findBooking id db' with
    | Some b => (Ok b, db')
    | None => (Throw (PrismaError "P2025"), db)
    end.

(** [include: { items: { include: { event: true } } }]: every line item
    with the event row its foreign key names. *)
Definition includeEvent (db : Db) (i : BookingItem) : BookingItem * option Event :=
  (i, findEvent (i_event_id i) db).

Definition includeItems (db : Db) (b : Booking) : list (BookingItem * option Event) :=
  map (includeEvent db) (b_items b).

(** ** notification.service.ts *)

Record NotificationItem := mkNotificationItem {
  ni_eventName : string;
  ni_quantity : Z
}.

Record BookingNotification := mkNotification {
  n_bookingId : string;
  n_customerEmail : string;
  n_items : list NotificationItem;
  n_totalTickets : Z;
  n_createdAt : Z
}.

(** What was written on the console: the confirmation block of the console
    channel, and the [console.error] of [notify]. *)
Inductive ConsoleLine :=
| Confirmation (n : BookingNotification)
| ConsoleError (text : string) (error : Error).

Definition Console := list ConsoleLine.

(** A promise either fulfils, rejects, or never settles. *)
Inductive Promise (A : Type) :=
| Fulfilled (a : A)
| Rejected (e : Error)
| Pending.
Arguments Fulfilled {A} a.
Arguments Rejected {A} e.
Arguments Pending {A}.

(** [interface NotificationChannel]: any behaviour on a notification. *)
Record NotificationChannel := mkChannel {
  send : BookingNotification -> Console -> Promise unit * Console
}.

(** [class ConsoleNotificationChannel]: send logs the confirmation. *)
Definition ConsoleNotificationChannel : NotificationChannel :=
  mkChannel (fun n con => (Fulfilled tt, con ++ [Confirmation n])).

(** [class NotificationService]. *)
Record NotificationService := mkNotificationService {
  channel : NotificationChannel
}.

(** [async notify(notification)]: try { await channel.send } catch { log } *)
Definition notify (svc : NotificationService) (n : BookingNotification)
    (con : Console) : Promise unit * Console :=
  match send (channel svc) n con with
  | (Fulfilled _, con') => (Fulfilled tt, con')
  | (Rejected error, con') =>
      (Fulfilled tt, con' ++ [ConsoleError "Notification failed (non-blocking):" error])
  | (Pending, con') => (Pending, con')
  end.

(** [new NotificationService()]: the channel defaults to the console one. *)
Definition consoleService : NotificationService :=
  mkNotificationService ConsoleNotificationChannel.

(** A channel whose send always throws (the failing channel of the tests). *)
Definition failingChannel : NotificationChannel :=
  mkChannel (fun _ con => (Rejected (ChannelError "SMTP down"), con)).

(** ** booking.service.ts *)

(** [items.map(item => ({ eventId, eventName: item.event.name, quantity }))];
    reading [name] of a missing event is a TypeError. *)
Fixpoint mapItems (l : list (BookingItem * option Event))
    : Result (list BookingResultItem) :=
  match l with
  | [] => Ok []
  | (item, Some event) :: rest =>
      match mapItems rest with
      | Ok r => Ok (mkResultItem (i_event_id item) (e_name event) (i_quantity item) :: r)
      | Throw e => Throw e
      end
  | (_, None) :: _ => Throw TypeError
  end.

(** [items.reduce((sum, item) => sum + item.quantity, 0)] *)
Definition totalQuantity (l : list BookingItem) : Z :=
  fold_left (fun sum item => sum + i_quantity item) l 0.

(** The projection built on the idempotent path of createBooking and by
    cancelBooking, getBooking and listBookings (the same object literal in
    the four places). *)
Definition toBookingResult (b : Booking) (its : list (BookingItem * option Event))
    : Result BookingResult :=
  match mapItems its with
  | Ok ris =>
      Ok (mkResult (b_id b) (b_customer_email b) (b_status b) (b_created_at b)
                   ris (totalQuantity (map fst its)))
  | Throw e => Throw e
  end.

(** [if (idempotencyKey)]: undefined and the empty string are falsy. *)
Definition truthy (k : option string) : bool :=
  match k with
  | Some s => negb (String.eqb s "")
  | None => false
  end.

(** Phase 1 of createBooking: lock and validate, in the order of the request. *)
Fixpoint lockAndValidate (its : list BookingItemInput) (eventDetails : list EventDetail)
    : Tx (list EventDetail) :=
  match its with
  | [] => ret eventDetails
  | item :: rest =>
      evs <- selectEventForUpdate (eventId item) ;;
      match evs with
      | [] => throw (EventNotFoundError (eventId item))
      | event :: _ =>
          if e_available_seats event <? quantity item
          then throw (InsufficientSeatsError (eventId item) (quantity item)
                                             (e_available_seats event))
          else lockAndValidate rest
                 (eventDetails ++ [mkDetail (e_id event) (e_name event)
                                            (e_available_seats event) (quantity item)])
      end
  end.

(** The callback given to [$transaction] by createBooking. *)
Definition createBookingTx (env : Env) (input : CreateBookingInput)
    (idempotencyKey : option string) : Tx (Booking * list EventDetail) :=
  eventDetails <- lockAndValidate (items input) [] ;;
  forEach (fun detail => updateSeats (- d_requestedQuantity detail) (env_now env)
                                     (d_id detail))
          eventDetails ;;;
  booking <- bookingCreate env (customerEmail input)
               (if truthy idempotencyKey then idempotencyKey else None)
               (map (fun item => mkBookingItem (eventId item) (quantity item))
                    (items input)) ;;
  ret (booking, eventDetails).

(** [eventDetails.map((detail, i) => ({ eventId: detail.id,
    eventName: detail.name, quantity: booking.items[i].quantity }))], from
    index [i] on. *)
Fixpoint mapDetails (eventDetails : list EventDetail) (i : nat)
    (its : list BookingItem) : Result (list BookingResultItem) :=
  match eventDetails with
  | [] => Ok []
  | detail :: rest =>
      match nth_error its i with
      | None => Throw TypeError
      | Some item =>
          match mapDetails rest (S i) its with
          | Ok r => Ok (mkResultItem (d_id detail) (d_name detail) (i_quantity item) :: r)
          | Throw e => Throw e
          end
      end
  end.

Definition toNotification (r : BookingResult) : BookingNotification :=
  mkNotification (r_id r) (r_customerEmail r)
    (map (fun i => mkNotificationItem (ri_eventName i) (ri_quantity i)) (r_items r))
    (r_totalTickets r) (r_createdAt r).

(** The idempotency check of createBooking: the lookup runs only under
    [if (idempotencyKey)], outside any transaction. *)
Definition lookupExisting (idempotencyKey : option string) (db : Db) : option Booking :=
  if truthy idempotencyKey
  then match idempotencyKey with
       | Some k => findBookingByKey k db
       | None => None
       end
  else None.

(** [BookingService.createBooking(input, idempotencyKey?)]. The service
    holds the notification service; the call reads and writes the database
    and the console. *)
Definition createBooking (svc : NotificationService) (env : Env)
    (input : CreateBookingInput) (idempotencyKey : option string)
    (db : Db) (con : Console) : Result BookingResult * Db * Console :=
  match lookupExisting idempotencyKey db with
  | Some b => (toBookingResult b (includeItems db b), db, con)
  | None =>
      match transaction (createBookingTx env input idempotencyKey) db with
      | (Throw e, db') => (Throw e, db', con)
      | (Ok (booking, eventDetails), db') =>
          match mapDetails eventDetails 0 (b_items booking) with
          | Throw e => (Throw e, db', con)
          | Ok ris =>
              let bookingResult :=
                mkResult (b_id booking) (b_customer_email booking) (b_status booking)
                         (b_created_at booking) ris (totalQuantity (b_items booking)) in
              (Ok bookingResult, db', snd (notify svc (toNotification bookingResult) con))
          end
      end
  end.

(** The callback given to [$transaction] by cancelBooking. *)
Definition cancelBookingTx (env : Env) (bookingId : string)
    : Tx (Booking * list (BookingItem * option Event)) :=
  fun db =>
    match findBooking bookingId db with
    | None => (Throw (BookingNotFoundError bookingId), db)
    | Some booking =>
        match b_status booking with
        | CANCELLED => (Throw (BookingAlreadyCancelledError bookingId), db)
        | CONFIRMED =>
            (forEach (fun item => updateSeats (i_quantity item) (env_now env)
                                              (i_event_id item))
                     (b_items booking) ;;;
             updated <- bookingUpdate bookingId CANCELLED ;;
             (fun db' => (Ok (updated, includeItems db' updated), db'))) db
        end
    end.

(** [BookingService.cancelBooking(bookingId)]. *)
Definition cancelBooking (env : Env) (bookingId : string) (db : Db)
    : Result BookingResult * Db :=
  match transaction (cancelBookingTx env bookingId) db with
  | (Throw e, db') => (Throw e, db')
  | (Ok (result, its), db') => (toBookingResult result its, db')
  end.

(** [BookingService.getBooking(bookingId)]. *)
Definition getBooking (bookingId : string) (db : Db) : Result BookingResult :=
  match findBooking bookingId db with
  | None => Throw (BookingNotFoundError bookingId)
  | Some booking => toBookingResult booking (includeItems db booking)
  end.

(** Projections of the triple returned by createBooking. *)
Definition resultOf {A B C} (x : A * B * C) : A := fst (fst x).
Definition dbOf {A B C} (x : A * B * C) : B := snd (fst x).
Definition consoleOf {A B C} (x : A * B * C) : C := snd x.

(** ** booking.schema.ts and the POST /bookings handler *)

(** A number of a request body: an integer, or any other number (a
    fraction, NaN, an infinity), which [.int()] refuses. *)
Inductive JsNumber :=
| JsInteger (z : Z)
| JsOther.

(** A request body with the fields of the schema. *)
Record RawItem := mkRawItem {
  raw_eventId : string;
  raw_quantity : JsNumber
}.

Record RawBody := mkRawBody {
  raw_customerEmail : string;
  raw_items : list RawItem
}.

(** [new Set(eventIds).size] *)
Definition setSize (l : list string) : nat := length (nodup string_dec l).

(** The replies of the handler, by status code. *)
Inductive Reply :=
| Reply201 (data : BookingResult)
| Reply400
| Reply404 (eventId : string)
| Reply409 (eventId : string) (requested available : Z)
| Reply500.

Section Schema.
(** The string checks of zod, [.email()] and [.uuid()]. *)
Variables isEmail isUuid : string -> bool.

(** [BookingItemSchema]: eventId a UUID, quantity an integer, at least 1,
    at most 3. *)
Definition BookingItemSchema (item : RawItem) : option BookingItemInput :=
  if isUuid (raw_eventId item)
  then match raw_quantity item with
       | JsInteger q =>
           if (1 <=? q) && (q <=? 3) then Some (mkItemInput (raw_eventId item) q)
           else None
       | JsOther => None
       end
  else None.

(** [z.array(BookingItemSchema)]: every element parses. *)
Fixpoint parseItems (l : list RawItem) : option (list BookingItemInput) :=
  match l with
  | [] => Some []
  | item :: rest =>
      match BookingItemSchema item, parseItems rest with
      | Some i, Some r => Some (i :: r)
      | _, _ => None
      end
  end.

(** [CreateBookingSchema.safeParse(body)]: the parsed data on success. *)
Definition CreateBookingSchema (body : RawBody) : option CreateBookingInput :=
  if isEmail (raw_customerEmail body)
  then match parseItems (raw_items body) with
       | Some its =>
           if (1 <=? length its)%nat && (length its <=? 20)%nat
           then let eventIds := map eventId its in
                if (setSize eventIds =? length eventIds)%nat
                then Some (mkInput (raw_customerEmail body) its)
                else None
           else None
       | None => None
       end
  else None.

(** The handler of POST /bookings: validate, read the Idempotency-Key
    header ([header || undefined]), call the service, map its errors. *)
Definition postBookings (svc : NotificationService) (env : Env) (body : RawBody)
    (header : option string) (db : Db) (con : Console) : Reply * Db * Console :=
  match CreateBookingSchema body with
  | None => (Reply400, db, con)
  | Some data =>
      let idempotencyKey := if truthy header then header else None in
      match createBooking svc env data idempotencyKey db con with
      | (Ok booking, db', con') => (Reply201 booking, db', con')
      | (Throw (EventNotFoundError eid), db', con') => (Reply404 eid, db', con')
      | (Throw (InsufficientSeatsError eid requested available), db', con') =>
          (Reply409 eid requested available, db', con')
      | (Throw _, db', con') => (Reply500, db', con')
      end
  end.

(** The conditions of acceptance, as the specification words them. *)
Definition acceptable (body : RawBody) : Prop :=
  isEmail (raw_customerEmail body) = true /\
  raw_items body <> [] /\
  (length (raw_items body) <= 20)%nat /\
  Forall (fun item => isUuid (raw_eventId item) = true /\
                      exists q, raw_quantity item = JsInteger q /\ 1 <= q <= 3)
         (raw_items body) /\
  NoDup (map raw_eventId (raw_items body)).
End Schema.

(** ** The loops in closed form *)

(** All the seat updates of a loop, as one fold over the events table. *)
Definition applySeats {A} (delta : A -> Z) (id : A -> string) (now : Z)
    (xs : list A) (evs : list Event) : list Event :=
  fold_left (fun evs x => map (setSeats (delta x) now (id x)) evs) xs evs.

(** What a loop of seat updates does to one row, and the sum it adds to the
    available seats of the rows of a given id. *)
Definition adjust {A} (delta : A -> Z) (id : A -> string) (now : Z)
    (xs : list A) (e : Event) : Event :=
  fold_left (fun e x => setSeats (delta x) now (id x) e) xs e.

Definition seatsDelta {A} (delta : A -> Z) (id : A -> string)
    (xs : list A) (eid : string) : Z :=
  fold_right Z.add 0 (map delta (filter (fun x => String.eqb eid (id x)) xs)).

(** The details phase 1 collects when no item offends. *)
Definition validatedDetails (db : Db) (its : list BookingItemInput) : list EventDetail :=
  flat_map (fun item =>
              match findEvent (eventId item) db with
              | Some ev => [mkDetail (e_id ev) (e_name ev) (e_available_seats ev)
                                     (quantity item)]
              | None => []
              end) its.

(** The working copy after phase 2. *)
Definition decrementedDb (env : Env) (details : list EventDetail) (db : Db) : Db :=
  mkDb (applySeats (fun d => - d_requestedQuantity d) d_id (env_now env) details (events db))
       (bookings db).

(** The line items [booking.create] is given. *)
Definition lineItems (input : CreateBookingInput) : list BookingItem :=
  map (fun item => mkBookingItem (eventId item) (quantity item)) (items input).

(** The key [booking.create] is given: [...(idempotencyKey && { idempotencyKey })]. *)
Definition storedKey (idempotencyKey : option string) : option string :=
  if truthy idempotencyKey then idempotencyKey else None.

(** The committed state of a cancellation that goes through. *)
Definition cancelledDb (env : Env) (bookingId : string) (booking : Booking) (db : Db) : Db :=
  mkDb (applySeats i_quantity i_event_id (env_now env) (b_items booking) (events db))
       (map (setStatus bookingId CANCELLED) (bookings db)).

(** ** Sequences of requests *)

Inductive Request :=
| CreateBooking (svc : NotificationService) (env : Env) (input : CreateBookingInput)
                (idempotencyKey : option string)
| CancelBooking (env : Env) (bookingId : string).

(** One request served on the database and the console. *)
Definition serve (req : Request) (w : Db * Console) : Db * Console :=
  match req with
  | CreateBooking svc env input key =>
      let out := createBooking svc env input key (fst w) (snd w) in
      (dbOf out, consoleOf out)
  | CancelBooking env bookingId =>
      (snd (cancelBooking env bookingId (fst w)), snd w)
  end.

(** The observable points of a run: the committed database before the first
    request and after each request. *)
Fixpoint observable (reqs : list Request) (w : Db * Console) : list Db :=
  match reqs with
  | [] => [fst w]
  | req :: rest => fst w :: observable rest (serve req w)
  end.

(** ** Concurrent units of work

    Several createBooking calls without idempotency key run at once. A unit
    advances one awaited statement at a time, the scheduler choosing the unit;
    the database grants the row lock of SELECT ... FOR UPDATE (and of UPDATE)
    on an event to one uncommitted unit at a time and makes the others wait;
    the writes of a unit stay its own until it commits; commit and rollback
    release its locks. The timeout of the transaction options is not
    modelled. *)

(** Where a unit stands in createBooking. *)
Inductive Pc :=
| Validating (todo : list BookingItemInput) (eventDetails : list EventDetail)
| Decrementing (todo : list EventDetail) (eventDetails : list EventDetail)
| Creating (eventDetails : list EventDetail)
| RollingBack (e : Error)
| Returned (result : Result BookingResult).

Record Unit := mkUnit {
  u_env : Env;
  u_input : CreateBookingInput;
  u_pc : Pc;
  u_locks : list string;
  u_writes : list EventDetail
}.

(** The committed database, the units, and the log of the lock grants of
    phase 1 (the index of the unit, in the order of the grants). *)
Record Config := mkConfig {
  committed : Db;
  units : list Unit;
  acquired : list nat
}.

Definition start (req : Env * CreateBookingInput) : Unit :=
  mkUnit (fst req) (snd req) (Validating (items (snd req)) []) [] [].

Definition initial (db : Db) (reqs : list (Env * CreateBookingInput)) : Config :=
  mkConfig db (map start reqs) [].

(** The row locks held by the units other than the [i]-th. *)
Fixpoint othersLocks (i : nat) (us : list Unit) {struct us} : list string :=
  match us with
  | [] => []
  | u :: rest =>
      match i with
      | O => flat_map u_locks rest
      | S i' => u_locks u ++ othersLocks i' rest
      end
  end.

Definition free (i : nat) (us : list Unit) (id : string) : bool :=
  negb (existsb (String.eqb id) (othersLocks i us)).

(** What a unit sees: the committed rows under its own pending updates. *)
Definition view (u : Unit) (db : Db) : Db :=
  decrementedDb (u_env u) (u_writes u) db.

(** The next statement of a unit: the new committed database, the unit
    after it, and whether phase 1 was granted a lock; [None] when the unit
    has returned or waits for a lock. *)
Definition stepUnit (isFree : string -> bool) (db : Db) (u : Unit)
    : option (Db * Unit * bool) :=
  match u_pc u with
  | Validating [] eventDetails =>
      Some (db, mkUnit (u_env u) (u_input u) (Decrementing eventDetails eventDetails)
                       (u_locks u) (u_writes u), false)
  | Validating (item :: rest) eventDetails =>
      match fst (selectEventForUpdate (eventId item) db) with
      | Throw e =>
          Some (db, mkUnit (u_env u) (u_input u) (RollingBack e) (u_locks u) (u_writes u),
                false)
      | Ok [] =>
          Some (db, mkUnit (u_env u) (u_input u)
                           (RollingBack (EventNotFoundError (eventId item)))
                           (u_locks u) (u_writes u), false)
      | Ok (event :: _) =>
          if isFree (eventId item)
          then
            let pc :=
              if e_available_seats event <? quantity item
              then RollingBack (InsufficientSeatsError (eventId item) (quantity item)
                                                       (e_available_seats event))
              else Validating rest
                     (eventDetails ++ [mkDetail (e_id event) (e_name event)
                                                (e_available_seats event) (quantity item)]) in
            Some (db, mkUnit (u_env u) (u_input u) pc (eventId item :: u_locks u)
                             (u_writes u), true)
          else None
      end
  | Decrementing [] eventDetails =>
      Some (db, mkUnit (u_env u) (u_input u) (Creating eventDetails)
                       (u_locks u) (u_writes u), false)
  | Decrementing (detail :: rest) eventDetails =>
      if isFree (d_id detail)
      then Some (db, mkUnit (u_env u) (u_input u) (Decrementing rest eventDetails)
                            (d_id detail :: u_locks u) (u_writes u ++ [detail]), false)
      else None
  | Creating eventDetails =>
      match bookingCreate (u_env u) (customerEmail (u_input u)) None
                          (lineItems (u_input u)) (view u db) with
      | (Ok booking, db') =>
          let result :=
            match mapDetails eventDetails 0 (b_items booking) with
            | Ok ris =>
                Ok (mkResult (b_id booking) (b_customer_email booking) (b_status booking)
                             (b_created_at booking) ris (totalQuantity (b_items booking)))
            | Throw e => Throw e
            end in
          Some (db', mkUnit (u_env u) (u_input u) (Returned result) [] [], false)
      | (Throw e, _) =>
          Some (db, mkUnit (u_env u) (u_input u) (RollingBack e) (u_locks u) (u_writes u),
                false)
      end
  | RollingBack e =>
      Some (db, mkUnit (u_env u) (u_input u) (Returned (Throw e)) [] [], false)
  | Returned _ => None
  end.

Fixpoint setNth {A} (i : nat) (x : A) (l : list A) {struct l} : list A :=
  match l with
  | [] => []
  | y :: rest =>
      match i with
      | O => x :: rest
      | S i' => y :: setNth i' x rest
      end
  end.

(** One step of the [i]-th unit. *)
Definition stepAt (i : nat) (c : Config) : option Config :=
  match nth_error (units c) i with
  | None => None
  | Some u =>
      match stepUnit (free i (units c)) (committed c) u with
      | None => None
      | Some (db', u', granted) =>
          Some (mkConfig db' (setNth i u' (units c))
                         (if granted then acquired c ++ [i] else acquired c))
      end
  end.

(** A schedule names the unit to advance at each turn; a turn given to a
    unit that waits or has returned passes. *)
Fixpoint run (sched : list nat) (c : Config) : Config :=
  match sched with
  | [] => c
  | i :: rest =>
      run rest (match stepAt i c with
                | Some c' => c'
                | None => c
                end)
  end.

Definition returned (u : Unit) : option (Result BookingResult) :=
  match u_pc u with
  | Returned r => Some r
  | _ => None
  end.

Definition complete (c : Config) : Prop :=
  Forall (fun u => returned u <> None) (units c).

(** The same requests served one after the other. *)
Fixpoint serial (reqs : list (Env * CreateBookingInput)) (db : Db)
    : list (Result BookingResult) * Db :=
  match reqs with
  | [] => ([], db)
  | req :: rest =>
      let out := createBooking consoleService (fst req) (snd req) None db [] in
      let (rs, db') := serial rest (dbOf out) in
      (resultOf out :: rs, db')
  end.

(** ** prisma/seed.ts

    The five events of the seed script, under fixed ids, and no booking;
    then the requests and runs used as examples. *)

Definition rockFestival : Event :=
  mkEvent "00000000-0000-0000-0000-000000000001" "Rock Festival 2025" 1752609600
          "Arena di Verona" 100 100 0 0.
Definition jazzNight : Event :=
  mkEvent "00000000-0000-0000-0000-000000000002" "Jazz Night" 1750453200
          "Blue Note Milano" 50 50 0 0.
Definition techConference : Event :=
  mkEvent "00000000-0000-0000-0000-000000000003" "Tech Conference 2025" 1757494800
          "MiCo Milano" 500 500 0 0.
Definition comedyShow : Event :=
  mkEvent "00000000-0000-0000-0000-000000000004" "Comedy Show - Sold Out Test" 1746127800
          "Teatro Arcimboldi" 5 5 0 0.
Definition classicalConcert : Event :=
  mkEvent "00000000-0000-0000-0000-000000000005" "Classical Concert" 1756153800
          "La Scala" 2 2 0 0.

Definition seed : Db :=
  mkDb [rockFestival; jazzNight; techConference; comedyShow; classicalConcert] [].

(** A request for the two seats of the Classical Concert, under key "k1". *)
Definition lastSeats : CreateBookingInput :=
  mkInput "a@test.com" [mkItemInput (e_id classicalConcert) 2].

(** The seed database after that request went through as booking "b1". *)
Definition afterLastSeats : Db :=
  dbOf (createBooking consoleService (mkEnv "b1" 10) lastSeats (Some "k1") seed []).

(** A request for one seat of the Jazz Night. *)
Definition oneJazzSeat : CreateBookingInput :=
  mkInput "a@test.com" [mkItemInput (e_id jazzNight) 1].

(** A run on the seed data: the last seats of the Classical Concert are
    booked, the request is retried under its key, a Jazz Night seat is booked,
    an overbooking is refused, and the first booking is cancelled twice. *)
Definition sampleRun : list Request :=
  [CreateBooking consoleService (mkEnv "b1" 10) lastSeats (Some "k1");
   CreateBooking consoleService (mkEnv "b2" 20) lastSeats (Some "k1");
   CreateBooking consoleService (mkEnv "b3" 30) oneJazzSeat None;
   CreateBooking consoleService (mkEnv "b4" 40) lastSeats None;
   CancelBooking (mkEnv "c1" 50) "b1";
   CancelBooking (mkEnv "c2" 60) "b1"].

(** Ten requests for one seat of the Classical Concert, as the stress
    script sends them. *)
Definition stressRequest (n : string) : Env * CreateBookingInput :=
  (mkEnv n 100, mkInput "stress@test.com" [mkItemInput (e_id classicalConcert) 1]).

Definition stressRequests : list (Env * CreateBookingInput) :=
  map stressRequest ["u0"; "u1"; "u2"; "u3"; "u4"; "u5"; "u6"; "u7"; "u8"; "u9"].

(** A schedule that gives each unit a turn, from the last to the first,
    twenty times over. *)
Definition roundRobin : list nat :=
  concat (repeat [9; 8; 7; 6; 5; 4; 3; 2; 1; 0]%nat 20).

(** ** The words of the specification *)

(** Step 2 of the reserve algorithm: an item offends in a state when its
    event does not exist or holds fewer available seats than requested. *)
Definition offending (db : Db) (item : BookingItemInput) : bool :=
  match findEvent (eventId item) db with
  | None => true
  | Some ev => e_available_seats ev <? quantity item
  end.

(** The first offending item, in the order submitted. *)
Definition firstOffending (db : Db) (its : list BookingItemInput)
    : option BookingItemInput :=
  find (offending db) its.

(** Reserve failure conditions, as the specification words them. *)
Definition reserve_failures (db : Db) (its : list BookingItemInput)
    (res : Result BookingResult) : Prop :=
  (forall eid, res = Throw (EventNotFoundError eid) <->
     exists item, firstOffending db its = Some item /\
                  findEvent (eventId item) db = None /\ eid = eventId item) /\
  (forall eid requested available,
     res = Throw (InsufficientSeatsError eid requested available) <->
     exists item ev, firstOffending db its = Some item /\
                     findEvent (eventId item) db = Some ev /\
                     quantity item > e_available_seats ev /\
                     eid = eventId item /\ requested = quantity item /\
                     available = e_available_seats ev) /\
  (firstOffending db its = None ->
     (forall eid, res <> Throw (EventNotFoundError eid)) /\
     (forall eid requested available,
        res <> Throw (InsufficientSeatsError eid requested available))).

(** An error of the reserve contract. *)
Definition reserveConflict (e : Error) : Prop :=
  match e with
  | EventNotFoundError _ | InsufficientSeatsError _ _ _ => True
  | _ => False
  end.

(** The available seats of an event, as the events listing shows them. *)
Definition availableSeats (db : Db) (id : string) : option Z :=
  option_map e_available_seats (findEvent id db).

(** The success projection of reserve, as the specification words it: one
    entry per requested item, in the order of the request, with the item's
    event id, the display name of that event and the item's quantity; the
    total is the sum of the requested quantities. *)
Definition projection_shape (db : Db) (input : CreateBookingInput)
    (r : BookingResult) : Prop :=
  Forall2 (fun item ri =>
             ri_eventId ri = eventId item /\
             ri_quantity ri = quantity item /\
             exists ev, findEvent (eventId item) db = Some ev /\
                        ri_eventName ri = e_name ev)
          (items input) (r_items r) /\
  r_totalTickets r = fold_right Z.add 0 (map quantity (items input)).

(** Reserve then cancel, as the specification words it: the cancellation of
    the booking just returned goes through, answers a CANCELLED projection
    and leaves every event with the available seats it had before the
    reservation. *)
Definition round_trip (db : Db) (r : BookingResult) (cancelled : Result BookingResult * Db)
    : Prop :=
  exists r', fst cancelled = Ok r' /\ r_id r' = r_id r /\ r_status r' = CANCELLED /\
             forall eid, availableSeats (snd cancelled) eid = availableSeats db eid.

(** The foreign key of "booking_items" to "events". *)
Definition foreignKeys (db : Db) : Prop :=
  forall b, In b (bookings db) ->
  forall i, In i (b_items b) -> findEvent (i_event_id i) db <> None.

(** Idempotent retry under a key, as the specification words it: in a state
    holding a booking under the key, a create-request under it returns that
    booking's id and current projection and leaves the database as it is; so
    of two create-requests in a row under the key, the second returns the id
    the first returned and changes nothing more. *)
Definition idempotent_under (K : string) : Prop :=
  forall svc env input db con,
    (forall b, findBookingByKey K db = Some b -> foreignKeys db ->
       exists r, createBooking svc env input (Some K) db con = (Ok r, db, con) /\
                 r_id r = b_id b /\
                 Ok r = toBookingResult b (includeItems db b)) /\
    (forall r1, resultOf (createBooking svc env input (Some K) db con) = Ok r1 ->
       let db1 := dbOf (createBooking svc env input (Some K) db con) in
       forall svc2 env2 input2 con2,
       exists r2, createBooking svc2 env2 input2 (Some K) db1 con2 = (Ok r2, db1, con2) /\
                  r_id r2 = r_id r1).

(** The core invariant of the specification. *)
Definition seats_invariant (db : Db) : Prop :=
  forall e, In e (events db) -> 0 <= e_available_seats e <= e_total_seats e.

(** The preconditions the schema layer guarantees to the engine. *)
Definition schema_preconditions (input : CreateBookingInput) : Prop :=
  Forall (fun item => 1 <= quantity item <= 3) (items input) /\
  NoDup (map eventId (items input)).

(** The bookings whose decrements are recorded: those of a set [T] of
    booking ids for which the ledger accounts. [held T db eid] is the number
    of seats of event [eid] held by the CONFIRMED bookings of [T]. *)
Definition holds (T : list string) (b : Booking) : bool :=
  existsb (String.eqb (b_id b)) T && BookingStatus_eqb (b_status b) CONFIRMED.

Definition heldBy (T : list string) (bs : list Booking) (eid : string) : Z :=
  fold_right Z.add 0
    (map (fun b => if holds T b then seatsDelta i_quantity i_event_id (b_items b) eid else 0)
         bs).

Definition held (T : list string) (db : Db) (eid : string) : Z :=
  heldBy T (bookings db) eid.

Definition recorded (T : list string) (db : Db) : Prop :=
  (forall b, In b (bookings db) -> In (b_id b) T ->
             forall i, In i (b_items b) -> 0 <= i_quantity i) /\
  (forall e, In e (events db) ->
             0 <= e_available_seats e /\
             e_available_seats e + held T db (e_id e) <= e_total_seats e).

(** A booking made by a request of the run joins the recorded ones. *)
Definition recordedAfter (T : list string) (req : Request) (w : Db * Console)
    : list string :=
  match req with
  | CreateBooking svc env input key =>
      match lookupExisting key (fst w),
            resultOf (createBooking svc env input key (fst w) (snd w)) with
      | None, Ok r => r_id r :: T
      | _, _ => T
      end
  | CancelBooking _ _ => T
  end.

(** The runs of the invariant: create-requests within the schema
    preconditions, and cancellations only of recorded bookings. *)
Fixpoint admissible (T : list string) (reqs : list Request) (w : Db * Console) : Prop :=
  match reqs with
  | [] => True
  | req :: rest =>
      match req with
      | CreateBooking _ _ input _ => schema_preconditions input
      | CancelBooking _ bookingId => In bookingId T
      end /\
      admissible (recordedAfter T req w) rest (serve req w)
  end.

(** The requests of the scenario: each asks [q] seats of the one event [e]. *)
Definition asks (e : string) (req : Env * CreateBookingInput) (q : Z) : Prop :=
  items (snd req) = [mkItemInput e q].

Definition isConfirmed (o : option (Result BookingResult)) : bool :=
  match o with
  | Some (Ok r) => BookingStatus_eqb (r_status r) CONFIRMED
  | _ => false
  end.

Definition isInsufficient (o : option (Result BookingResult)) : bool :=
  match o with
  | Some (Throw (InsufficientSeatsError _ _ _)) => true
  | _ => false
  end.

(** What the [i]-th unit returned, if it returned. *)
Definition returnedAt (c : Config) (i : nat) : option (Result BookingResult) :=
  match nth_error (units c) i with
  | Some u => returned u
  | None => None
  end.

(** The ids the environment gives to the bookings of the requests. *)
Definition uuids (reqs : list (Env * CreateBookingInput)) : list string :=
  map (fun req => env_uuid (fst req)) reqs.

(** The ids are fresh: distinct, and none is the id of a stored booking. *)
Definition fresh (reqs : list (Env * CreateBookingInput)) (db : Db) : Prop :=
  NoDup (uuids reqs) /\
  forall req b, In req reqs -> In b (bookings db) -> b_id b <> env_uuid (fst req).

(** ** The invariant of the concurrent runs on one event *)

(** The request a unit serves. *)
Definition requestOf (u : Unit) : Env * CreateBookingInput := (u_env u, u_input u).

(** A placeholder for an index outside the list of requests. *)
Definition noRequest : Env * CreateBookingInput := (mkEnv "" 0, mkInput "" []).

(** A unit that has not started. *)
Definition Idle (u : Unit) : Prop :=
  u_pc u = Validating (items (u_input u)) [] /\ u_locks u = [] /\ u_writes u = [].

Definition detailOf (ev : Event) (q : Z) : EventDetail :=
  mkDetail (e_id ev) (e_name ev) (e_available_seats ev) q.

(** Where a unit asking [q] seats of event [e] can stand between its lock
    grant and its return, [ev] being the committed row it read. *)
Inductive ActivePc (env : Env) (input : CreateBookingInput) (e : string) (q : Z)
    (ev : Event) (db : Db) : Pc -> list EventDetail -> Prop :=
| active_short :
    (e_available_seats ev <? q) = true ->
    ActivePc env input e q ev db
      (RollingBack (InsufficientSeatsError e q (e_available_seats ev))) []
| active_validated :
    (e_available_seats ev <? q) = false ->
    ActivePc env input e q ev db (Validating [] [detailOf ev q]) []
| active_decrementing :
    (e_available_seats ev <? q) = false ->
    ActivePc env input e q ev db (Decrementing [detailOf ev q] [detailOf ev q]) []
| active_decremented :
    (e_available_seats ev <? q) = false ->
    ActivePc env input e q ev db (Decrementing [] [detailOf ev q]) [detailOf ev q]
| active_creating :
    (e_available_seats ev <? q) = false ->
    ActivePc env input e q ev db (Creating [detailOf ev q]) [detailOf ev q]
| active_failed err :
    (e_available_seats ev <? q) = false ->
    fst (bookingCreate env (customerEmail input) None (lineItems input)
                       (decrementedDb env [detailOf ev q] db)) = Throw err ->
    ActivePc env input e q ev db (RollingBack err) [detailOf ev q].

Definition Active (e : string) (db : Db) (u : Unit) : Prop :=
  exists ev rest q,
    filter (fun x => String.eqb (e_id x) e) (events db) = ev :: rest /\
    items (u_input u) = [mkItemInput e q] /\
    In e (u_locks u) /\
    ActivePc (u_env u) (u_input u) e q ev db (u_pc u) (u_writes u).

(** The invariant of the runs in which every unit asks seats of the one
    event [e]: the units that returned did so in the order [done] of their
    lock grants, with the results and the committed database of the serial
    run in that order; at most one unit, [act], holds the lock; the others
    have not started. *)
Definition Serialized (e : string) (db0 : Db) (reqs : list (Env * CreateBookingInput))
    (c : Config) (done : list nat) (act : option nat)
    (results : list (Result BookingResult)) : Prop :=
  acquired c = done ++ match act with Some h => [h] | None => [] end /\
  NoDup (acquired c) /\
  (forall k, In k (acquired c) -> (k < length (units c))%nat) /\
  map requestOf (units c) = reqs /\
  filter (fun x => String.eqb (e_id x) e) (events (committed c)) <> [] /\
  serial (map (fun i => nth i reqs noRequest) done) db0 = (results, committed c) /\
  Forall2 (fun i r => exists u, nth_error (units c) i = Some u /\ u_pc u = Returned r)
          done results /\
  (forall i u, nth_error (units c) i = Some u ->
     (In i done -> u_locks u = []) /\
     (act = Some i -> Active e (committed c) u) /\
     (~ In i done -> act <> Some i -> Idle u)).

(** How many statements a unit has left at most. *)
Definition remaining (u : Unit) : nat :=
  match u_pc u with
  | Validating todo eventDetails => 4 + 2 * length todo + length eventDetails
  | Decrementing todo _ => 3 + length todo
  | Creating _ => 2
  | RollingBack _ => 1
  | Returned _ => 0
  end.

Definition remainingAll (c : Config) : nat :=
  fold_right Nat.add 0%nat (map remaining (units c)).

(** ** The read side of the service

    [listBookings] and the routes that only read: GET /bookings/:id and
    POST /bookings/:id/cancel of booking.routes.ts (with the messages of the
    error classes), GET /events and GET /events/:id of event.routes.ts. *)

(** [orderBy]: a stable insertion sort; [before y x] says that row [y] sorts
    strictly before row [x]. Rows the order does not tell apart stay in table
    order (the database leaves their order open). *)
Fixpoint insertBy {A} (before : A -> A -> bool) (x : A) (l : list A) : list A :=
  match l with
  | [] => [x]
  | y :: rest => if before y x then y :: insertBy before x rest else x :: l
  end.

Definition orderBy {A} (before : A -> A -> bool) (l : list A) : list A :=
  fold_right (insertBy before) [] l.

(** [orderBy: { createdAt: "desc" }] and [orderBy: { date: "asc" }]. *)
Definition createdAtDesc (y x : Booking) : bool := b_created_at x <? b_created_at y.
Definition dateAsc (y x : Event) : bool := e_date y <? e_date x.

(** The arguments of listBookings; an absent object is an object without
    fields. *)
Record ListFilters := mkFilters {
  f_email : option string;
  f_status : option string
}.

Record ListPagination := mkPagination {
  p_page : option Z;
  p_limit : option Z
}.

(** [Prisma.BookingWhereInput], as listBookings fills it. *)
Record BookingWhereInput := mkWhere {
  w_customerEmail : option string;
  w_status : option string
}.

(** [if (filters?.email) where.customerEmail = ...;
     if (filters?.status) where.status = ...] *)
Definition whereOf (filters : ListFilters) : BookingWhereInput :=
  mkWhere (if truthy (f_email filters) then f_email filters else None)
          (if truthy (f_status filters) then f_status filters else None).

(** The values of the enum "BookingStatus" of the migration. *)
Definition statusOfString (s : string) : option BookingStatus :=
  if String.eqb s "CONFIRMED" then Some CONFIRMED
  else if String.eqb s "CANCELLED" then Some CANCELLED
  else None.

(** The WHERE clause of a [BookingWhereInput]. *)
Definition matches (w : BookingWhereInput) (b : Booking) : bool :=
  match w_customerEmail w with
  | Some email => String.eqb (b_customer_email b) email
  | None => true
  end &&
  match w_status w with
  | Some s =>
      match statusOfString s with
      | Some st => BookingStatus_eqb (b_status b) st
      | None => false
      end
  | None => true
  end.

(** booking.findMany({ where, include, orderBy: { createdAt: "desc" }, skip, take }) *)
Definition bookingFindMany (w : BookingWhereInput) (skip take : Z) (db : Db)
    : list Booking :=
  firstn (Z.to_nat take)
         (skipn (Z.to_nat skip) (orderBy createdAtDesc (filter (matches w) (bookings db)))).

(** booking.count({ where }) *)
Definition bookingCount (w : BookingWhereInput) (db : Db) : Z :=
  Z.of_nat (length (filter (matches w) (bookings db))).

(** [bookings.map(booking => ({ ... }))]: the projection of every row; the
    first TypeError ends the map. *)
Fixpoint projectAll (db : Db) (bs : list Booking) : Result (list BookingResult) :=
  match bs with
  | [] => Ok []
  | b :: rest =>
      match toBookingResult b (includeItems db b) with
      | Throw e => Throw e
      | Ok r =>
          match projectAll db rest with
          | Ok rs => Ok (r :: rs)
          | Throw e => Throw e
          end
      end
  end.

(** [Math.ceil(total / limit)] for a positive [limit] (exact on the doubles
    of JavaScript below 2^53). *)
Definition ceilDiv (total limit : Z) : Z := - ((- total) / limit).

Record PageInfo := mkPageInfo {
  pg_page : Z;
  pg_limit : Z;
  pg_total : Z;
  pg_totalPages : Z
}.

Record Listing := mkListing {
  l_data : list BookingResult;
  l_pagination : PageInfo
}.

(** [BookingService.listBookings(filters?, pagination?)]. The embedding
    covers the queries the database accepts and [Math.ceil] answers with an
    integer: a skip of at least 0, a take of at least 1, a status filter that
    is a value of the enum. [None] stands for the other queries, which are
    left out. *)
Definition listBookings (filters : ListFilters) (pagination : ListPagination) (db : Db)
    : option (Result Listing) :=
  let page := match p_page pagination with Some p => p | None => 1 end in
  let limit := match p_limit pagination with Some l => l | None => 20 end in
  let skip := (page - 1) * limit in
  let w := whereOf filters in
  if (0 <=? skip) && (1 <=? limit) &&
     match w_status w with
     | Some s => match statusOfString s with Some _ => true | None => false end
     | None => true
     end
  then
    let bookings := bookingFindMany w skip limit db in
    let total := bookingCount w db in
    Some match projectAll db bookings with
         | Ok data => Ok (mkListing data (mkPageInfo page limit total (ceilDiv total limit)))
         | Throw e => Throw e
         end
  else None.

(** The messages of the two error classes these handlers catch
    ([super(`Booking not found: ${bookingId}`)] and the like). *)
Definition bookingNotFoundMessage (bookingId : string) : string :=
  "Booking not found: " ++ bookingId.


(** What a handler of booking.routes.ts answers: [{ data: booking }] (status
    200), [reply.status(code).send({ error, message })], or the error it
    throws again. *)
Inductive BookingReply :=
| Data (booking : BookingResult)
| ErrorReply (status : Z) (error : string) (msg : string)
| Rethrown (e : Error).

(** The handler of GET /bookings/:id. *)
Definition getBookingRoute (id : string) (db : Db) : BookingReply :=
  match getBooking id db with
  | Ok booking => Data booking
  | Throw (BookingNotFoundError x) =>
      ErrorReply 404 "BookingNotFound" (bookingNotFoundMessage x)
  | Throw error => Rethrown error
  end.


(** The columns the event routes select. *)
Record EventView := mkEventView {
  v_id : string;
  v_name : string;
  v_date : Z;
  v_venue : string;
  v_totalSeats : Z;
  v_availableSeats : Z
}.

Definition selectEvent (e : Event) : EventView :=
  mkEventView (e_id e) (e_name e) (e_date e) (e_venue e) (e_total_seats e)
              (e_available_seats e).

(** The handler of GET /events: [{ data: events }], ordered by date. *)
Definition getEvents (db : Db) : list EventView :=
  map selectEvent (orderBy dateAsc (events db)).



(** ** Runs and what they keep *)

(** The database and the console after a sequence of requests. *)
Definition serveAll (reqs : list Request) (w : Db * Console) : Db * Console :=
  fold_left (fun w req => serve req w) reqs w.

(** The idempotency keys stored, in table order. *)
Definition storedKeys (bs : list Booking) : list string :=
  flat_map (fun b => match b_idempotency_key b with
                     | Some k => [k]
                     | None => []
                     end) bs.


(** A booking row later in a run: nothing but the status may differ, and a
    CANCELLED booking stays CANCELLED. *)
Definition laterRow (b b' : Booking) : Prop :=
  b_id b' = b_id b /\
  b_customer_email b' = b_customer_email b /\
  b_created_at b' = b_created_at b /\
  b_idempotency_key b' = b_idempotency_key b /\
  b_items b' = b_items b /\
  (b_status b = CANCELLED -> b_status b' = CANCELLED).

(** An event row later in a run: only the available seats and the update
    stamp may differ. *)
Definition laterEvent (e e' : Event) : Prop :=
  e_id e' = e_id e /\
  e_name e' = e_name e /\
  e_date e' = e_date e /\
  e_venue e' = e_venue e /\
  e_total_seats e' = e_total_seats e /\
  e_created_at e' = e_created_at e.

(** The seats of an event held by all the CONFIRMED bookings. *)
Definition confirmedSeats (bs : list Booking) (eid : string) : Z :=
  fold_right Z.add 0
    (map (fun b => if BookingStatus_eqb (b_status b) CONFIRMED
                   then seatsDelta i_quantity i_event_id (b_items b) eid
                   else 0) bs).

(** The seats a request asks of an event. *)
Definition asked (input : CreateBookingInput) (eid : string) : Z :=
  seatsDelta quantity eventId (items input) eid.

(** A projection that shows a booking row: its columns, its line items in
    order, and the sum of their quantities. *)
Definition projects (b : Booking) (r : BookingResult) : Prop :=
  r_id r = b_id b /\
  r_customerEmail r = b_customer_email b /\
  r_status r = b_status b /\
  r_createdAt r = b_created_at b /\
  map ri_eventId (r_items r) = map i_event_id (b_items b) /\
  map ri_quantity (r_items r) = map i_quantity (b_items b) /\
  r_totalTickets r = fold_right Z.add 0 (map i_quantity (b_items b)).

(** The three things a request can do to the database: nothing, the commit
    of a new booking, the commit of a cancellation. *)
Inductive Committed (db : Db) : Request -> Db -> Prop :=
| committed_nothing req : Committed db req db
| committed_booking svc env input key :
    lookupExisting key db = None ->
    firstOffending db (items input) = None ->
    findBooking (env_uuid env) db = None ->
    NoDup (map eventId (items input)) ->
    Committed db (CreateBooking svc env input key)
      (mkDb (events (decrementedDb env (validatedDetails db (items input)) db))
            (bookings db ++ [mkBooking (env_uuid env) (customerEmail input) CONFIRMED
                                       (env_now env) (storedKey key) (lineItems input)]))
| committed_cancellation env id b :
    findBooking id db = Some b -> b_status b = CONFIRMED ->
    Committed db (CancelBooking env id) (cancelledDb env id b db).

(** The bookings stored at the start, as a later state holds them: in
    place, at the head of the table. *)
Definition keptRows (bs bs' : list Booking) : Prop :=
  exists kept added, bs' = kept ++ added /\ Forall2 laterRow bs kept.

(** The ledger of an event: its available seats plus the seats the
    CONFIRMED bookings hold of it. *)
Definition ledger (db : Db) (eid : string) : option Z :=
  option_map (fun a => a + confirmedSeats (bookings db) eid) (availableSeats db eid).



(** The database the sample run leaves: booking "b1" CANCELLED, booking "b3"
    CONFIRMED. *)
Definition afterSampleRun : Db := fst (serveAll sampleRun (seed, [])).

(** The tickets of the bookings that a list of calls returned. *)
Definition ticketsOf (o : option (Result BookingResult)) : Z :=
  match o with
  | Some (Ok r) => r_totalTickets r
  | _ => 0
  end.

Definition ticketsSold (l : list (option (Result BookingResult))) : Z :=
  fold_right Z.add 0 (map ticketsOf l).

(** * Properties *)

(** ** The primitives *)

Lemma db_eta (db : Db) : mkDb (events db) (bookings db) = db.
Proof. now destruct db. Qed.

Lemma forEach_updateSeats {A} (delta : A -> Z) (id : A -> string) now xs db :
  forEach (fun x => updateSeats (delta x) now (id x)) xs db =
  (Ok tt, mkDb (applySeats delta id now xs (events db)) (bookings db)).
Proof.
  revert db; induction xs as [|x xs IH]; intros db; cbn.
  - unfold ret. now rewrite db_eta.
  - unfold bind, updateSeats at 1. rewrite IH. reflexivity.
Qed.

Lemma lockAndValidate_db its acc db :
  snd (lockAndValidate its acc db) = db.
Proof.
  revert acc; induction its as [|item rest IH]; intros acc; cbn; [reflexivity|].
  unfold bind, selectEventForUpdate.
  destruct (filter _ (events db)) as [|event evs]; cbn; [reflexivity|].
  destruct (e_available_seats event <? quantity item); cbn; [reflexivity|].
  apply IH.
Qed.

Lemma find_setStatus id s l b :
  find (fun b => String.eqb (b_id b) id) l = Some b ->
  find (fun b => String.eqb (b_id b) id) (map (setStatus id s) l) =
  Some (setStatus id s b).
Proof.
  induction l as [|x l IH]; cbn; [discriminate|].
  unfold setStatus at 1.
  destruct (String.eqb (b_id x) id) eqn:E; cbn; rewrite E.
  - now intros [= ->].
  - exact IH.
Qed.

Lemma find_id_eq id l b :
  find (fun b => String.eqb (b_id b) id) l = Some b -> b_id b = id.
Proof.
  intros H. apply find_some in H. now apply String.eqb_eq.
Qed.

Lemma findBooking_None id db :
  findBooking id db = None <-> (forall b, In b (bookings db) -> b_id b <> id).
Proof.
  unfold findBooking. split.
  - intros H b Hin E. eapply find_none in H; eauto. cbn in H.
    apply String.eqb_neq in H. contradiction.
  - intros H. destruct (find _ _) as [b|] eqn:F; [|reflexivity].
    pose proof (find_id_eq _ _ _ F). apply find_some in F. firstorder.
Qed.

(** ** cancelBooking *)

Lemma cancelBooking_absent env id db :
  findBooking id db = None ->
  cancelBooking env id db = (Throw (BookingNotFoundError id), db).
Proof.
  intros H. unfold cancelBooking, transaction, cancelBookingTx. now rewrite H.
Qed.

Lemma cancelBooking_cancelled env id db b :
  findBooking id db = Some b -> b_status b = CANCELLED ->
  cancelBooking env id db = (Throw (BookingAlreadyCancelledError id), db).
Proof.
  intros H S. unfold cancelBooking, transaction, cancelBookingTx. now rewrite H, S.
Qed.

Lemma cancelBooking_confirmed env id db b :
  findBooking id db = Some b -> b_status b = CONFIRMED ->
  let db' := cancelledDb env id b db in
  let b' := setStatus id CANCELLED b in
  cancelBooking env id db = (toBookingResult b' (includeItems db' b'), db').
Proof.
  intros H S. cbn zeta.
  unfold cancelBooking, transaction, cancelBookingTx. rewrite H, S.
  unfold bind at 1. rewrite forEach_updateSeats.
  unfold bind, bookingUpdate, findBooking. cbn [events bookings].
  unfold findBooking in H. rewrite (find_setStatus _ CANCELLED _ _ H).
  reflexivity.
Qed.

Lemma toBookingResult_not_conflict b its e :
  toBookingResult b its = Throw e -> e = TypeError.
Proof.
  unfold toBookingResult. destruct (mapItems its) eqn:M; [discriminate|].
  intros [= <-]. revert e0 M.
  induction its as [|[i [ev|]] rest IH]; cbn; intros e0.
  - discriminate.
  - destruct (mapItems rest); [discriminate|]. intros [= <-]. now apply IH.
  - now intros [= <-].
Qed.

(** C7. cancelBooking fails BookingNotFound exactly when no booking has the
    id, fails BookingAlreadyCancelled exactly when the booking of that id is
    already CANCELLED; either failure leaves the whole database (every
    event's available seats, every booking's status) as it was; and once a
    booking of that id exists, a cancel followed by a second cancel makes the
    second fail BookingAlreadyCancelled and change nothing. *)
Theorem cancelBooking_failures (env : Env) (bookingId : string) (db : Db) :
  (forall x, fst (cancelBooking env bookingId db) = Throw (BookingNotFoundError x) <->
             (forall b, In b (bookings db) -> b_id b <> bookingId) /\ x = bookingId) /\
  (forall x, fst (cancelBooking env bookingId db) = Throw (BookingAlreadyCancelledError x) <->
             (exists b, findBooking bookingId db = Some b /\ b_status b = CANCELLED) /\
             x = bookingId) /\
  (forall x, fst (cancelBooking env bookingId db) = Throw (BookingNotFoundError x) \/
             fst (cancelBooking env bookingId db) = Throw (BookingAlreadyCancelledError x) ->
             snd (cancelBooking env bookingId db) = db) /\
  (forall env2, (exists b, findBooking bookingId db = Some b) ->
     let db1 := snd (cancelBooking env bookingId db) in
     cancelBooking env2 bookingId db1 = (Throw (BookingAlreadyCancelledError bookingId), db1)).
Proof.
  destruct (findBooking bookingId db) as [b|] eqn:F.
  - assert (NF : ~ (forall b, In b (bookings db) -> b_id b <> bookingId)).
    { intros H. apply findBooking_None in H. congruence. }
    destruct (b_status b) eqn:S.
    + pose proof (cancelBooking_confirmed env _ _ _ F S) as C. cbn zeta in C.
      rewrite C. cbn [fst snd].
      assert (NT : forall e, toBookingResult (setStatus bookingId CANCELLED b)
                     (includeItems (cancelledDb env bookingId b db)
                        (setStatus bookingId CANCELLED b)) = Throw e -> e = TypeError)
        by (intros e; apply toBookingResult_not_conflict).
      split; [|split; [|split]].
      * intros x; split; [intros H; apply NT in H; discriminate | tauto].
      * intros x; split; [intros H; apply NT in H; discriminate |].
        intros [[b0 [[= <-] S0]] _]. congruence.
      * intros x [H|H]; apply NT in H; discriminate.
      * intros env2 _. eapply cancelBooking_cancelled.
        -- unfold findBooking, cancelledDb. cbn [bookings].
           apply find_setStatus. exact F.
        -- unfold setStatus. rewrite (proj2 (String.eqb_eq _ _) (find_id_eq _ _ _ F)).
           reflexivity.
    + rewrite (cancelBooking_cancelled env _ _ _ F S). cbn [fst snd].
      split; [|split; [|split]].
      * intros x; split; [discriminate | tauto].
      * intros x; split; [intros [= <-]; eauto | now intros [_ ->]].
      * reflexivity.
      * intros env2 _. now apply cancelBooking_cancelled with b.
  - rewrite (cancelBooking_absent env _ _ F). cbn [fst snd].
    split; [|split; [|split]].
    + intros x; split; [intros [= <-]; split; [now apply findBooking_None | reflexivity]
                       | now intros [_ ->]].
    + intros x; split; [discriminate | intros [[b [[=] _]] _]].
    + reflexivity.
    + intros env2 [b [=]].
Qed.

(** ** createBooking: phase 1 against the words of step 2 *)

Lemma filter_head_find {A} (f : A -> bool) (l : list A) :
  match filter f l with
  | [] => find f l = None
  | x :: _ => find f l = Some x
  end.
Proof.
  induction l as [|a l IH]; cbn; [reflexivity|].
  destruct (f a); [reflexivity | exact IH].
Qed.

Lemma lockAndValidate_offending its : forall acc db item,
  firstOffending db its = Some item ->
  lockAndValidate its acc db =
  (Throw (match findEvent (eventId item) db with
          | None => EventNotFoundError (eventId item)
          | Some ev => InsufficientSeatsError (eventId item) (quantity item)
                                              (e_available_seats ev)
          end), db).
Proof.
  unfold firstOffending.
  induction its as [|it rest IH]; intros acc db item; cbn; [discriminate|].
  unfold bind, selectEventForUpdate, offending at 1, findEvent.
  pose proof (filter_head_find (fun e => String.eqb (e_id e) (eventId it)) (events db)) as F.
  destruct (filter _ (events db)) as [|event evs]; rewrite F.
  - intros [= <-]. now rewrite F.
  - destruct (e_available_seats event <? quantity it) eqn:L.
    + intros [= <-]. now rewrite F.
    + apply IH.
Qed.

Lemma lockAndValidate_passes its : forall acc db,
  firstOffending db its = None ->
  lockAndValidate its acc db = (Ok (acc ++ validatedDetails db its), db).
Proof.
  unfold firstOffending.
  induction its as [|it rest IH]; intros acc db; cbn.
  - intros _. unfold ret. now rewrite app_nil_r.
  - unfold bind, selectEventForUpdate, offending at 1, findEvent.
    pose proof (filter_head_find (fun e => String.eqb (e_id e) (eventId it)) (events db)) as F.
    destruct (filter _ (events db)) as [|event evs]; rewrite F; [discriminate|].
    destruct (e_available_seats event <? quantity it) eqn:L; [discriminate|].
    intros H. rewrite IH by exact H. cbn. now rewrite <- app_assoc.
Qed.

(** The transaction body of createBooking, by cases on the first offending item. *)
Lemma createBookingTx_offending env input key db item :
  firstOffending db (items input) = Some item ->
  createBookingTx env input key db =
  (Throw (match findEvent (eventId item) db with
          | None => EventNotFoundError (eventId item)
          | Some ev => InsufficientSeatsError (eventId item) (quantity item)
                                              (e_available_seats ev)
          end), db).
Proof.
  intros H. unfold createBookingTx, bind at 1.
  now rewrite (lockAndValidate_offending _ _ _ _ H).
Qed.

Lemma createBookingTx_passes env input key db :
  firstOffending db (items input) = None ->
  let details := validatedDetails db (items input) in
  createBookingTx env input key db =
  match bookingCreate env (customerEmail input) (storedKey key) (lineItems input)
                      (decrementedDb env details db) with
  | (Ok booking, db') => (Ok (booking, details), db')
  | (Throw e, db') => (Throw e, db')
  end.
Proof.
  intros H. cbn zeta. unfold createBookingTx, bind at 1.
  rewrite (lockAndValidate_passes _ _ _ H). cbn [app].
  unfold bind at 1. rewrite forEach_updateSeats.
  unfold bind, ret, decrementedDb, storedKey, lineItems.
  destruct (bookingCreate _ _ _ _ _) as [[b|e] db']; reflexivity.
Qed.

Lemma bookingCreate_throws env email key its db e db' :
  bookingCreate env email key its db = (Throw e, db') ->
  exists code, e = PrismaError code.
Proof.
  unfold bookingCreate.
  repeat match goal with |- context [if ?c then _ else _] => destruct c end;
    intros [= <- <-] || discriminate; eauto.
Qed.

Lemma createBookingTx_conflict env input key db e db' :
  createBookingTx env input key db = (Throw e, db') ->
  reserveConflict e -> db' = db.
Proof.
  destruct (firstOffending db (items input)) as [item|] eqn:F.
  - rewrite (createBookingTx_offending _ _ _ _ _ F). now intros [= <- <-].
  - pose proof (createBookingTx_passes env input key db F) as P. cbn zeta in P.
    rewrite P.
    destruct (bookingCreate _ _ _ _ _) as [[b|e'] db''] eqn:B; [discriminate|].
    intros [= <- <-]. apply bookingCreate_throws in B as [code ->]. contradiction.
Qed.

Lemma mapDetails_throws details : forall i its e,
  mapDetails details i its = Throw e -> e = TypeError.
Proof.
  induction details as [|d rest IH]; intros i its e; cbn; [discriminate|].
  destruct (nth_error its i); [|now intros [= <-]].
  destruct (mapDetails rest (S i) its) eqn:M; [discriminate|].
  intros [= <-]. now apply IH in M.
Qed.

(** C2. When createBooking fails with EventNotFound or InsufficientSeats,
    the committed database is the one before the call (every event's
    available seats, no booking and no line item added), nothing was sent to
    the console, and the working copy of the transaction was itself untouched
    when the error was thrown: the items validated earlier in the request had
    not been decremented. *)
Theorem createBooking_all_or_nothing (svc : NotificationService) (env : Env)
    (input : CreateBookingInput) (idempotencyKey : option string)
    (db : Db) (con : Console) (e : Error) :
  resultOf (createBooking svc env input idempotencyKey db con) = Throw e ->
  reserveConflict e ->
  dbOf (createBooking svc env input idempotencyKey db con) = db /\
  consoleOf (createBooking svc env input idempotencyKey db con) = con /\
  createBookingTx env input idempotencyKey db = (Throw e, db).
Proof.
  unfold createBooking, resultOf, dbOf, consoleOf.
  destruct (lookupExisting idempotencyKey db) as [b|].
  - cbn [fst snd]. intros H C. apply toBookingResult_not_conflict in H.
    subst e. contradiction.
  - unfold transaction.
    destruct (createBookingTx env input idempotencyKey db) as [[[booking details]|e'] db'] eqn:T.
    + destruct (mapDetails details 0 (b_items booking)) eqn:M; cbn [fst snd].
      * discriminate.
      * intros [= <-] C. apply mapDetails_throws in M. subst. contradiction.
    + cbn [fst snd]. intros [= <-] C. repeat split.
      now rewrite (createBookingTx_conflict _ _ _ _ _ _ T C).
Qed.

(** The scenario of the specification: Rock Festival (1 seat asked, 100
    available) then Classical Concert (5 asked, 2 available). *)
Lemma createBooking_all_or_nothing_witness :
  let input := mkInput "a@test.com" [mkItemInput (e_id rockFestival) 1;
                                     mkItemInput (e_id classicalConcert) 5] in
  let run := createBooking consoleService (mkEnv "b1" 10) input None seed [] in
  resultOf run = Throw (InsufficientSeatsError (e_id classicalConcert) 5 2) /\
  dbOf run = seed /\ consoleOf run = [] /\
  createBookingTx (mkEnv "b1" 10) input None seed =
  (Throw (InsufficientSeatsError (e_id classicalConcert) 5 2), seed).
Proof.
  cbv zeta. split; [reflexivity|].
  apply (createBooking_all_or_nothing consoleService (mkEnv "b1" 10)
           (mkInput "a@test.com" [mkItemInput (e_id rockFestival) 1;
                                  mkItemInput (e_id classicalConcert) 5])
           None seed [] (InsufficientSeatsError (e_id classicalConcert) 5 2)).
  - reflexivity.
  - exact I.
Defined.

Lemma createBooking_fresh_offending svc env input key db con item :
  lookupExisting key db = None ->
  firstOffending db (items input) = Some item ->
  createBooking svc env input key db con =
  (Throw (match findEvent (eventId item) db with
          | None => EventNotFoundError (eventId item)
          | Some ev => InsufficientSeatsError (eventId item) (quantity item)
                                              (e_available_seats ev)
          end), db, con).
Proof.
  intros L F. unfold createBooking, transaction. rewrite L.
  now rewrite (createBookingTx_offending _ _ _ _ _ F).
Qed.

Lemma createBooking_no_conflict svc env input key db con e :
  firstOffending db (items input) = None ->
  resultOf (createBooking svc env input key db con) = Throw e ->
  ~ reserveConflict e.
Proof.
  intros F. unfold createBooking, resultOf, transaction.
  destruct (lookupExisting key db) as [b|].
  - cbn [fst]. intros H. apply toBookingResult_not_conflict in H. now subst e.
  - pose proof (createBookingTx_passes env input key db F) as P. cbn zeta in P.
    rewrite P. clear P.
    destruct (bookingCreate _ _ _ _ _) as [[b|e'] db'] eqn:B.
    + destruct (mapDetails _ 0 (b_items b)) eqn:M; cbn [fst]; [discriminate|].
      intros [= <-]. apply mapDetails_throws in M. now subst.
    + cbn [fst]. intros [= <-]. apply bookingCreate_throws in B as [code ->]. tauto.
Qed.

(** C4 (amended). When the call is not answered from the idempotency lookup,
    createBooking examines the items in the order submitted: it fails
    EventNotFound exactly when the first offending item names no event, and
    InsufficientSeats exactly when the first offending item asks for more
    than its event's available seats, the error carrying that item's event
    id, its quantity and the seats observed; when no item offends, neither
    error is raised. *)
Theorem createBooking_failure_order (svc : NotificationService) (env : Env)
    (input : CreateBookingInput) (idempotencyKey : option string)
    (db : Db) (con : Console) :
  lookupExisting idempotencyKey db = None ->
  reserve_failures db (items input)
    (resultOf (createBooking svc env input idempotencyKey db con)).
Proof.
  intros L. unfold reserve_failures.
  destruct (firstOffending db (items input)) as [item|] eqn:F.
  - rewrite (createBooking_fresh_offending svc env input _ db con item L F).
    unfold resultOf; cbn [fst].
    assert (O : offending db item = true)
      by (unfold firstOffending in F; now apply find_some in F).
    unfold offending in O.
    destruct (findEvent (eventId item) db) as [ev|] eqn:E.
    + apply Z.ltb_lt in O. split; [|split].
      * intros eid; split; [discriminate|].
        intros (item' & [= <-] & E' & _). congruence.
      * intros eid requested available; split.
        -- intros [= <- <- <-]. exists item, ev. repeat split; [exact E | lia].
        -- intros (item' & ev' & [= <-] & E' & _ & -> & -> & ->).
           rewrite E in E'. now injection E' as <-.
      * discriminate.
    + split; [|split].
      * intros eid; split.
        -- intros [= <-]. exists item. now repeat split.
        -- now intros (item' & [= <-] & _ & ->).
      * intros eid requested available; split; [discriminate|].
        intros (item' & ev' & [= <-] & E' & _). congruence.
      * discriminate.
  - assert (N : forall e, resultOf (createBooking svc env input idempotencyKey db con) = Throw e ->
                          ~ reserveConflict e)
      by (intros e; now apply createBooking_no_conflict).
    split; [|split].
    + intros eid; split; [|intros (item & [=] & _)].
      intros H. apply N in H. now destruct H.
    + intros eid requested available; split; [|intros (item & ev & [=] & _)].
      intros H. apply N in H. now destruct H.
    + intros _. split; intros; intros H; apply N in H; now destruct H.
Qed.

(** On the seed data: the Rock Festival item passes, the Classical Concert
    item (5 asked, 2 available) is the first to offend. *)
Lemma createBooking_failure_order_witness :
  lookupExisting None seed = None /\
  reserve_failures seed
    [mkItemInput (e_id rockFestival) 1; mkItemInput (e_id classicalConcert) 5]
    (Throw (InsufficientSeatsError (e_id classicalConcert) 5 2)).
Proof.
  split; [reflexivity|].
  exact (createBooking_failure_order consoleService (mkEnv "b1" 10)
           (mkInput "a@test.com" [mkItemInput (e_id rockFestival) 1;
                                  mkItemInput (e_id classicalConcert) 5])
           None seed [] eq_refl).
Defined.

(** C4 as stated fails on a retry: the request that took the last two seats
    of the Classical Concert, sent again under its key, offends (2 seats
    asked, none left) and is answered with the stored booking. *)
Lemma createBooking_failure_order_counterexample :
  lookupExisting (Some "k1") afterLastSeats <> None /\
  ~ reserve_failures afterLastSeats (items lastSeats)
      (resultOf (createBooking consoleService (mkEnv "b2" 20) lastSeats (Some "k1")
                               afterLastSeats [])).
Proof.
  split; [discriminate|].
  intros (_ & H & _).
  specialize (H (e_id classicalConcert) 2 0).
  destruct H as [_ H].
  assert (R : resultOf (createBooking consoleService (mkEnv "b2" 20) lastSeats (Some "k1")
                          afterLastSeats []) =
              Throw (InsufficientSeatsError (e_id classicalConcert) 2 0)).
  { apply H.
    exists (mkItemInput (e_id classicalConcert) 2).
    exists (mkEvent (e_id classicalConcert) "Classical Concert" 1756153800 "La Scala"
                    2 0 0 10).
    repeat split. }
  discriminate R.
Qed.

(** ** createBooking: the projection of a fresh booking *)

Lemma totalQuantity_sum (l : list BookingItem) :
  totalQuantity l = fold_right Z.add 0 (map i_quantity l).
Proof.
  unfold totalQuantity.
  assert (G : forall acc, fold_left (fun sum item => sum + i_quantity item) l acc =
                          acc + fold_right Z.add 0 (map i_quantity l)).
  { induction l as [|x l IH]; intros acc; cbn; [lia|]. rewrite IH. lia. }
  now rewrite G.
Qed.

Lemma mapDetails_validated db its : forall pre,
  firstOffending db its = None ->
  exists ris,
    mapDetails (validatedDetails db its) (length pre)
               (pre ++ map (fun item => mkBookingItem (eventId item) (quantity item)) its) =
    Ok ris /\
    Forall2 (fun item ri =>
               ri_eventId ri = eventId item /\
               ri_quantity ri = quantity item /\
               exists ev, findEvent (eventId item) db = Some ev /\
                          ri_eventName ri = e_name ev) its ris.
Proof.
  unfold firstOffending.
  induction its as [|it rest IH]; intros pre.
  - intros _. exists []. split; [reflexivity | constructor].
  - cbn [find]. unfold offending at 1.
    change (validatedDetails db (it :: rest))
      with (match findEvent (eventId it) db with
            | Some ev => [mkDetail (e_id ev) (e_name ev) (e_available_seats ev) (quantity it)]
            | None => []
            end ++ validatedDetails db rest).
    destruct (findEvent (eventId it) db) as [ev|] eqn:E; [|discriminate].
    destruct (e_available_seats ev <? quantity it); [discriminate|].
    intros F. cbn [app map mapDetails].
    rewrite nth_error_app2 by lia. rewrite Nat.sub_diag. cbn [nth_error].
    destruct (IH (pre ++ [mkBookingItem (eventId it) (quantity it)]) F) as (ris & M & P).
    rewrite length_app, Nat.add_1_r, <- app_assoc in M. cbn [app length] in M. rewrite M.
    eexists; split; [reflexivity|].
    constructor; [|exact P]. cbn. repeat split.
    + apply find_some in E. now apply String.eqb_eq.
    + now exists ev.
Qed.

Lemma bookingCreate_ok env email key its db b db' :
  bookingCreate env email key its db = (Ok b, db') ->
  b = mkBooking (env_uuid env) email CONFIRMED (env_now env) key its /\
  db' = mkDb (events db) (bookings db ++ [b]) /\
  existsb (fun b => String.eqb (b_id b) (env_uuid env)) (bookings db) = false /\
  key_free key db = true /\
  nodupb (map i_event_id its) = true /\
  forallb (fun i => existsb (fun e => String.eqb (e_id e) (i_event_id i)) (events db)) its = true.
Proof.
  unfold bookingCreate.
  destruct (existsb _ (bookings db)); [discriminate|].
  destruct (key_free key db); [|discriminate].
  destruct (nodupb _); [|discriminate].
  destruct (forallb _ its); [|discriminate].
  cbn. intros [= <- <-]. repeat split.
Qed.

(** A fresh createBooking that succeeds, in closed form. *)
Lemma createBooking_fresh_ok svc env input key db con r :
  lookupExisting key db = None ->
  resultOf (createBooking svc env input key db con) = Ok r ->
  let details := validatedDetails db (items input) in
  let b := mkBooking (env_uuid env) (customerEmail input) CONFIRMED (env_now env)
                     (storedKey key) (lineItems input) in
  firstOffending db (items input) = None /\
  bookingCreate env (customerEmail input) (storedKey key) (lineItems input)
                (decrementedDb env details db) =
  (Ok b, mkDb (events (decrementedDb env details db)) (bookings db ++ [b])) /\
  mapDetails details 0 (lineItems input) = Ok (r_items r) /\
  r = mkResult (env_uuid env) (customerEmail input) CONFIRMED (env_now env)
               (r_items r) (totalQuantity (lineItems input)) /\
  createBooking svc env input key db con =
  (Ok r, mkDb (events (decrementedDb env details db)) (bookings db ++ [b]),
   snd (notify svc (toNotification r) con)).
Proof.
  intros L H. cbn zeta.
  destruct (firstOffending db (items input)) as [item|] eqn:F.
  { rewrite (createBooking_fresh_offending svc env input key db con item L F) in H.
    discriminate. }
  split; [reflexivity|].
  revert H. unfold createBooking, resultOf, transaction. rewrite L.
  pose proof (createBookingTx_passes env input key db F) as P. cbn zeta in P.
  rewrite P. clear P.
  destruct (bookingCreate _ _ _ _ _) as [[b|e] db'] eqn:B; [|discriminate].
  apply bookingCreate_ok in B as (-> & -> & _). cbn [b_items b_id b_status
    b_customer_email b_created_at bookings events decrementedDb].
  destruct (mapDetails _ 0 (lineItems input)) as [ris|e] eqn:M; [|discriminate].
  cbn [fst]. intros [= <-]. cbn [r_items]. repeat split.
Qed.

(** C10 (amended). For every createBooking call that succeeds without being
    answered from the idempotency lookup, the projection lists the requested
    items in their order, the i-th entry carrying the i-th requested event
    id, that event's name and the i-th requested quantity, and totalTickets
    is the sum of the requested quantities. *)
Theorem createBooking_projection (svc : NotificationService) (env : Env)
    (input : CreateBookingInput) (idempotencyKey : option string)
    (db : Db) (con : Console) (r : BookingResult) :
  lookupExisting idempotencyKey db = None ->
  resultOf (createBooking svc env input idempotencyKey db con) = Ok r ->
  projection_shape db input r.
Proof.
  intros L H.
  destruct (createBooking_fresh_ok _ _ _ _ _ _ _ L H) as (F & _ & M & R & _).
  destruct (mapDetails_validated db (items input) [] F) as (ris & M' & P).
  cbn [length app] in M'. unfold lineItems in M. rewrite M' in M.
  injection M as ->. split; [exact P|].
  rewrite R. cbn [r_totalTickets]. rewrite totalQuantity_sum.
  unfold lineItems. rewrite map_map. reflexivity.
Qed.

(** On the seed data: two seats of the Classical Concert and one of the
    Jazz Night, booked as "b1". *)
Lemma createBooking_projection_witness :
  lookupExisting None seed = None /\
  projection_shape seed
    (mkInput "a@test.com" [mkItemInput (e_id classicalConcert) 2;
                           mkItemInput (e_id jazzNight) 1])
    (mkResult "b1" "a@test.com" CONFIRMED 10
       [mkResultItem (e_id classicalConcert) "Classical Concert" 2;
        mkResultItem (e_id jazzNight) "Jazz Night" 1] 3).
Proof.
  split; [reflexivity|].
  exact (createBooking_projection consoleService (mkEnv "b1" 10)
           (mkInput "a@test.com" [mkItemInput (e_id classicalConcert) 2;
                                  mkItemInput (e_id jazzNight) 1])
           None seed [] _ eq_refl eq_refl).
Defined.

(** C10 as stated fails when a key is reused with another request: the
    request for one Jazz Night seat, sent under the key of the Classical
    Concert booking, succeeds with the projection of that booking. *)
Lemma createBooking_projection_counterexample :
  exists r,
    resultOf (createBooking consoleService (mkEnv "b2" 20) oneJazzSeat (Some "k1")
                            afterLastSeats []) = Ok r /\
    ~ projection_shape afterLastSeats oneJazzSeat r.
Proof.
  eexists. split; [reflexivity|].
  intros [P _]. cbn in P. inversion P as [|item ri l l' [E _] _]; subst.
  discriminate E.
Qed.

(** ** Seat updates, row by row *)

Lemma setSeats_id d now i e : e_id (setSeats d now i e) = e_id e.
Proof. unfold setSeats. now destruct (String.eqb (e_id e) i). Qed.

Lemma setSeats_total d now i e : e_total_seats (setSeats d now i e) = e_total_seats e.
Proof. unfold setSeats. now destruct (String.eqb (e_id e) i). Qed.

Lemma setSeats_name d now i e : e_name (setSeats d now i e) = e_name e.
Proof. unfold setSeats. now destruct (String.eqb (e_id e) i). Qed.

Lemma setSeats_available d now i e :
  e_available_seats (setSeats d now i e) =
  e_available_seats e + (if String.eqb (e_id e) i then d else 0).
Proof. unfold setSeats. destruct (String.eqb (e_id e) i); cbn; lia. Qed.

Section Adjust.
Context {A : Type} (delta : A -> Z) (id : A -> string) (now : Z).

Lemma applySeats_adjust xs : forall evs,
  applySeats delta id now xs evs = map (adjust delta id now xs) evs.
Proof.
  unfold applySeats, adjust.
  induction xs as [|x rest IH]; intros evs; cbn.
  - now rewrite map_id.
  - rewrite IH, map_map. reflexivity.
Qed.

Lemma adjust_id xs : forall e, e_id (adjust delta id now xs e) = e_id e.
Proof.
  unfold adjust. induction xs as [|x rest IH]; intros e; cbn; [reflexivity|].
  now rewrite IH, setSeats_id.
Qed.

Lemma adjust_total xs : forall e,
  e_total_seats (adjust delta id now xs e) = e_total_seats e.
Proof.
  unfold adjust. induction xs as [|x rest IH]; intros e; cbn; [reflexivity|].
  now rewrite IH, setSeats_total.
Qed.

Lemma adjust_name xs : forall e, e_name (adjust delta id now xs e) = e_name e.
Proof.
  unfold adjust. induction xs as [|x rest IH]; intros e; cbn; [reflexivity|].
  now rewrite IH, setSeats_name.
Qed.

Lemma adjust_available xs : forall e,
  e_available_seats (adjust delta id now xs e) =
  e_available_seats e + seatsDelta delta id xs (e_id e).
Proof.
  unfold adjust, seatsDelta.
  induction xs as [|x rest IH]; intros e; cbn; [lia|].
  rewrite IH, setSeats_id, setSeats_available.
  destruct (String.eqb (e_id e) (id x)); cbn; lia.
Qed.

Lemma find_applySeats xs evs eid :
  find (fun e => String.eqb (e_id e) eid) (applySeats delta id now xs evs) =
  option_map (adjust delta id now xs) (find (fun e => String.eqb (e_id e) eid) evs).
Proof.
  rewrite applySeats_adjust.
  induction evs as [|e evs IH]; cbn; [reflexivity|].
  rewrite adjust_id. destruct (String.eqb (e_id e) eid); [reflexivity | exact IH].
Qed.
End Adjust.

Lemma find_id_event id l e :
  find (fun e => String.eqb (e_id e) id) l = Some e -> e_id e = id.
Proof. intros H. apply find_some in H. now apply String.eqb_eq. Qed.

Lemma existsb_find_event id l :
  existsb (fun e => String.eqb (e_id e) id) l = true ->
  find (fun e => String.eqb (e_id e) id) l <> None.
Proof.
  intros H N. apply existsb_exists in H as (e & I & E).
  eapply find_none in N; eauto. cbn in N. congruence.
Qed.

(** The projection of a stored booking exists as soon as its line items name
    existing events. *)
Lemma toBookingResult_ok db b :
  (forall i, In i (b_items b) -> findEvent (i_event_id i) db <> None) ->
  exists r, toBookingResult b (includeItems db b) = Ok r /\
            r_id r = b_id b /\ r_status r = b_status b.
Proof.
  intros H. unfold toBookingResult, includeItems.
  assert (M : exists ris, mapItems (map (includeEvent db) (b_items b)) = Ok ris).
  { induction (b_items b) as [|i l IH]; cbn; [now eexists|].
    destruct (findEvent (i_event_id i) db) eqn:E; [|now destruct (H i (or_introl eq_refl))].
    destruct IH as [ris ->]; [intros; apply H; now right|]. now eexists. }
  destruct M as [ris ->]. eexists; repeat split.
Qed.

(** ** Idempotent retry *)

Lemma lookupExisting_key K db : K <> "" -> lookupExisting (Some K) db = findBookingByKey K db.
Proof.
  intros N. unfold lookupExisting, truthy.
  apply String.eqb_neq in N. now rewrite N.
Qed.

Lemma createBooking_replay svc env input key db con b :
  lookupExisting key db = Some b ->
  createBooking svc env input key db con = (toBookingResult b (includeItems db b), db, con).
Proof. intros L. unfold createBooking. now rewrite L. Qed.

Lemma find_app_None {A} (f : A -> bool) l x :
  find f l = None -> find f (l ++ [x]) = if f x then Some x else None.
Proof.
  induction l as [|a l IH]; cbn; [reflexivity|].
  destruct (f a); [discriminate | exact IH].
Qed.

Lemma existsb_false_find {A} (f : A -> bool) l :
  existsb f l = false -> find f l = None.
Proof.
  induction l as [|a l IH]; cbn; [reflexivity|].
  destruct (f a); [discriminate | exact IH].
Qed.

(** After a fresh booking, its line items name events of the new state. *)
Lemma fresh_items_exist env input db i :
  let details := validatedDetails db (items input) in
  forallb (fun i => existsb (fun e => String.eqb (e_id e) (i_event_id i))
                            (events (decrementedDb env details db)))
          (lineItems input) = true ->
  In i (lineItems input) ->
  forall now' (xs : list BookingItem) bs,
  findEvent (i_event_id i)
    (mkDb (applySeats i_quantity i_event_id now' xs
             (events (decrementedDb env details db))) bs) <> None.
Proof.
  cbn zeta. intros FA I now' xs bs.
  rewrite forallb_forall in FA. specialize (FA i I).
  apply existsb_find_event in FA.
  unfold findEvent. cbn [events]. rewrite find_applySeats.
  destruct (find _ _); [discriminate | congruence].
Qed.

(** C5 (amended). Under a non-empty idempotency key K: in every state that
    holds a booking under K, createBooking called with K returns that
    booking's id and current projection and leaves the database (the seats of
    every event, the bookings) as it is; hence of two create-requests in a
    row under K, the second returns the id returned by the first and the seats
    are decremented once. *)
Theorem createBooking_idempotent (K : string) :
  K <> "" -> idempotent_under K.
Proof.
  intros NE svc env input db con. split.
  - intros b F FK.
    rewrite (createBooking_replay svc env input (Some K) db con b)
      by now rewrite lookupExisting_key.
    assert (I : In b (bookings db)) by (apply find_some in F; tauto).
    destruct (toBookingResult_ok db b (FK b I)) as (r & -> & Hid & _).
    now exists r.
  - intros r1 H. cbn zeta. intros svc2 env2 input2 con2.
    destruct (lookupExisting (Some K) db) as [b|] eqn:L.
    + rewrite (createBooking_replay svc env input (Some K) db con b L) in *.
      unfold resultOf, dbOf in *. cbn [fst snd] in *.
      rewrite (createBooking_replay svc2 env2 input2 (Some K) db con2 b L).
      rewrite H. now exists r1.
    + destruct (createBooking_fresh_ok _ _ _ _ _ _ _ L H) as (_ & B & _ & R & ->).
      unfold dbOf. cbn [fst snd].
      apply bookingCreate_ok in B as (_ & _ & _ & _ & _ & FA).
      set (b := mkBooking (env_uuid env) (customerEmail input) CONFIRMED (env_now env)
                          (storedKey (Some K)) (lineItems input)) in *.
      set (db1 := mkDb _ (bookings db ++ [b])).
      assert (L1 : lookupExisting (Some K) db1 = Some b).
      { rewrite lookupExisting_key in * by exact NE.
        unfold findBookingByKey, db1. cbn [bookings].
        rewrite find_app_None by exact L.
        unfold key_is, b, storedKey, truthy. cbn [b_idempotency_key].
        apply String.eqb_neq in NE. rewrite NE. cbn. now rewrite String.eqb_refl. }
      rewrite (createBooking_replay svc2 env2 input2 (Some K) db1 con2 b L1).
      destruct (toBookingResult_ok db1 b) as (r2 & -> & Hid & _).
      { intros i I. unfold db1.
        pose proof (fresh_items_exist env input db i FA I 0 [] (bookings db ++ [b])) as X.
        exact X. }
      exists r2. split; [reflexivity|]. rewrite Hid, R. reflexivity.
Qed.

(** The request for the last seats of the Classical Concert, twice under
    the key "k1": the second call returns booking "b1" again. *)
Lemma createBooking_idempotent_witness :
  "k1" <> "" /\
  exists r2,
    createBooking consoleService (mkEnv "b2" 20) lastSeats (Some "k1") afterLastSeats [] =
    (Ok r2, afterLastSeats, []) /\
    r_id r2 = "b1".
Proof.
  split; [discriminate|].
  exact (proj2 (createBooking_idempotent "k1" ltac:(discriminate) consoleService
                  (mkEnv "b1" 10) lastSeats seed [])
               (mkResult "b1" "a@test.com" CONFIRMED 10
                  [mkResultItem (e_id classicalConcert) "Classical Concert" 2] 2)
               eq_refl consoleService (mkEnv "b2" 20) lastSeats []).
Defined.

(** C5 as stated fails for the empty key, which [if (idempotencyKey)] takes
    for no key at all: two create-requests in a row under it make two
    bookings and take the seats twice. *)
Lemma createBooking_idempotent_counterexample : ~ idempotent_under "".
Proof.
  intros H.
  destruct (H consoleService (mkEnv "b1" 10) oneJazzSeat seed []) as [_ H2].
  destruct (H2 _ eq_refl consoleService (mkEnv "b2" 20) oneJazzSeat []) as (r2 & E & Hid).
  vm_compute in E. injection E as <-. discriminate Hid.
Qed.

(** ** Reserve, then cancel *)

Lemma seatsDelta_restores db its eid :
  firstOffending db its = None ->
  seatsDelta (fun d => - d_requestedQuantity d) d_id (validatedDetails db its) eid +
  seatsDelta i_quantity i_event_id
    (map (fun item => mkBookingItem (eventId item) (quantity item)) its) eid = 0.
Proof.
  unfold firstOffending, seatsDelta.
  induction its as [|it rest IH]; [reflexivity|].
  cbn [find]. unfold offending at 1.
  change (validatedDetails db (it :: rest))
    with (match findEvent (eventId it) db with
          | Some ev => [mkDetail (e_id ev) (e_name ev) (e_available_seats ev) (quantity it)]
          | None => []
          end ++ validatedDetails db rest).
  destruct (findEvent (eventId it) db) as [ev|] eqn:E; [|discriminate].
  destruct (e_available_seats ev <? quantity it); [discriminate|].
  intros F. specialize (IH F).
  apply find_id_event in E.
  cbn [app map filter d_id i_event_id]. rewrite E.
  destruct (String.eqb eid (eventId it)); cbn [map fold_right d_requestedQuantity i_quantity]; lia.
Qed.

(** C6 (amended). For every state and every createBooking call that
    succeeds without being answered from the idempotency lookup, cancelling
    the booking it returned goes through, answers a projection of status
    CANCELLED, and leaves every event with exactly the available seats it had
    before the reservation. *)
Theorem reserve_then_cancel (svc : NotificationService) (env env2 : Env)
    (input : CreateBookingInput) (idempotencyKey : option string)
    (db : Db) (con : Console) (r : BookingResult) :
  lookupExisting idempotencyKey db = None ->
  resultOf (createBooking svc env input idempotencyKey db con) = Ok r ->
  round_trip db r
    (cancelBooking env2 (r_id r) (dbOf (createBooking svc env input idempotencyKey db con))).
Proof.
  intros L H.
  destruct (createBooking_fresh_ok _ _ _ _ _ _ _ L H) as (F & B & _ & R & ->).
  unfold dbOf. cbn [fst snd].
  apply bookingCreate_ok in B as (_ & _ & PK & _ & _ & FA).
  set (b := mkBooking (env_uuid env) (customerEmail input) CONFIRMED (env_now env)
                      (storedKey idempotencyKey) (lineItems input)) in *.
  set (db1 := mkDb _ (bookings db ++ [b])).
  assert (Rid : r_id r = env_uuid env) by now rewrite R.
  assert (FB : findBooking (r_id r) db1 = Some b).
  { unfold findBooking, db1. cbn [bookings]. rewrite Rid.
    rewrite find_app_None by now apply existsb_false_find.
    unfold b. cbn [b_id]. now rewrite String.eqb_refl. }
  pose proof (cancelBooking_confirmed env2 _ _ _ FB eq_refl) as C. cbn zeta in C.
  rewrite C. clear C. unfold round_trip. cbn [fst snd].
  set (b' := setStatus (r_id r) CANCELLED b).
  assert (Eb' : b' = mkBooking (env_uuid env) (customerEmail input) CANCELLED (env_now env)
                               (storedKey idempotencyKey) (lineItems input)).
  { unfold b', setStatus, b. cbn [b_id]. rewrite Rid, String.eqb_refl. reflexivity. }
  destruct (toBookingResult_ok (cancelledDb env2 (r_id r) b db1) b') as (r' & -> & Hid & Hst).
  { rewrite Eb'. cbn [b_items]. intros i I.
    exact (fresh_items_exist env input db i FA I (env_now env2) (lineItems input)
             (map (setStatus (r_id r) CANCELLED) (bookings db1))). }
  exists r'. rewrite Hid, Hst, Eb'. cbn [b_id b_status]. repeat split; [now rewrite Rid|].
  intros eid. unfold availableSeats, findEvent, cancelledDb, db1, decrementedDb.
  cbn [events b_items b]. rewrite !find_applySeats.
  destruct (find _ (events db)) as [e|]; [|reflexivity].
  cbn [option_map]. f_equal.
  rewrite !adjust_available, adjust_id.
  pose proof (seatsDelta_restores db (items input) (e_id e) F) as S.
  unfold lineItems. lia.
Qed.

(** On the seed data: the last seats of the Classical Concert are booked as
    "b1", then "b1" is cancelled. *)
Lemma reserve_then_cancel_witness :
  lookupExisting (Some "k1") seed = None /\
  round_trip seed
    (mkResult "b1" "a@test.com" CONFIRMED 10
       [mkResultItem (e_id classicalConcert) "Classical Concert" 2] 2)
    (cancelBooking (mkEnv "c1" 30) "b1" afterLastSeats).
Proof.
  split; [reflexivity|].
  exact (reserve_then_cancel consoleService (mkEnv "b1" 10) (mkEnv "c1" 30) lastSeats
           (Some "k1") seed [] _ eq_refl eq_refl).
Defined.

(** C6 as stated fails on a retry: sent again under its key once booking
    "b1" holds the two seats of the Classical Concert, the request succeeds
    without reserving; cancelling the booking it returns gives the event two
    available seats where the state before the call had none. *)
Lemma reserve_then_cancel_counterexample :
  exists r,
    resultOf (createBooking consoleService (mkEnv "b2" 20) lastSeats (Some "k1")
                            afterLastSeats []) = Ok r /\
    ~ round_trip afterLastSeats r
        (cancelBooking (mkEnv "c1" 30) (r_id r)
           (dbOf (createBooking consoleService (mkEnv "b2" 20) lastSeats (Some "k1")
                                afterLastSeats []))).
Proof.
  eexists. split; [reflexivity|].
  intros (r' & _ & _ & _ & S).
  specialize (S (e_id classicalConcert)). discriminate S.
Qed.

(** ** Notifications *)

Lemma notify_never_rejects svc n con e : fst (notify svc n con) <> Rejected e.
Proof.
  unfold notify. destruct (send (channel svc) n con) as [[[]|e'|] con']; discriminate.
Qed.

Lemma createBooking_channel_independent svc svc' env input key db con :
  resultOf (createBooking svc env input key db con) =
  resultOf (createBooking svc' env input key db con) /\
  dbOf (createBooking svc env input key db con) =
  dbOf (createBooking svc' env input key db con).
Proof.
  unfold createBooking, resultOf, dbOf.
  destruct (lookupExisting key db); [now split|].
  destruct (transaction _ db) as [[[booking details]|e] db']; [|now split].
  destruct (mapDetails details 0 (b_items booking)); now split.
Qed.

Lemma toBookingResult_id b its r : toBookingResult b its = Ok r -> r_id r = b_id b.
Proof.
  unfold toBookingResult. destruct (mapItems its); [|discriminate]. now intros [= <-].
Qed.

Lemma lookupExisting_In key db b : lookupExisting key db = Some b -> In b (bookings db).
Proof.
  unfold lookupExisting. destruct (truthy key); [|discriminate].
  destruct key as [k|]; [|discriminate].
  intros H. apply find_some in H. tauto.
Qed.

Lemma In_findBooking b db : In b (bookings db) -> findBooking (b_id b) db <> None.
Proof.
  intros I N. unfold findBooking in N. eapply find_none in N; eauto.
  cbn in N. now rewrite String.eqb_refl in N.
Qed.

(** C9. Whatever the notification channel does, notify never rejects: it
    fulfils whenever send settles, also when send throws (the error goes to
    the console, no further). The result createBooking returns and the
    database it leaves do not depend on the channel, and the booking a
    successful call returns is in the database after the call. *)
Theorem notification_failures_swallowed (svc : NotificationService) :
  (forall n con e, fst (notify svc n con) <> Rejected e) /\
  (forall n con, fst (send (channel svc) n con) <> Pending ->
                 fst (notify svc n con) = Fulfilled tt) /\
  (forall n con, fst (notify (mkNotificationService failingChannel) n con) = Fulfilled tt) /\
  (forall svc' env input key db con,
     resultOf (createBooking svc env input key db con) =
     resultOf (createBooking svc' env input key db con) /\
     dbOf (createBooking svc env input key db con) =
     dbOf (createBooking svc' env input key db con)) /\
  (forall env input key db con r,
     resultOf (createBooking svc env input key db con) = Ok r ->
     findBooking (r_id r) (dbOf (createBooking svc env input key db con)) <> None).
Proof.
  split; [|split; [|split; [|split]]].
  - intros n con e. apply notify_never_rejects.
  - intros n con. unfold notify.
    destruct (send (channel svc) n con) as [[[]|e'|] con']; cbn; congruence.
  - reflexivity.
  - intros. apply createBooking_channel_independent.
  - intros env input key db con r H.
    destruct (lookupExisting key db) as [b|] eqn:L.
    + rewrite (createBooking_replay svc env input key db con b L) in *.
      unfold resultOf, dbOf in *. cbn [fst snd] in *.
      apply toBookingResult_id in H. rewrite H.
      apply In_findBooking. now apply lookupExisting_In with key.
    + destruct (createBooking_fresh_ok _ _ _ _ _ _ _ L H) as (_ & _ & _ & R & ->).
      unfold dbOf. cbn [fst snd].
      set (b := mkBooking _ _ _ _ _ _).
      replace (r_id r) with (b_id b) by now rewrite R.
      apply In_findBooking. cbn [bookings]. apply in_or_app. right. now left.
Qed.

(** ** The schema *)

Lemma setSize_NoDup (l : list string) : setSize l = length l <-> NoDup l.
Proof.
  unfold setSize. split.
  - assert (LE : forall l : list string, (length (nodup string_dec l) <= length l)%nat).
    { intros l0. induction l0 as [|x l0 IH]; cbn; [lia|].
      destruct (in_dec string_dec x l0); cbn; lia. }
    induction l as [|x l IH]; cbn; [constructor|].
    destruct (in_dec string_dec x l) as [I|N]; cbn.
    + intros E. specialize (LE l). lia.
    + intros [= E]. constructor; [exact N | now apply IH].
  - intros N. now rewrite nodup_fixed_point.
Qed.

Section SchemaFacts.
Variables isEmail isUuid : string -> bool.

Lemma BookingItemSchema_spec item :
  BookingItemSchema isUuid item <> None <->
  isUuid (raw_eventId item) = true /\
  exists q, raw_quantity item = JsInteger q /\ 1 <= q <= 3.
Proof.
  unfold BookingItemSchema.
  destruct (isUuid (raw_eventId item)); [|split; [congruence | intros [[=] _]]].
  destruct (raw_quantity item) as [q|].
  - destruct (1 <=? q) eqn:A, (q <=? 3) eqn:B; cbn; split;
      try congruence; try (intros _; split; [reflexivity|]; exists q; split; [reflexivity|]; lia);
      intros (_ & q' & [= <-] & ? & ?); lia.
  - split; [congruence | intros (_ & q' & [=] & _)].
Qed.

Lemma BookingItemSchema_eventId item i :
  BookingItemSchema isUuid item = Some i -> eventId i = raw_eventId item.
Proof.
  unfold BookingItemSchema.
  destruct (isUuid _); [|discriminate].
  destruct (raw_quantity item) as [q|]; [|discriminate].
  destruct ((1 <=? q) && (q <=? 3)); [|discriminate].
  now intros [= <-].
Qed.

Lemma parseItems_spec l :
  match parseItems isUuid l with
  | Some its => map eventId its = map raw_eventId l /\
                Forall (fun item => BookingItemSchema isUuid item <> None) l
  | None => ~ Forall (fun item => BookingItemSchema isUuid item <> None) l
  end.
Proof.
  induction l as [|item rest IH]; cbn; [split; [reflexivity | constructor]|].
  destruct (BookingItemSchema isUuid item) as [i|] eqn:B.
  - destruct (parseItems isUuid rest) as [r|].
    + destruct IH as [E F]. split.
      * cbn. now rewrite E, (BookingItemSchema_eventId _ _ B).
      * constructor; [congruence | exact F].
    + intros F. inversion F; subst. contradiction.
  - intros F. inversion F; subst. contradiction.
Qed.

(** C8. CreateBookingSchema accepts a body exactly when its email is a
    valid email, its items are at least one and at most twenty, every item
    has a UUID for eventId and an integer in [1,3] for quantity, and no two
    items share an eventId; a body it rejects is answered 400 by the handler
    without the service being called: the database and the console are
    left as they were. *)
Theorem CreateBookingSchema_accepts (body : RawBody) :
  (CreateBookingSchema isEmail isUuid body <> None <-> acceptable isEmail isUuid body) /\
  (CreateBookingSchema isEmail isUuid body = None ->
   forall svc env header db con,
     postBookings isEmail isUuid svc env body header db con = (Reply400, db, con)).
Proof.
  split.
  - unfold CreateBookingSchema, acceptable.
    destruct (isEmail (raw_customerEmail body)); [|split; [congruence | intros [[=] _]]].
    pose proof (parseItems_spec (raw_items body)) as P.
    destruct (parseItems isUuid (raw_items body)) as [its|].
    + destruct P as [E F].
      assert (Len : length its = length (raw_items body)).
      { rewrite <- (length_map eventId its), E. apply length_map. }
      assert (F' : Forall (fun item => isUuid (raw_eventId item) = true /\
                             exists q, raw_quantity item = JsInteger q /\ 1 <= q <= 3)
                          (raw_items body)).
      { eapply Forall_impl; [|exact F]. intros item. apply BookingItemSchema_spec. }
      cbv zeta. rewrite Len, E.
      destruct (1 <=? length (raw_items body))%nat eqn:A;
        [|split; [cbn; congruence|]].
      2:{ intros (_ & NE & _). apply Nat.leb_gt in A.
          destruct (raw_items body); [contradiction | cbn in A; lia]. }
      destruct (length (raw_items body) <=? 20)%nat eqn:B;
        [|split; [cbn; congruence|]].
      2:{ intros (_ & _ & LE & _). apply Nat.leb_gt in B. lia. }
      cbn [andb]. rewrite length_map.
      destruct (setSize (map raw_eventId (raw_items body)) =? length (raw_items body))%nat eqn:S.
      * split; [|discriminate]. intros _.
        apply Nat.eqb_eq in S. rewrite <- (length_map raw_eventId) in S.
        apply setSize_NoDup in S. apply Nat.leb_le in A, B.
        repeat split; try assumption.
        intros N. rewrite N in A. cbn in A. lia.
      * split; [congruence|]. intros (_ & _ & _ & _ & N).
        apply setSize_NoDup in N. rewrite length_map in N.
        apply Nat.eqb_neq in S. contradiction.
    + split; [congruence|]. intros (_ & _ & _ & F & _). exfalso. apply P.
      eapply Forall_impl; [|exact F]. intros item. apply BookingItemSchema_spec.
  - intros N svc env header db con. unfold postBookings. now rewrite N.
Qed.

(** The schema tests of booking.test.ts. *)
Example schema_rejects_quantity_above_3 :
  CreateBookingSchema isEmail isUuid
    (mkRawBody "test@example.com"
       [mkRawItem "00000000-0000-0000-0000-000000000001" (JsInteger 4)]) = None.
Proof.
  unfold CreateBookingSchema, parseItems, BookingItemSchema. cbn.
  destruct (isEmail "test@example.com"); [|reflexivity].
  destruct (isUuid "00000000-0000-0000-0000-000000000001"); reflexivity.
Qed.

Example schema_rejects_quantity_below_1 :
  CreateBookingSchema isEmail isUuid
    (mkRawBody "test@example.com"
       [mkRawItem "00000000-0000-0000-0000-000000000001" (JsInteger 0)]) = None.
Proof.
  unfold CreateBookingSchema, parseItems, BookingItemSchema. cbn.
  destruct (isEmail "test@example.com"); [|reflexivity].
  destruct (isUuid "00000000-0000-0000-0000-000000000001"); reflexivity.
Qed.

Example schema_rejects_duplicate_eventIds :
  CreateBookingSchema isEmail isUuid
    (mkRawBody "test@example.com"
       [mkRawItem "00000000-0000-0000-0000-000000000001" (JsInteger 1);
        mkRawItem "00000000-0000-0000-0000-000000000001" (JsInteger 2)]) = None.
Proof.
  unfold CreateBookingSchema, parseItems, BookingItemSchema. cbn.
  destruct (isEmail "test@example.com"); [|reflexivity].
  destruct (isUuid "00000000-0000-0000-0000-000000000001"); reflexivity.
Qed.

Example schema_rejects_empty_items :
  CreateBookingSchema isEmail isUuid (mkRawBody "test@example.com" []) = None.
Proof.
  unfold CreateBookingSchema. cbn. now destruct (isEmail _).
Qed.

Example schema_rejects_invalid_email :
  isEmail "not-an-email" = false ->
  CreateBookingSchema isEmail isUuid
    (mkRawBody "not-an-email"
       [mkRawItem "00000000-0000-0000-0000-000000000001" (JsInteger 1)]) = None.
Proof.
  intros E. unfold CreateBookingSchema. cbn. now rewrite E.
Qed.

Example schema_accepts_multi_event :
  isEmail "test@example.com" = true ->
  isUuid "00000000-0000-0000-0000-000000000001" = true ->
  isUuid "00000000-0000-0000-0000-000000000002" = true ->
  CreateBookingSchema isEmail isUuid
    (mkRawBody "test@example.com"
       [mkRawItem "00000000-0000-0000-0000-000000000001" (JsInteger 3);
        mkRawItem "00000000-0000-0000-0000-000000000002" (JsInteger 1)]) =
  Some (mkInput "test@example.com"
          [mkItemInput "00000000-0000-0000-0000-000000000001" 3;
           mkItemInput "00000000-0000-0000-0000-000000000002" 1]).
Proof.
  intros E U1 U2. unfold CreateBookingSchema, parseItems, BookingItemSchema. cbn.
  now rewrite E, U1, U2.
Qed.
End SchemaFacts.

(** ** The seat invariant along a run *)

Lemma seatsDelta_nonneg (its : list BookingItem) eid :
  (forall i, In i its -> 0 <= i_quantity i) ->
  0 <= seatsDelta i_quantity i_event_id its eid.
Proof.
  unfold seatsDelta. induction its as [|i rest IH]; intros H; cbn; [lia|].
  assert (0 <= i_quantity i) by (apply H; now left).
  assert (0 <= fold_right Z.add 0
                  (map i_quantity (filter (fun x => String.eqb eid (i_event_id x)) rest)))
    by (apply IH; intros; apply H; now right).
  destruct (String.eqb eid (i_event_id i)); cbn; lia.
Qed.

Lemma holds_In T b : holds T b = true -> In (b_id b) T.
Proof.
  unfold holds. intros H. apply andb_prop in H as [H _].
  apply existsb_exists in H as (x & I & E). apply String.eqb_eq in E. now subst.
Qed.

Lemma heldBy_nonneg T bs eid :
  (forall b, In b bs -> In (b_id b) T -> forall i, In i (b_items b) -> 0 <= i_quantity i) ->
  0 <= heldBy T bs eid.
Proof.
  unfold heldBy. induction bs as [|b rest IH]; intros H; cbn; [lia|].
  assert (0 <= fold_right Z.add 0
            (map (fun b => if holds T b
                           then seatsDelta i_quantity i_event_id (b_items b) eid else 0) rest))
    by (apply IH; intros b' I; apply H; now right).
  destruct (holds T b) eqn:Hb; [|lia].
  assert (0 <= seatsDelta i_quantity i_event_id (b_items b) eid).
  { apply seatsDelta_nonneg. apply (H b); [now left | now apply holds_In]. }
  lia.
Qed.

Lemma recorded_seats_invariant T db : recorded T db -> seats_invariant db.
Proof.
  intros [N R] e I. destruct (R e I) as [A B].
  pose proof (heldBy_nonneg T (bookings db) (e_id e) N). unfold held in B. lia.
Qed.

Lemma setStatus_id id s b : b_id (setStatus id s b) = b_id b.
Proof. unfold setStatus. now destruct (String.eqb (b_id b) id). Qed.

Lemma setStatus_items id s b : b_items (setStatus id s b) = b_items b.
Proof. unfold setStatus. now destruct (String.eqb (b_id b) id). Qed.

(** Cancelling never raises what is held. *)
Lemma heldBy_cancel_le T id bs eid :
  (forall b, In b bs -> In (b_id b) T -> forall i, In i (b_items b) -> 0 <= i_quantity i) ->
  heldBy T (map (setStatus id CANCELLED) bs) eid <= heldBy T bs eid.
Proof.
  unfold heldBy. induction bs as [|b rest IH]; intros H; cbn; [lia|].
  assert (IH' := IH (fun b' I => H b' (or_intror I))).
  unfold holds at 1. rewrite setStatus_id, setStatus_items.
  unfold setStatus at 1.
  destruct (String.eqb (b_id b) id) eqn:E; cbn [b_status].
  - rewrite andb_false_r.
    destruct (holds T b) eqn:Hb; [|lia].
    assert (0 <= seatsDelta i_quantity i_event_id (b_items b) eid).
    { apply seatsDelta_nonneg. apply (H b); [now left | now apply holds_In]. }
    lia.
  - fold (holds T b). destruct (holds T b); lia.
Qed.

(** Cancelling the booking found under an id releases at least its seats. *)
Lemma heldBy_cancel T id bs b eid :
  (forall b, In b bs -> In (b_id b) T -> forall i, In i (b_items b) -> 0 <= i_quantity i) ->
  find (fun b => String.eqb (b_id b) id) bs = Some b ->
  b_status b = CONFIRMED -> In id T ->
  heldBy T (map (setStatus id CANCELLED) bs) eid +
  seatsDelta i_quantity i_event_id (b_items b) eid <= heldBy T bs eid.
Proof.
  intros H F S I. revert H F.
  induction bs as [|x rest IH]; intros H F; cbn in F; [discriminate|].
  assert (H' := fun b' I' => H b' (or_intror I')).
  destruct (String.eqb (b_id x) id) eqn:E.
  - injection F as ->.
    pose proof (heldBy_cancel_le T id rest eid H') as LE.
    unfold heldBy in *. cbn [map fold_right].
    unfold holds at 1. rewrite setStatus_id, setStatus_items.
    unfold setStatus at 1. rewrite E. cbn [b_status]. rewrite andb_false_r.
    assert (Hb : holds T b = true).
    { unfold holds. rewrite S. cbn. rewrite andb_true_r.
      apply existsb_exists. exists id. split; [exact I | exact E]. }
    rewrite Hb. lia.
  - specialize (IH H' F).
    unfold heldBy in *. cbn [map fold_right].
    unfold holds at 1. rewrite setStatus_id, setStatus_items.
    unfold setStatus at 1. rewrite E. fold (holds T x).
    destruct (holds T x); lia.
Qed.

(** A fresh id joins the recorded set without changing what is held. *)
Lemma heldBy_fresh T uuid bs eid :
  existsb (fun b => String.eqb (b_id b) uuid) bs = false ->
  heldBy (uuid :: T) bs eid = heldBy T bs eid.
Proof.
  unfold heldBy. induction bs as [|b rest IH]; cbn; [reflexivity|].
  intros H. apply orb_false_elim in H as [E H]. rewrite (IH H).
  unfold holds. cbn [existsb]. now rewrite E.
Qed.

Lemma heldBy_app T bs b eid :
  heldBy T (bs ++ [b]) eid =
  heldBy T bs eid + (if holds T b then seatsDelta i_quantity i_event_id (b_items b) eid else 0).
Proof.
  unfold heldBy. induction bs as [|x rest IH]; cbn; [lia|]. rewrite IH. lia.
Qed.

(** Under the primary key of "events", the row found by id is the row. *)
Lemma find_NoDup_event (evs : list Event) e :
  NoDup (map e_id evs) -> In e evs ->
  find (fun x => String.eqb (e_id x) (e_id e)) evs = Some e.
Proof.
  induction evs as [|x rest IH]; cbn; [contradiction|].
  intros N I. inversion N as [|? ? NI N']; subst.
  destruct I as [->|I].
  - now rewrite String.eqb_refl.
  - destruct (String.eqb (e_id x) (e_id e)) eqn:E; [|now apply IH].
    apply String.eqb_eq in E. exfalso. apply NI. rewrite E. now apply in_map.
Qed.

(** With no event listed twice, an event is asked at most one quantity. *)
Lemma seatsDelta_NoDup (its : list BookingItemInput) eid :
  NoDup (map eventId its) ->
  seatsDelta i_quantity i_event_id
    (map (fun item => mkBookingItem (eventId item) (quantity item)) its) eid =
  match find (fun item => String.eqb eid (eventId item)) its with
  | Some item => quantity item
  | None => 0
  end.
Proof.
  unfold seatsDelta. induction its as [|it rest IH]; cbn; [reflexivity|].
  intros N. inversion N as [|? ? NI N']; subst. specialize (IH N').
  destruct (String.eqb eid (eventId it)) eqn:E; [|exact IH].
  cbn. rewrite IH. apply String.eqb_eq in E. subst eid.
  destruct (find _ rest) as [it'|] eqn:F; [|lia].
  apply find_some in F as [I E]. apply String.eqb_eq in E.
  exfalso. apply NI. rewrite E. now apply in_map.
Qed.

(** What phase 1 has checked of the seats asked of one event. *)
Lemma asked_within_available db its e :
  NoDup (map e_id (events db)) -> NoDup (map eventId its) ->
  Forall (fun item => 1 <= quantity item <= 3) its ->
  firstOffending db its = None -> In e (events db) ->
  0 <= e_available_seats e ->
  0 <= seatsDelta i_quantity i_event_id
         (map (fun item => mkBookingItem (eventId item) (quantity item)) its) (e_id e)
    <= e_available_seats e.
Proof.
  intros NE NI Q F I A. rewrite (seatsDelta_NoDup its (e_id e) NI).
  destruct (find _ its) as [it|] eqn:Fi; [|lia].
  apply find_some in Fi as [Ii E]. apply String.eqb_eq in E.
  unfold firstOffending in F. eapply find_none in F; eauto.
  unfold offending, findEvent in F. rewrite <- E in F.
  rewrite (find_NoDup_event _ _ NE I) in F. apply Z.ltb_ge in F.
  rewrite Forall_forall in Q. specialize (Q it Ii). lia.
Qed.

Lemma createBooking_fresh_throw svc env input key db con e :
  lookupExisting key db = None ->
  resultOf (createBooking svc env input key db con) = Throw e ->
  dbOf (createBooking svc env input key db con) = db.
Proof.
  intros L. unfold createBooking, resultOf, dbOf, transaction. rewrite L.
  destruct (firstOffending db (items input)) as [item|] eqn:F.
  - now rewrite (createBookingTx_offending _ _ _ _ _ F).
  - pose proof (createBookingTx_passes env input key db F) as P. cbn zeta in P.
    rewrite P. clear P.
    destruct (bookingCreate _ _ _ _ _) as [[b|e'] db'] eqn:B; [|reflexivity].
    apply bookingCreate_ok in B as (-> & -> & _). cbn [b_items].
    destruct (mapDetails_validated db (items input) [] F) as (ris & M & _).
    cbn [length app] in M. unfold lineItems. rewrite M. discriminate.
Qed.

Lemma map_id_applySeats {A} (delta : A -> Z) (id : A -> string) now xs evs :
  map e_id (applySeats delta id now xs evs) = map e_id evs.
Proof.
  rewrite applySeats_adjust, map_map. apply map_ext. intros e. apply adjust_id.
Qed.

Lemma In_applySeats {A} (delta : A -> Z) (id : A -> string) now xs evs e' :
  In e' (applySeats delta id now xs evs) ->
  exists e, In e evs /\ e' = adjust delta id now xs e.
Proof.
  rewrite applySeats_adjust. intros I. apply in_map_iff in I as (e & <- & I). eauto.
Qed.

(** A cancellation of a recorded booking keeps the ledger recorded. *)
Lemma cancelBooking_recorded T env id db :
  NoDup (map e_id (events db)) -> recorded T db -> In id T ->
  NoDup (map e_id (events (snd (cancelBooking env id db)))) /\
  recorded T (snd (cancelBooking env id db)).
Proof.
  intros NE [N R] I.
  destruct (findBooking id db) as [b|] eqn:F.
  2:{ rewrite (cancelBooking_absent env _ _ F). cbn [snd]. split; [exact NE | split; [exact N | exact R]]. }
  destruct (b_status b) eqn:S.
  2:{ rewrite (cancelBooking_cancelled env _ _ _ F S). cbn [snd]. split; [exact NE | split; [exact N | exact R]]. }
  pose proof (cancelBooking_confirmed env _ _ _ F S) as C. cbn zeta in C.
  rewrite C. clear C. cbn [snd]. unfold cancelledDb. cbn [events bookings].
  split; [now rewrite map_id_applySeats|].
  split.
  - cbn [bookings]. intros b' Ib. apply in_map_iff in Ib as (b0 & <- & Ib).
    rewrite setStatus_id, setStatus_items. now apply N.
  - cbn [events]. intros e' Ie. apply In_applySeats in Ie as (e & Ie & ->).
    rewrite adjust_available, adjust_id, adjust_total.
    destruct (R e Ie) as [A B].
    assert (Nb : forall i, In i (b_items b) -> 0 <= i_quantity i).
    { unfold findBooking in F. pose proof (find_id_eq _ _ _ F) as Eb.
      apply find_some in F as [Ib _]. apply (N b Ib). now rewrite Eb. }
    pose proof (seatsDelta_nonneg (b_items b) (e_id e) Nb).
    pose proof (heldBy_cancel T id (bookings db) b (e_id e) N F S I).
    unfold held in *. cbn [bookings]. lia.
Qed.

(** A create-request within the schema preconditions keeps the ledger
    recorded, the booking it makes joining the recorded ones. *)
Lemma createBooking_recorded T svc env input key db con :
  NoDup (map e_id (events db)) -> recorded T db -> schema_preconditions input ->
  let req := CreateBooking svc env input key in
  NoDup (map e_id (events (fst (serve req (db, con))))) /\
  recorded (recordedAfter T req (db, con)) (fst (serve req (db, con))).
Proof.
  intros NE [N R] [Q ND]. cbn [serve recordedAfter fst snd].
  destruct (lookupExisting key db) as [b|] eqn:L.
  { rewrite (createBooking_replay svc env input key db con b L).
    unfold dbOf. cbn [fst snd]. split; [exact NE | split; [exact N | exact R]]. }
  destruct (resultOf (createBooking svc env input key db con)) as [r|e] eqn:H.
  2:{ rewrite (createBooking_fresh_throw _ _ _ _ _ _ _ L H).
      split; [exact NE | split; [exact N | exact R]]. }
  destruct (createBooking_fresh_ok _ _ _ _ _ _ _ L H) as (F & B & _ & Rr & ->).
  unfold dbOf. cbn [fst snd].
  apply bookingCreate_ok in B as (_ & _ & PK & _).
  cbn [bookings decrementedDb] in PK.
  assert (Rid : r_id r = env_uuid env) by now rewrite Rr.
  rewrite Rid.
  set (b := mkBooking (env_uuid env) (customerEmail input) CONFIRMED (env_now env)
                      (storedKey key) (lineItems input)).
  unfold decrementedDb. cbn [events bookings].
  split; [now rewrite map_id_applySeats|].
  split.
  - cbn [bookings]. intros b' Ib IT i Ii.
    apply in_app_or in Ib as [Ib|[<-|[]]].
    + destruct IT as [E|IT]; [|now apply (N b' Ib IT)].
      exfalso. apply existsb_false_find in PK.
      apply (find_none _ _ PK) in Ib. cbn in Ib.
      rewrite <- E, String.eqb_refl in Ib. discriminate.
    + cbn [b b_items] in Ii. unfold lineItems in Ii.
      apply in_map_iff in Ii as (item & <- & Ii). cbn.
      rewrite Forall_forall in Q. specialize (Q item Ii). lia.
  - cbn [events]. intros e' Ie. apply In_applySeats in Ie as (e & Ie & ->).
    rewrite adjust_available, adjust_id, adjust_total.
    destruct (R e Ie) as [A Bd].
    pose proof (seatsDelta_restores db (items input) (e_id e) F) as S.
    pose proof (asked_within_available db (items input) e NE ND Q F Ie A) as W.
    unfold held in *. cbn [bookings].
    rewrite heldBy_app, heldBy_fresh by exact PK.
    assert (Hb : holds (env_uuid env :: T) b = true).
    { unfold holds, b. cbn. now rewrite String.eqb_refl. }
    rewrite Hb. cbn [b b_items]. unfold lineItems. lia.
Qed.

(** C1. From a database in which the ids of "events" are unique and the
    ledger accounts for a set T of bookings (0 <= availableSeats, and
    availableSeats plus the seats held by the CONFIRMED bookings of T within
    totalSeats; with T empty this is the invariant itself), every run of
    createBooking and cancelBooking requests whose create inputs are within
    the schema preconditions and whose cancellations target recorded bookings
    (those of T or made earlier in the run) satisfies
    0 <= availableSeats <= totalSeats for every event at every observable
    point. *)
Theorem seats_invariant_preserved (T : list string) (reqs : list Request)
    (db : Db) (con : Console) :
  NoDup (map e_id (events db)) ->
  recorded T db ->
  admissible T reqs (db, con) ->
  Forall seats_invariant (observable reqs (db, con)).
Proof.
  revert T db con.
  induction reqs as [|req rest IH]; intros T db con NE R A; cbn [observable fst].
  - constructor; [now apply recorded_seats_invariant with T | constructor].
  - constructor; [now apply recorded_seats_invariant with T|].
    destruct A as [Ok A].
    destruct (serve req (db, con)) as [db' con'] eqn:S.
    apply (IH (recordedAfter T req (db, con))); [| |exact A].
    + destruct req as [svc env input key|env id].
      * pose proof (createBooking_recorded T svc env input key db con NE R Ok) as P.
        cbn zeta in P. rewrite S in P. apply P.
      * pose proof (cancelBooking_recorded T env id db NE R Ok) as P.
        cbn [serve fst snd] in S. injection S as <- <-. apply P.
    + destruct req as [svc env input key|env id].
      * pose proof (createBooking_recorded T svc env input key db con NE R Ok) as P.
        cbn zeta in P. rewrite S in P. apply P.
      * pose proof (cancelBooking_recorded T env id db NE R Ok) as P.
        cbn [serve fst snd] in S. injection S as <- <-. apply P.
Qed.

Lemma seed_events_unique : NoDup (map e_id (events seed)).
Proof.
  cbn. repeat constructor; cbn; intuition discriminate.
Qed.

(** With no booking recorded, the ledger accounts for what it shows: the
    start condition is the invariant itself. *)
Lemma recorded_nil db : seats_invariant db <-> recorded [] db.
Proof.
  assert (H0 : forall bs eid, heldBy [] bs eid = 0).
  { intros bs eid. induction bs as [|b bs IH]; [reflexivity|].
    unfold heldBy in *. cbn [map fold_right]. rewrite IH. reflexivity. }
  split.
  - intros H. split; [intros b _ []|].
    intros e I. unfold held. rewrite H0. specialize (H e I). lia.
  - apply recorded_seats_invariant.
Qed.

Lemma seed_invariant : seats_invariant seed.
Proof.
  intros e I. cbn in I.
  repeat destruct I as [<-|I]; try easy; cbn; lia.
Qed.

Lemma sampleRun_admissible : admissible [] sampleRun (seed, []).
Proof.
  cbn.
  repeat match goal with |- _ /\ _ => split end;
    try exact I; try (cbn; tauto);
    (split; [repeat constructor; cbn; lia | repeat constructor; cbn; tauto]).
Qed.

(** The sample run on the seed data, no booking being recorded at the start. *)
Lemma seats_invariant_preserved_witness :
  Forall seats_invariant (observable sampleRun (seed, [])).
Proof.
  exact (seats_invariant_preserved [] sampleRun seed []
           seed_events_unique (proj1 (recorded_nil seed) seed_invariant)
           sampleRun_admissible).
Defined.

(** ** Concurrent units: lists of units *)

Lemma nth_error_setNth {A} (l : list A) : forall i j x,
  nth_error (setNth i x l) j =
  if Nat.eqb j i then match nth_error l i with Some _ => Some x | None => None end
  else nth_error l j.
Proof.
  induction l as [|y rest IH]; intros i j x; cbn.
  - destruct (Nat.eqb j i); destruct j, i; reflexivity.
  - destruct i as [|i], j as [|j]; cbn; try reflexivity. apply IH.
Qed.

Lemma length_setNth {A} (l : list A) : forall i x, length (setNth i x l) = length l.
Proof.
  induction l as [|y rest IH]; intros i x; cbn; [reflexivity|].
  destruct i; cbn; [reflexivity | now rewrite IH].
Qed.

Lemma map_setNth {A B} (f : A -> B) (l : list A) : forall i x y,
  nth_error l i = Some y -> f x = f y -> map f (setNth i x l) = map f l.
Proof.
  induction l as [|z rest IH]; intros i x y H E.
  - destruct i; discriminate.
  - destruct i as [|i]; cbn in *.
    + injection H as ->. now rewrite E.
    + f_equal. now apply IH with y.
Qed.

Lemma othersLocks_nil (us : list Unit) : forall i,
  (forall j v, j <> i -> nth_error us j = Some v -> u_locks v = []) ->
  othersLocks i us = [].
Proof.
  induction us as [|u rest IH]; intros i H; cbn; [reflexivity|].
  destruct i as [|i].
  - clear IH. assert (G : forall j v, nth_error rest j = Some v -> u_locks v = []).
    { intros j v E. apply (H (S j) v); [discriminate | exact E]. }
    clear H. induction rest as [|w rest IH]; cbn; [reflexivity|].
    rewrite (G 0%nat w eq_refl). cbn. apply IH. intros j v E. apply (G (S j) v E).
  - rewrite (H 0%nat u); [|discriminate | reflexivity]. cbn. apply IH.
    intros j v N E. apply (H (S j) v); [congruence | exact E].
Qed.

Lemma othersLocks_In (us : list Unit) : forall i j v id,
  j <> i -> nth_error us j = Some v -> In id (u_locks v) -> In id (othersLocks i us).
Proof.
  induction us as [|u rest IH]; intros i j v id N E I.
  - destruct j; discriminate.
  - destruct i as [|i], j as [|j]; cbn in *.
    + contradiction.
    + apply in_flat_map. exists v. split; [now apply nth_error_In with j | exact I].
    + injection E as ->. apply in_or_app. now left.
    + apply in_or_app. right. apply (IH i j v id); [congruence | exact E | exact I].
Qed.

Lemma free_alone i us id :
  (forall j v, j <> i -> nth_error us j = Some v -> u_locks v = []) ->
  free i us id = true.
Proof. intros H. unfold free. now rewrite (othersLocks_nil us i H). Qed.

Lemma free_taken i us j v id :
  j <> i -> nth_error us j = Some v -> In id (u_locks v) -> free i us id = false.
Proof.
  intros N E I. unfold free. apply negb_false_iff. apply existsb_exists.
  exists id. split; [now apply othersLocks_In with j v | apply String.eqb_refl].
Qed.

Lemma serial_snoc reqs : forall db req rs db',
  serial reqs db = (rs, db') ->
  serial (reqs ++ [req]) db =
  (rs ++ [resultOf (createBooking consoleService (fst req) (snd req) None db' [])],
   dbOf (createBooking consoleService (fst req) (snd req) None db' [])).
Proof.
  induction reqs as [|x rest IH]; intros db req rs db'; cbn.
  - now intros [= <- <-].
  - destruct (serial rest _) as [rs0 db0] eqn:S. intros [= <- <-].
    now rewrite (IH _ req _ _ S).
Qed.

(** ** Concurrent units: one unit against the serial call *)

Section SingleItem.
Variables (env : Env) (input : CreateBookingInput) (e : string) (q : Z).
Variables (db : Db) (ev : Event) (others : list Event).
Hypothesis Hitems : items input = [mkItemInput e q].
Hypothesis Hrows : filter (fun x => String.eqb (e_id x) e) (events db) = ev :: others.

Lemma single_validated :
  lockAndValidate (items input) [] db =
  if e_available_seats ev <? q
  then (Throw (InsufficientSeatsError e q (e_available_seats ev)), db)
  else (Ok [detailOf ev q], db).
Proof.
  rewrite Hitems. cbn. unfold bind, selectEventForUpdate. cbn. rewrite Hrows.
  now destruct (e_available_seats ev <? q).
Qed.

Lemma single_transaction :
  transaction (createBookingTx env input None) db =
  if e_available_seats ev <? q
  then (Throw (InsufficientSeatsError e q (e_available_seats ev)), db)
  else match bookingCreate env (customerEmail input) None (lineItems input)
                           (decrementedDb env [detailOf ev q] db) with
       | (Ok booking, db') => (Ok (booking, [detailOf ev q]), db')
       | (Throw err, _) => (Throw err, db)
       end.
Proof.
  unfold transaction, createBookingTx. unfold bind at 1. rewrite single_validated.
  destruct (e_available_seats ev <? q); [reflexivity|].
  unfold bind at 1. rewrite forEach_updateSeats. unfold bind, ret.
  fold (decrementedDb env [detailOf ev q] db). fold (lineItems input).
  now destruct (bookingCreate _ _ _ _ _) as [[b|e'] db'].
Qed.

Lemma single_short :
  (e_available_seats ev <? q) = true ->
  resultOf (createBooking consoleService env input None db []) =
  Throw (InsufficientSeatsError e q (e_available_seats ev)) /\
  dbOf (createBooking consoleService env input None db []) = db.
Proof.
  intros L. unfold createBooking. cbn [lookupExisting truthy].
  rewrite single_transaction, L. now split.
Qed.

Lemma single_failed err :
  (e_available_seats ev <? q) = false ->
  fst (bookingCreate env (customerEmail input) None (lineItems input)
                     (decrementedDb env [detailOf ev q] db)) = Throw err ->
  resultOf (createBooking consoleService env input None db []) = Throw err /\
  dbOf (createBooking consoleService env input None db []) = db.
Proof.
  intros L B. unfold createBooking. cbn [lookupExisting truthy].
  rewrite single_transaction, L.
  destruct (bookingCreate _ _ _ _ _) as [[b|e'] db']; cbn in B; [discriminate|].
  injection B as ->. now split.
Qed.

Lemma single_created booking db' :
  (e_available_seats ev <? q) = false ->
  bookingCreate env (customerEmail input) None (lineItems input)
                (decrementedDb env [detailOf ev q] db) = (Ok booking, db') ->
  resultOf (createBooking consoleService env input None db []) =
  match mapDetails [detailOf ev q] 0 (b_items booking) with
  | Ok ris =>
      Ok (mkResult (b_id booking) (b_customer_email booking) (b_status booking)
                   (b_created_at booking) ris (totalQuantity (b_items booking)))
  | Throw e' => Throw e'
  end /\
  dbOf (createBooking consoleService env input None db []) = db'.
Proof.
  intros L B. unfold createBooking. cbn [lookupExisting truthy].
  rewrite single_transaction, L, B.
  now destruct (mapDetails [detailOf ev q] 0 (b_items booking)).
Qed.
End SingleItem.

Lemma rows_id e evs ev rest :
  filter (fun x => String.eqb (e_id x) e) evs = ev :: rest -> e_id ev = e.
Proof.
  intros H. assert (I : In ev (filter (fun x => String.eqb (e_id x) e) evs))
    by (rewrite H; now left).
  apply filter_In in I as [_ E]. now apply String.eqb_eq.
Qed.

(** A unit that has not started takes the lock of its event when it is
    free, and waits otherwise. *)
Lemma stepUnit_idle isFree db u e q ev rest :
  Idle u -> items (u_input u) = [mkItemInput e q] ->
  filter (fun x => String.eqb (e_id x) e) (events db) = ev :: rest ->
  (isFree e = false -> stepUnit isFree db u = None) /\
  (isFree e = true ->
   exists u', stepUnit isFree db u = Some (db, u', true) /\
              requestOf u' = requestOf u /\ Active e db u').
Proof.
  intros (P & L & W) I R. unfold stepUnit. rewrite P, I.
  unfold selectEventForUpdate. cbn [fst eventId quantity]. rewrite R.
  split; intros F; rewrite F; [reflexivity|].
  eexists. split; [reflexivity|]. split; [reflexivity|].
  exists ev, rest, q. cbn [events u_input u_locks u_pc u_writes u_env].
  repeat split; [exact R | exact I | now left |].
  rewrite W. destruct (e_available_seats ev <? q) eqn:C.
  - now apply active_short.
  - now apply active_validated.
Qed.

(** The unit that holds the lock advances whatever the others do, without
    changing the committed database until it returns; it returns what the
    serial call returns on the committed database, and leaves what that call
    leaves. *)
Lemma stepUnit_active isFree db u e :
  Active e db u -> isFree e = true ->
  exists db' u',
    stepUnit isFree db u = Some (db', u', false) /\
    requestOf u' = requestOf u /\
    ((db' = db /\ Active e db u') \/
     (exists r, u_pc u' = Returned r /\ u_locks u' = [] /\ u_writes u' = [] /\
                r = resultOf (createBooking consoleService (u_env u) (u_input u) None db []) /\
                db' = dbOf (createBooking consoleService (u_env u) (u_input u) None db []))).
Proof.
  intros (ev & rest & q & R & I & L & A) F.
  pose proof (rows_id _ _ _ _ R) as Eid.
  unfold stepUnit.
  inversion A as [C|C|C|C|C|err C B];
    repeat match goal with
           | H : _ = u_pc u |- _ => rewrite <- H; clear H
           | H : _ = u_writes u |- _ => symmetry in H
           end.
  - eexists _, _. split; [reflexivity|]. split; [reflexivity|]. right.
    eexists. cbn. repeat split.
    + symmetry. now apply (single_short _ _ _ _ _ _ _ I R C).
    + symmetry. now apply (single_short _ _ _ _ _ _ _ I R C).
  - eexists _, _. split; [reflexivity|]. split; [reflexivity|]. left.
    split; [reflexivity|]. exists ev, rest, q. cbn. repeat split; try assumption.
    now apply active_decrementing.
  - cbn [d_id detailOf]. rewrite Eid, F.
    eexists _, _. split; [reflexivity|]. split; [reflexivity|]. left.
    split; [reflexivity|]. exists ev, rest, q. cbn. repeat split; try assumption.
    + now left.
    + now apply active_decremented.
  - eexists _, _. split; [reflexivity|]. split; [reflexivity|]. left.
    split; [reflexivity|]. exists ev, rest, q. cbn. repeat split; try assumption.
    now apply active_creating.
  - unfold view.
    match goal with H : u_writes u = _ |- _ => rewrite H end.
    destruct (bookingCreate _ _ _ _ _) as [[b|err] db'] eqn:B.
    + eexists _, _. split; [reflexivity|]. split; [reflexivity|]. right.
      eexists. cbn. repeat split.
      * symmetry. now apply (single_created _ _ _ _ _ _ _ I R b db' C B).
      * symmetry. now apply (single_created _ _ _ _ _ _ _ I R b db' C B).
    + eexists _, _. split; [reflexivity|]. split; [reflexivity|]. left.
      split; [reflexivity|]. exists ev, rest, q. cbn. repeat split; try assumption.
      apply active_failed; [exact C | now rewrite B].
  - eexists _, _. split; [reflexivity|]. split; [reflexivity|]. right.
    eexists. cbn. repeat split.
    + symmetry. now apply (single_failed _ _ _ _ _ _ _ I R err C B).
    + symmetry. now apply (single_failed _ _ _ _ _ _ _ I R err C B).
Qed.

(** ** Concurrent units: the invariant of the runs on one event *)

Lemma Forall2_In_l {A B} (P : A -> B -> Prop) l r x :
  Forall2 P l r -> In x l -> exists y, P x y.
Proof.
  induction 1 as [|a b l r H F IH]; intros I; [contradiction|].
  destruct I as [->|I]; eauto.
Qed.

Lemma Forall2_impl_In {A B} (P Q : A -> B -> Prop) l r :
  Forall2 P l r -> (forall x y, In x l -> P x y -> Q x y) -> Forall2 Q l r.
Proof.
  induction 1 as [|a b l r H F IH]; intros G; constructor.
  - apply G; [now left | exact H].
  - apply IH. intros x y I. apply G. now right.
Qed.

Lemma rows_same_ids e (evs evs' : list Event) :
  map e_id evs = map e_id evs' ->
  filter (fun x => String.eqb (e_id x) e) evs <> [] ->
  filter (fun x => String.eqb (e_id x) e) evs' <> [].
Proof.
  revert evs'. induction evs as [|x evs IH]; intros [|y evs'] E; cbn in *;
    try discriminate; try tauto.
  injection E as E1 E2. rewrite <- E1.
  destruct (String.eqb (e_id x) e); [discriminate | now apply IH].
Qed.

(** createBooking never changes which events exist. *)
Lemma createBooking_event_ids svc env input key db con :
  map e_id (events (dbOf (createBooking svc env input key db con))) = map e_id (events db).
Proof.
  destruct (lookupExisting key db) as [b|] eqn:L.
  - now rewrite (createBooking_replay svc env input key db con b L).
  - destruct (resultOf (createBooking svc env input key db con)) as [r|err] eqn:H.
    + destruct (createBooking_fresh_ok _ _ _ _ _ _ _ L H) as (_ & _ & _ & _ & ->).
      unfold dbOf, decrementedDb. cbn [fst snd events]. apply map_id_applySeats.
    + now rewrite (createBooking_fresh_throw _ _ _ _ _ _ _ L H).
Qed.

Lemma nth_requestOf us i u :
  nth_error us i = Some u -> nth i (map requestOf us) noRequest = requestOf u.
Proof.
  intros H. apply nth_error_nth. now rewrite nth_error_map, H.
Qed.

Lemma returned_dec (u : Unit) : {returned u <> None} + {~ returned u <> None}.
Proof.
  destruct (returned u) as [r|]; [left; discriminate | right; tauto].
Qed.

Section OneEvent.
Variables (e : string) (db0 : Db) (reqs : list (Env * CreateBookingInput)).
Hypothesis Hasks : forall req, In req reqs -> exists q, asks e req q.

Lemma initial_serialized :
  filter (fun x => String.eqb (e_id x) e) (events db0) <> [] ->
  Serialized e db0 reqs (initial db0 reqs) [] None [].
Proof.
  intros R. unfold Serialized, initial. cbn [acquired units committed app map].
  split; [reflexivity|]. split; [constructor|]. split; [intros k []|].
  split.
  { rewrite map_map. rewrite <- (map_id reqs) at 2. apply map_ext. now intros []. }
  split; [exact R|]. split; [reflexivity|]. split; [constructor|].
  intros i u H. rewrite nth_error_map in H.
  destruct (nth_error reqs i); [|discriminate]. injection H as <-.
  split; [intros []|]. split; [discriminate|]. intros _ _. now repeat split.
Qed.

Lemma unit_asks (c : Config) i u :
  map requestOf (units c) = reqs -> nth_error (units c) i = Some u ->
  exists q, items (u_input u) = [mkItemInput e q].
Proof.
  intros M H. apply (Hasks (requestOf u)). rewrite <- M.
  apply in_map. now apply nth_error_In with i.
Qed.

Lemma stepAt_serialized c done act results i c' :
  Serialized e db0 reqs c done act results ->
  stepAt i c = Some c' ->
  exists done' act' results', Serialized e db0 reqs c' done' act' results'.
Proof.
  intros (Hacq & Hnd & Hlt & Hreq & Hrows & Hser & Hres & Hcls) Hstep.
  unfold stepAt in Hstep.
  destruct (nth_error (units c) i) as [u|] eqn:Hu; [|discriminate].
  destruct (unit_asks c i u Hreq Hu) as [q Hq].
  destruct (filter (fun x => String.eqb (e_id x) e) (events (committed c)))
    as [|ev rest] eqn:Hev; [contradiction|].
  destruct (Hcls i u Hu) as (_ & HA & HI).
  destruct (in_dec Nat.eq_dec i done) as [Hin|Hnin].
  { (* a unit that has returned takes no step *)
    destruct (Forall2_In_l _ _ _ _ Hres Hin) as (r & u0 & Hu0 & Hpc).
    rewrite Hu in Hu0. injection Hu0 as <-.
    unfold stepUnit in Hstep. rewrite Hpc in Hstep. discriminate. }
  assert (Hquiet : (forall h, act = Some h -> h = i) ->
            forall j v, j <> i -> nth_error (units c) j = Some v -> u_locks v = []).
  { intros Hh j v Nj Hv. destruct (Hcls j v Hv) as (Hd & _ & Hid).
    destruct (in_dec Nat.eq_dec j done) as [Hj|Hj]; [now apply Hd|].
    assert (Id : Idle v).
    { apply Hid; [exact Hj|]. intros E. apply Nj. now apply Hh. }
    apply Id. }
  destruct act as [h|].
  - destruct (Nat.eq_dec h i) as [->|Nh].
    + (* the holder of the lock advances *)
      destruct (stepUnit_active (free i (units c)) (committed c) u e (HA eq_refl))
        as (db' & u' & Hs & Hr & [[-> HA']|(r & Hpc & Hl & Hw & -> & ->)]).
      { apply free_alone. apply Hquiet. now intros h [= ->]. }
      * rewrite Hs in Hstep. injection Hstep as <-.
        exists done, (Some i), results. unfold Serialized. cbn [acquired units committed].
        split; [exact Hacq|]. split; [exact Hnd|].
        split. { intros k Hk. rewrite length_setNth. now apply Hlt. }
        split. { rewrite (map_setNth requestOf _ i u' u Hu Hr). exact Hreq. }
        split. { now rewrite Hev. }
        split; [exact Hser|].
        split.
        { eapply Forall2_impl_In; [exact Hres|]. intros k r Hk (u0 & Hu0 & Hpc).
          exists u0. split; [|exact Hpc]. rewrite nth_error_setNth.
          destruct (Nat.eqb k i) eqn:E; [|exact Hu0].
          apply Nat.eqb_eq in E. subst k. contradiction. }
        intros j v Hv. rewrite nth_error_setNth in Hv.
        destruct (Nat.eqb j i) eqn:E.
        -- apply Nat.eqb_eq in E. subst j. rewrite Hu in Hv. injection Hv as <-.
           split; [contradiction|]. split; [now intros _|]. intros _ N. now destruct N.
        -- exact (Hcls j v Hv).
      * (* the holder of the lock returns: its call joins the serial run *)
        rewrite Hs in Hstep. injection Hstep as <-.
        set (out := createBooking consoleService (u_env u) (u_input u) None (committed c) []).
        exists (done ++ [i]), None, (results ++ [resultOf out]).
        unfold Serialized. cbn [acquired units committed].
        split; [now rewrite app_nil_r|]. split; [exact Hnd|].
        split. { intros k Hk. rewrite length_setNth. now apply Hlt. }
        split. { rewrite (map_setNth requestOf _ i u' u Hu Hr). exact Hreq. }
        split.
        { apply rows_same_ids with (events (committed c)).
          - symmetry. apply createBooking_event_ids.
          - now rewrite Hev. }
        split.
        { rewrite map_app. cbn [map].
          rewrite (serial_snoc _ _ (nth i reqs noRequest) _ _ Hser).
          rewrite <- Hreq, (nth_requestOf _ _ _ Hu). reflexivity. }
        split.
        { apply Forall2_app.
          - eapply Forall2_impl_In; [exact Hres|]. intros k r Hk (u0 & Hu0 & Hpc0).
            exists u0. split; [|exact Hpc0]. rewrite nth_error_setNth.
            destruct (Nat.eqb k i) eqn:E; [|exact Hu0].
            apply Nat.eqb_eq in E. subst k. contradiction.
          - constructor; [|constructor]. exists u'. split; [|exact Hpc].
            now rewrite nth_error_setNth, Nat.eqb_refl, Hu. }
        intros j v Hv. rewrite nth_error_setNth in Hv.
        destruct (Nat.eqb j i) eqn:E.
        -- apply Nat.eqb_eq in E. subst j. rewrite Hu in Hv. injection Hv as <-.
           split; [now intros _|]. split; [discriminate|].
           intros N. exfalso. apply N. apply in_or_app. right. now left.
        -- apply Nat.eqb_neq in E. destruct (Hcls j v Hv) as (Hd & _ & Hid).
           split; [|split; [discriminate|]].
           ++ intros Hj. apply in_app_or in Hj as [Hj|[Hj|[]]]; [now apply Hd | congruence].
           ++ intros Hj _. apply Hid.
              ** intros Hj'. apply Hj. apply in_or_app. now left.
              ** intros [= ->]. contradiction.
    + (* another unit holds the lock: this one waits *)
      exfalso.
      assert (Hlen : nth_error (units c) h <> None).
      { apply nth_error_Some. apply Hlt. rewrite Hacq. apply in_or_app. right. now left. }
      destruct (nth_error (units c) h) as [uh|] eqn:Huh; [|contradiction].
      destruct (Hcls h uh Huh) as (_ & HAh & _).
      destruct (HAh eq_refl) as (_ & _ & _ & _ & _ & Lh & _).
      assert (Id : Idle u) by (apply HI; [exact Hnin | congruence]).
      destruct (stepUnit_idle (free i (units c)) (committed c) u e q ev rest Id Hq Hev)
        as [Hblocked _].
      rewrite Hblocked in Hstep; [discriminate|].
      now apply free_taken with h uh.
  - (* no unit holds the lock: this one is granted it *)
    assert (Id : Idle u) by (apply HI; [exact Hnin | discriminate]).
    destruct (stepUnit_idle (free i (units c)) (committed c) u e q ev rest Id Hq Hev)
      as [_ Hgranted].
    destruct Hgranted as (u' & Hs & Hr & HA').
    { apply free_alone. apply Hquiet. discriminate. }
    rewrite Hs in Hstep. injection Hstep as <-.
    rewrite app_nil_r in Hacq.
    exists done, (Some i), results. unfold Serialized. cbn [acquired units committed].
    split; [now rewrite Hacq|].
    split.
    { rewrite Hacq. apply NoDup_app.
      - now rewrite <- Hacq.
      - repeat constructor. intros [].
      - intros k Hk [<-|[]]. contradiction. }
    split.
    { intros k Hk. rewrite length_setNth. apply in_app_or in Hk as [Hk|[<-|[]]].
      - now apply Hlt.
      - apply nth_error_Some. congruence. }
    split. { rewrite (map_setNth requestOf _ i u' u Hu Hr). exact Hreq. }
    split. { now rewrite Hev. }
    split; [exact Hser|].
    split.
    { eapply Forall2_impl_In; [exact Hres|]. intros k r Hk (u0 & Hu0 & Hpc).
      exists u0. split; [|exact Hpc]. rewrite nth_error_setNth.
      destruct (Nat.eqb k i) eqn:E; [|exact Hu0].
      apply Nat.eqb_eq in E. subst k. contradiction. }
    intros j v Hv. rewrite nth_error_setNth in Hv.
    destruct (Nat.eqb j i) eqn:E.
    + apply Nat.eqb_eq in E. subst j. rewrite Hu in Hv. injection Hv as <-.
      split; [contradiction|]. split; [now intros _|]. intros _ N. now destruct N.
    + apply Nat.eqb_neq in E. destruct (Hcls j v Hv) as (Hd & _ & Hid).
      split; [exact Hd|]. split; [congruence|]. intros Hj _. apply Hid; [exact Hj | discriminate].
Qed.


Lemma run_serialized sched : forall c done act results,
  Serialized e db0 reqs c done act results ->
  exists done' act' results', Serialized e db0 reqs (run sched c) done' act' results'.
Proof.
  induction sched as [|i rest IH]; intros c done act results S; cbn [run].
  - now exists done, act, results.
  - destruct (stepAt i c) as [c'|] eqn:Hstep.
    + destruct (stepAt_serialized _ _ _ _ _ _ S Hstep) as (d' & a' & r' & S').
      now apply IH with d' a' r'.
    + now apply IH with done act results.
Qed.

Lemma active_not_returned db u : Active e db u -> returned u = None.
Proof.
  intros (ev & rest & q & _ & _ & _ & A). unfold returned.
  now inversion A.
Qed.

Lemma idle_not_returned u : Idle u -> returned u = None.
Proof. intros (P & _). unfold returned. now rewrite P. Qed.

(** When every unit has returned, the lock grants name every unit once, and
    the units returned as in the serial run in the order of the grants. *)
Lemma complete_serialized c done act results :
  Serialized e db0 reqs c done act results -> complete c ->
  act = None /\ acquired c = done /\
  Permutation done (seq 0 (length reqs)).
Proof.
  intros (Hacq & Hnd & Hlt & Hreq & _ & _ & Hres & Hcls) Hc.
  unfold complete in Hc. rewrite Forall_forall in Hc.
  assert (Hact : act = None).
  { destruct act as [h|]; [exfalso|reflexivity].
    assert (Hlen : nth_error (units c) h <> None).
    { apply nth_error_Some. apply Hlt. rewrite Hacq. apply in_or_app. right. now left. }
    destruct (nth_error (units c) h) as [uh|] eqn:Huh; [|contradiction].
    destruct (Hcls h uh Huh) as (_ & HA & _).
    apply (Hc uh); [now apply nth_error_In with h|].
    now apply active_not_returned with (committed c), HA. }
  subst act. rewrite app_nil_r in Hacq. rewrite Hacq in *.
  repeat split.
  assert (Hn : length (units c) = length reqs) by now rewrite <- Hreq, length_map.
  apply NoDup_Permutation; [exact Hnd | apply seq_NoDup|].
  intros i. rewrite in_seq. split.
  - intros Hi. apply Hlt in Hi. lia.
  - intros [_ Hi]. cbn in Hi. rewrite <- Hn in Hi.
    destruct (in_dec Nat.eq_dec i done) as [Hin|Hnin]; [exact Hin | exfalso].
    apply nth_error_Some in Hi.
    destruct (nth_error (units c) i) as [u|] eqn:Hu; [|contradiction].
    destruct (Hcls i u Hu) as (_ & _ & HI).
    apply (Hc u); [now apply nth_error_In with i|].
    apply idle_not_returned. apply HI; [exact Hnin | discriminate].
Qed.

(** A run that is not complete has a unit that can advance. *)
Lemma serialized_progress c done act results :
  Serialized e db0 reqs c done act results ->
  complete c \/ exists i c', stepAt i c = Some c'.
Proof.
  intros (Hacq & Hnd & Hlt & Hreq & Hrows & _ & Hres & Hcls).
  assert (Hquiet : forall i, (forall h, act = Some h -> h = i) ->
            forall j v, j <> i -> nth_error (units c) j = Some v -> u_locks v = []).
  { intros i Hh j v Nj Hv. destruct (Hcls j v Hv) as (Hd & _ & Hid).
    destruct (in_dec Nat.eq_dec j done) as [Hj|Hj]; [now apply Hd|].
    assert (Id : Idle v).
    { apply Hid; [exact Hj|]. intros E. apply Nj. now apply Hh. }
    apply Id. }
  destruct act as [h|].
  - right.
    assert (Hlen : nth_error (units c) h <> None).
    { apply nth_error_Some. apply Hlt. rewrite Hacq. apply in_or_app. right. now left. }
    destruct (nth_error (units c) h) as [uh|] eqn:Huh; [|contradiction].
    destruct (Hcls h uh Huh) as (_ & HA & _).
    destruct (stepUnit_active (free h (units c)) (committed c) uh e (HA eq_refl))
      as (db' & u' & Hs & _).
    { apply free_alone. apply Hquiet. now intros k [= ->]. }
    exists h. unfold stepAt. rewrite Huh, Hs. eauto.
  - destruct (Forall_Exists_dec (fun u => returned u <> None) returned_dec (units c))
      as [F|X]; [now left | right].
    apply Exists_exists in X as (u & Iu & Nu).
    apply In_nth_error in Iu as [i Hu].
    destruct (Hcls i u Hu) as (_ & _ & HI).
    destruct (in_dec Nat.eq_dec i done) as [Hin|Hnin].
    { exfalso. destruct (Forall2_In_l _ _ _ _ Hres Hin) as (r & u0 & Hu0 & Hpc).
      rewrite Hu in Hu0. injection Hu0 as <-. apply Nu. unfold returned.
      rewrite Hpc. discriminate. }
    assert (Id : Idle u) by (apply HI; [exact Hnin | discriminate]).
    destruct (unit_asks c i u Hreq Hu) as [q Hq].
    destruct (filter (fun x => String.eqb (e_id x) e) (events (committed c)))
      as [|ev rest] eqn:Hev; [contradiction|].
    destruct (stepUnit_idle (free i (units c)) (committed c) u e q ev rest Id Hq Hev)
      as [_ Hgranted].
    destruct Hgranted as (u' & Hs & _).
    { apply free_alone. apply Hquiet. discriminate. }
    exists i. unfold stepAt. rewrite Hu, Hs. eauto.
Qed.
End OneEvent.

(** ** Concurrent units: every step consumes a statement *)

Lemma stepUnit_remaining isFree db u db' u' granted :
  stepUnit isFree db u = Some (db', u', granted) -> (remaining u' < remaining u)%nat.
Proof.
  unfold stepUnit, remaining.
  destruct (u_pc u) as [[|item rest] ds|[|d rest] ds|ds|err|r].
  - intros [= <- <- <-]. cbn. lia.
  - destruct (fst (selectEventForUpdate (eventId item) db)) as [[|event evs]|err].
    + intros [= <- <- <-]. cbn. lia.
    + destruct (isFree (eventId item)); [|discriminate].
      intros [= <- <- <-]. cbn [u_pc].
      destruct (e_available_seats event <? quantity item); cbn [length];
        rewrite ?length_app; cbn [length]; lia.
    + intros [= <- <- <-]. cbn. lia.
  - intros [= <- <- <-]. cbn. lia.
  - destruct (isFree (d_id d)); [|discriminate]. intros [= <- <- <-]. cbn. lia.
  - destruct (bookingCreate _ _ _ _ _) as [[b|err] db1]; intros [= <- <- <-]; cbn; lia.
  - intros [= <- <- <-]. cbn. lia.
  - discriminate.
Qed.

Lemma stepAt_remaining i c c' :
  stepAt i c = Some c' -> (remainingAll c' < remainingAll c)%nat.
Proof.
  unfold stepAt, remainingAll.
  destruct (nth_error (units c) i) as [u|] eqn:Hu; [|discriminate].
  destruct (stepUnit _ _ u) as [[[db' u'] g]|] eqn:Hs; [|discriminate].
  intros [= <-]. cbn [units]. apply stepUnit_remaining in Hs.
  revert i Hu. induction (units c) as [|x l IH]; intros [|i] Hu; cbn in *;
    try discriminate.
  - injection Hu as ->. lia.
  - specialize (IH i Hu). lia.
Qed.

Lemma run_app s1 : forall s2 c, run (s1 ++ s2) c = run s2 (run s1 c).
Proof.
  induction s1 as [|i s1 IH]; intros s2 c; cbn; [reflexivity | apply IH].
Qed.

(** Every run on one event can be brought to completion, and is complete
    after as many effective steps as there are statements left. *)
Lemma serialized_completes e db0 reqs :
  (forall req, In req reqs -> exists q, asks e req q) ->
  forall n c done act results,
  (remainingAll c <= n)%nat ->
  Serialized e db0 reqs c done act results ->
  exists more, complete (run more c).
Proof.
  intros Hasks. induction n as [|n IH]; intros c done act results Hn S.
  - destruct (serialized_progress e db0 reqs Hasks c done act results S)
      as [Hc|(i & c' & Hs)].
    + now exists [].
    + apply stepAt_remaining in Hs. lia.
  - destruct (serialized_progress e db0 reqs Hasks c done act results S)
      as [Hc|(i & c' & Hs)].
    + now exists [].
    + destruct (stepAt_serialized e db0 reqs Hasks _ _ _ _ _ _ S Hs) as (d' & a' & r' & S').
      pose proof (stepAt_remaining _ _ _ Hs) as Hlt.
      destruct (IH c' d' a' r') as [more Hc]; [lia | exact S'|].
      exists (i :: more). cbn [run]. now rewrite Hs.
Qed.

(** ** The serial run of requests for one seat *)

Lemma filter_map_same_id e (f : Event -> Event) evs :
  (forall x, e_id (f x) = e_id x) ->
  filter (fun x => String.eqb (e_id x) e) (map f evs) =
  map f (filter (fun x => String.eqb (e_id x) e) evs).
Proof.
  intros H. induction evs as [|x evs IH]; cbn; [reflexivity|].
  rewrite H. destruct (String.eqb (e_id x) e); cbn; now rewrite IH.
Qed.

Lemma availableSeats_rows e db ev rest :
  filter (fun x => String.eqb (e_id x) e) (events db) = ev :: rest ->
  availableSeats db e = Some (e_available_seats ev).
Proof.
  intros R. unfold availableSeats, findEvent.
  pose proof (filter_head_find (fun x => String.eqb (e_id x) e) (events db)) as F.
  rewrite R in F. now rewrite F.
Qed.

(** One request for one seat, served alone. *)
Lemma single_seat env input e db ev rest :
  items input = [mkItemInput e 1] ->
  filter (fun x => String.eqb (e_id x) e) (events db) = ev :: rest ->
  0 <= e_available_seats ev ->
  (forall b, In b (bookings db) -> b_id b <> env_uuid env) ->
  let out := createBooking consoleService env input None db [] in
  (e_available_seats ev = 0 /\
   resultOf out = Throw (InsufficientSeatsError e 1 0) /\ dbOf out = db) \/
  (1 <= e_available_seats ev /\
   (exists r, resultOf out = Ok r /\ r_status r = CONFIRMED) /\
   (exists ev' rest',
      filter (fun x => String.eqb (e_id x) e) (events (dbOf out)) = ev' :: rest' /\
      e_available_seats ev' = e_available_seats ev - 1) /\
   (forall b, In b (bookings (dbOf out)) -> In b (bookings db) \/ b_id b = env_uuid env)).
Proof.
  intros I R A Fr. cbn zeta.
  pose proof (rows_id _ _ _ _ R) as Eid.
  destruct (e_available_seats ev <? 1) eqn:C.
  - left. apply Z.ltb_lt in C. assert (Z0 : e_available_seats ev = 0) by lia.
    split; [exact Z0|].
    destruct (single_short env input e 1 db ev rest I R) as [H1 H2];
      [now apply Z.ltb_lt|].
    now rewrite H1, H2, Z0.
  - right. apply Z.ltb_ge in C. split; [exact C|].
    assert (B : bookingCreate env (customerEmail input) None (lineItems input)
                  (decrementedDb env [detailOf ev 1] db) =
                (Ok (mkBooking (env_uuid env) (customerEmail input) CONFIRMED (env_now env)
                               None (lineItems input)),
                 mkDb (events (decrementedDb env [detailOf ev 1] db))
                      (bookings db ++ [mkBooking (env_uuid env) (customerEmail input)
                                                 CONFIRMED (env_now env) None
                                                 (lineItems input)]))).
    { unfold bookingCreate. cbn [bookings decrementedDb key_free negb].
      assert (E1 : existsb (fun b => String.eqb (b_id b) (env_uuid env)) (bookings db) = false).
      { destruct (existsb _ (bookings db)) eqn:X; [|reflexivity].
        apply existsb_exists in X as (b & Ib & Eb). apply String.eqb_eq in Eb.
        now destruct (Fr b Ib). }
      rewrite E1. unfold lineItems. rewrite I. cbn [map i_event_id nodupb existsb negb andb].
      cbn [forallb i_event_id eventId quantity].
      assert (E2 : existsb (fun x => String.eqb (e_id x) e)
                     (events (decrementedDb env [detailOf ev 1] db)) = true).
      { apply existsb_exists. exists (setSeats (- 1) (env_now env) (e_id ev) ev).
        split.
        - cbn. apply in_map.
          assert (X : In ev (filter (fun x => String.eqb (e_id x) e) (events db)))
            by (rewrite R; now left).
          now apply filter_In in X.
        - rewrite setSeats_id, Eid. apply String.eqb_refl. }
      rewrite E2. reflexivity. }
    destruct (single_created env input e 1 db ev rest I R _ _ ltac:(now apply Z.ltb_ge) B)
      as [H1 H2].
    rewrite H1, H2. cbn [b_items b_id b_status b_customer_email b_created_at].
    unfold lineItems at 1. rewrite I. cbn [map mapDetails nth_error].
    split; [eexists; split; reflexivity|].
    split.
    + cbn [events decrementedDb]. unfold applySeats. cbn [fold_left d_id detailOf
        d_requestedQuantity].
      rewrite filter_map_same_id by (intros; apply setSeats_id).
      rewrite R. cbn [map]. eexists _, _. split; [reflexivity|].
      rewrite setSeats_available, String.eqb_refl. lia.
    + cbn [bookings]. intros b Ib. apply in_app_or in Ib as [Ib|[<-|[]]]; [now left|].
      now right.
Qed.

Lemma serial_single_seats e reqs : forall db ev rest,
  (forall req, In req reqs -> asks e req 1) ->
  fresh reqs db ->
  filter (fun x => String.eqb (e_id x) e) (events db) = ev :: rest ->
  0 <= e_available_seats ev ->
  let sold := Z.min (e_available_seats ev) (Z.of_nat (length reqs)) in
  length (filter isConfirmed (map Some (fst (serial reqs db)))) = Z.to_nat sold /\
  length (filter isInsufficient (map Some (fst (serial reqs db)))) =
    (length reqs - Z.to_nat sold)%nat /\
  availableSeats (snd (serial reqs db)) e = Some (e_available_seats ev - sold).
Proof.
  induction reqs as [|req reqs IH]; intros db ev rest Ha [Hnd Hfr] R A; cbn zeta.
  - cbn. rewrite (availableSeats_rows _ _ _ _ R). repeat split; try lia. f_equal. lia.
  - cbn [serial].
    inversion Hnd as [|? ? Hni Hnd']; subst.
    pose proof (single_seat (fst req) (snd req) e db ev rest
                  (Ha req (or_introl eq_refl)) R A
                  (fun b Ib => Hfr req b (or_introl eq_refl) Ib)) as S.
    cbn zeta in S.
    set (out := createBooking consoleService (fst req) (snd req) None db []) in *.
    destruct S as [(Z0 & Hr & Hd)|(Z1 & (r & Hr & Hst) & (ev' & rest' & R' & A') & Hb)].
    + rewrite Hd.
      destruct (IH db ev rest) as (C1 & C2 & C3);
        [intros; apply Ha; now right | split; [exact Hnd'|] | exact R | exact A|].
      { intros r0 b I0 Ib. apply Hfr; [now right | exact Ib]. }
      cbn zeta in C1, C2, C3.
      destruct (serial reqs db) as [rs db'] eqn:Ser. cbn [fst snd] in *.
      rewrite Hr. cbn [map filter isConfirmed isInsufficient length].
      rewrite C1, C2, C3. split; [lia | split; [lia | f_equal; lia]].
    + destruct (IH (dbOf out) ev' rest') as (C1 & C2 & C3);
        [intros; apply Ha; now right | split; [exact Hnd'|] | exact R' | lia|].
      { intros r0 b I0 Ib. destruct (Hb b Ib) as [Ib'|E].
        - apply Hfr; [now right | exact Ib'].
        - rewrite E. intros E'. apply Hni. unfold uuids.
          rewrite E'. apply in_map_iff. now exists r0. }
      cbn zeta in C1, C2, C3.
      destruct (serial reqs (dbOf out)) as [rs db'] eqn:Ser. cbn [fst snd] in *.
      rewrite Hr. cbn [map filter isConfirmed isInsufficient length].
      rewrite Hst. cbn [BookingStatus_eqb length].
      rewrite C1, C2, C3. split; [lia | split; [lia | f_equal; lia]].
Qed.

(** ** Concurrent requests on one event *)

Lemma map_nth_seq {A} (d : A) (l : list A) : forall pre,
  map (fun i => nth i (pre ++ l) d) (seq (length pre) (length l)) = l.
Proof.
  induction l as [|x l IH]; intros pre; cbn; [reflexivity|].
  rewrite nth_middle. f_equal.
  specialize (IH (pre ++ [x])). rewrite length_app, Nat.add_1_r, <- app_assoc in IH.
  exact IH.
Qed.

Lemma map_returnedAt (c : Config) :
  map (returnedAt c) (seq 0 (length (units c))) = map returned (units c).
Proof.
  unfold returnedAt.
  rewrite <- (map_nth_seq None (map returned (units c)) []).
  rewrite length_map. cbn [length app]. apply map_ext_in. intros i Hi.
  apply in_seq in Hi.
  destruct (nth_error (units c) i) as [u|] eqn:Hu.
  - symmetry. apply nth_error_nth with (d := None). now rewrite nth_error_map, Hu.
  - apply nth_error_None in Hu. lia.
Qed.

Lemma Permutation_filter_length {A} (f : A -> bool) (l l' : list A) :
  Permutation l l' -> length (filter f l) = length (filter f l').
Proof.
  induction 1 as [|x l l' P IH|x y l|l l' l'' P1 IH1 P2 IH2]; cbn.
  - reflexivity.
  - destruct (f x); cbn; now rewrite IH.
  - destruct (f x), (f y); reflexivity.
  - now rewrite IH1.
Qed.

Lemma findEvent_rows e db :
  findEvent e db <> None ->
  filter (fun x => String.eqb (e_id x) e) (events db) <> [].
Proof.
  unfold findEvent. intros H E.
  pose proof (filter_head_find (fun x => String.eqb (e_id x) e) (events db)) as F.
  rewrite E in F. contradiction.
Qed.

(** C3. Units of work that each ask seats of one event [e], advanced one
    statement at a time under any schedule, the row lock of [e] being granted
    to one uncommitted unit at a time: (1) the run can always be brought to
    completion; (2) once every unit has returned, the lock grants name every
    unit once, and the results of the units and the committed database are
    those of createBooking called for the requests one after the other in the
    order of the grants (each unit observed the seats as the units granted
    before it left them); (3) for an event with 2 available seats and ten
    requests for one seat each under fresh booking ids, exactly 2 units
    return a CONFIRMED booking, exactly 8 fail InsufficientSeats, and the
    event is left with 0 available seats. *)
Theorem concurrent_no_oversell (e : string) (db0 : Db)
    (reqs : list (Env * CreateBookingInput)) (sched : list nat) :
  (forall req, In req reqs -> exists q, asks e req q) ->
  findEvent e db0 <> None ->
  let c := run sched (initial db0 reqs) in
  (exists more, complete (run more c)) /\
  (complete c ->
   Permutation (acquired c) (seq 0 (length reqs)) /\
   exists results,
     serial (map (fun i => nth i reqs noRequest) (acquired c)) db0 =
     (results, committed c) /\
     map (returnedAt c) (acquired c) = map Some results) /\
  (complete c ->
   availableSeats db0 e = Some 2 -> length reqs = 10%nat ->
   (forall req, In req reqs -> asks e req 1) -> fresh reqs db0 ->
   length (filter isConfirmed (map returned (units c))) = 2%nat /\
   length (filter isInsufficient (map returned (units c))) = 8%nat /\
   availableSeats (committed c) e = Some 0).
Proof.
  intros Hasks Hev c.
  apply findEvent_rows in Hev.
  destruct (run_serialized e db0 reqs Hasks sched _ _ _ _
              (initial_serialized e db0 reqs Hev)) as (done & act & results & S).
  fold c in S.
  assert (Serial : complete c ->
            Permutation (acquired c) (seq 0 (length reqs)) /\
            exists results,
              serial (map (fun i => nth i reqs noRequest) (acquired c)) db0 =
              (results, committed c) /\
              map (returnedAt c) (acquired c) = map Some results).
  { intros Hc.
    destruct (complete_serialized e db0 reqs c done act results S Hc) as (-> & -> & P).
    split; [exact P|]. exists results.
    destruct S as (_ & _ & _ & _ & _ & Hser & Hres & _).
    split; [exact Hser|].
    clear - Hres. induction Hres as [|i r l rs (u & Hu & Hpc) F IH]; cbn; [reflexivity|].
    rewrite IH. f_equal. unfold returnedAt, returned. now rewrite Hu, Hpc. }
  split; [|split; [exact Serial|]].
  - now apply (serialized_completes e db0 reqs Hasks (remainingAll c) c done act results).
  - intros Hc Havail Hlen Hone Hfresh.
    destruct (Serial Hc) as (P & rs & Hser & Hret).
    set (order := map (fun i => nth i reqs noRequest) (acquired c)) in *.
    assert (Pr : Permutation order reqs).
    { apply Permutation_trans
        with (map (fun i => nth i reqs noRequest) (seq 0 (length reqs))).
      - unfold order. now apply Permutation_map.
      - pose proof (map_nth_seq noRequest reqs []) as X. cbn [length app] in X.
        rewrite X. apply Permutation_refl. }
    destruct (filter (fun x => String.eqb (e_id x) e) (events db0)) as [|ev rest] eqn:R;
      [contradiction|].
    rewrite (availableSeats_rows _ _ _ _ R) in Havail. injection Havail as Havail.
    destruct (serial_single_seats e order db0 ev rest) as (C1 & C2 & C3).
    { intros req I. apply Hone. now apply Permutation_in with order. }
    { destruct Hfresh as [Hnd Hfr]. split.
      - apply Permutation_NoDup with (uuids reqs); [|exact Hnd].
        unfold uuids. apply Permutation_map. now apply Permutation_sym.
      - intros req b I. apply Hfr. now apply Permutation_in with order. }
    { exact R. }
    { lia. }
    cbn zeta in C1, C2, C3. rewrite Hser in C1, C2, C3. cbn [fst snd] in C1, C2, C3.
    rewrite (Permutation_length Pr), Hlen, Havail in C1, C2, C3.
    assert (Pu : Permutation (map Some rs) (map returned (units c))).
    { rewrite <- Hret, <- map_returnedAt.
      assert (Hn : length (units c) = length reqs).
      { destruct S as (_ & _ & _ & Hreq & _). now rewrite <- Hreq, length_map. }
      rewrite Hn. now apply Permutation_map. }
    rewrite <- (Permutation_filter_length isConfirmed _ _ Pu).
    rewrite <- (Permutation_filter_length isInsufficient _ _ Pu).
    rewrite C1, C2, C3. repeat split.
Qed.

Lemma stressRequests_ask req :
  In req stressRequests -> asks (e_id classicalConcert) req 1.
Proof.
  unfold stressRequests. cbn [map In].
  intros H. repeat destruct H as [<-|H]; try reflexivity. contradiction.
Qed.

Lemma stressRequests_fresh : fresh stressRequests seed.
Proof.
  split; [|intros req b _ []].
  cbn. repeat constructor; cbn; intuition discriminate.
Qed.

Lemma roundRobin_complete : complete (run roundRobin (initial seed stressRequests)).
Proof.
  vm_compute. repeat constructor; discriminate.
Qed.

(** The stress script on the seed data, under the round-robin schedule. *)
Lemma concurrent_no_oversell_witness :
  let c := run roundRobin (initial seed stressRequests) in
  complete c /\
  length (filter isConfirmed (map returned (units c))) = 2%nat /\
  length (filter isInsufficient (map returned (units c))) = 8%nat /\
  availableSeats (committed c) (e_id classicalConcert) = Some 0.
Proof.
  cbv zeta. split; [exact roundRobin_complete|].
  apply (concurrent_no_oversell (e_id classicalConcert) seed stressRequests roundRobin).
  - intros req H. exists 1. now apply stressRequests_ask.
  - discriminate.
  - exact roundRobin_complete.
  - reflexivity.
  - reflexivity.
  - exact stressRequests_ask.
  - exact stressRequests_fresh.
Defined.

(** * The rest of the service and the routes *)

(** ** Reading a booking back *)

(** Under the primary key of "bookings", the row found by id is the row. *)
Lemma find_NoDup_booking (bs : list Booking) b :
  NoDup (map b_id bs) -> In b bs ->
  find (fun x => String.eqb (b_id x) (b_id b)) bs = Some b.
Proof.
  induction bs as [|x rest IH]; cbn; [contradiction|].
  intros N I. inversion N as [|? ? NI N']; subst.
  destruct I as [->|I].
  - now rewrite String.eqb_refl.
  - destruct (String.eqb (b_id x) (b_id b)) eqn:E; [|now apply IH].
    apply String.eqb_eq in E. exfalso. apply NI. rewrite E. now apply in_map.
Qed.

Lemma mapItems_ok l ris :
  mapItems l = Ok ris ->
  map ri_eventId ris = map (fun x => i_event_id (fst x)) l /\
  map ri_quantity ris = map (fun x => i_quantity (fst x)) l.
Proof.
  revert ris. induction l as [|[item [ev|]] rest IH]; cbn; intros ris H.
  - injection H as <-. now split.
  - destruct (mapItems rest) as [r|]; [|discriminate].
    injection H as <-. destruct (IH r eq_refl) as [E1 E2]. cbn. now rewrite E1, E2.
  - discriminate.
Qed.

Lemma fst_includeItems db b : map fst (includeItems db b) = b_items b.
Proof.
  unfold includeItems. rewrite map_map. cbn [includeEvent fst]. apply map_id.
Qed.

(** What a projection built by [toBookingResult] shows of its row. *)
Lemma toBookingResult_projects db b r :
  toBookingResult b (includeItems db b) = Ok r -> projects b r.
Proof.
  unfold toBookingResult. destruct (mapItems _) as [ris|] eqn:M; [|discriminate].
  intros [= <-]. apply mapItems_ok in M as [M1 M2].
  rewrite <- (map_map fst i_event_id) in M1. rewrite <- (map_map fst i_quantity) in M2.
  rewrite fst_includeItems in *.
  unfold projects. cbn [r_id r_customerEmail r_status r_createdAt r_items r_totalTickets].
  rewrite totalQuantity_sum. repeat split; assumption.
Qed.

(** The line items of a request that passed phase 1, read back through
    [include] from a database that kept the names of the events. *)
Lemma mapItems_validated db db' its ris :
  (forall id ev, findEvent id db = Some ev ->
     exists ev', findEvent id db' = Some ev' /\ e_name ev' = e_name ev) ->
  Forall2 (fun item ri =>
             ri_eventId ri = eventId item /\
             ri_quantity ri = quantity item /\
             exists ev, findEvent (eventId item) db = Some ev /\
                        ri_eventName ri = e_name ev) its ris ->
  mapItems (map (includeEvent db')
                (map (fun item => mkBookingItem (eventId item) (quantity item)) its)) = Ok ris.
Proof.
  intros K F. induction F as [|item ri its ris (E1 & E2 & ev & Fe & E3) F IH]; [reflexivity|].
  cbn [map includeEvent i_event_id mapItems].
  destruct (K _ _ Fe) as (ev' & -> & N). rewrite IH. cbn [i_event_id i_quantity].
  destruct ri; cbn in *. now rewrite N, E1, E2, E3.
Qed.

(** The events a transaction of createBooking leaves keep their names. *)
Lemma decremented_names env details db bs id ev :
  findEvent id db = Some ev ->
  exists ev', findEvent id (mkDb (events (decrementedDb env details db)) bs) = Some ev' /\
              e_name ev' = e_name ev.
Proof.
  intros F. unfold findEvent, decrementedDb in *. cbn [events].
  rewrite find_applySeats, F. cbn [option_map]. eexists. split; [reflexivity|].
  apply adjust_name.
Qed.

Lemma getBooking_created svc env input key db con r :
  lookupExisting key db = None ->
  resultOf (createBooking svc env input key db con) = Ok r ->
  getBooking (r_id r) (dbOf (createBooking svc env input key db con)) = Ok r.
Proof.
  intros L H.
  destruct (createBooking_fresh_ok _ _ _ _ _ _ _ L H) as (F & B & M & R & ->).
  unfold dbOf. cbn [fst snd].
  apply bookingCreate_ok in B as (_ & _ & PK & _ & _ & _).
  assert (Rid : r_id r = env_uuid env) by now rewrite R.
  unfold getBooking, findBooking. cbn [bookings]. rewrite Rid.
  rewrite find_app_None by now apply existsb_false_find.
  cbn [b_id]. rewrite String.eqb_refl.
  unfold toBookingResult, includeItems. cbn [b_items b_id b_customer_email b_status b_created_at].
  destruct (mapDetails_validated db (items input) [] F) as (ris & M' & F2).
  cbn [length app] in M'. unfold lineItems in M. rewrite M in M'. injection M' as <-.
  unfold lineItems.
  rewrite (mapItems_validated db _ (items input) (r_items r)); [|
    intros id ev Fe; now apply decremented_names | exact F2].
  rewrite map_map. cbn [includeEvent fst]. rewrite map_id.
  symmetry. f_equal. exact R.
Qed.

(** X1. A booking just answered by createBooking reads back the same:
    getBooking on the id of the result, in the state the call leaves, returns
    the very projection the call returned (for a new booking and for an
    idempotent replay alike), given the primary key of "bookings". *)
Theorem getBooking_after_createBooking (svc : NotificationService) (env : Env)
    (input : CreateBookingInput) (idempotencyKey : option string)
    (db : Db) (con : Console) (r : BookingResult) :
  NoDup (map b_id (bookings db)) ->
  resultOf (createBooking svc env input idempotencyKey db con) = Ok r ->
  getBooking (r_id r) (dbOf (createBooking svc env input idempotencyKey db con)) = Ok r.
Proof.
  intros N H. destruct (lookupExisting idempotencyKey db) as [b|] eqn:L.
  - rewrite (createBooking_replay _ _ _ _ _ _ _ L) in *.
    unfold resultOf, dbOf in *. cbn [fst snd] in *.
    rewrite (toBookingResult_id _ _ _ H).
    unfold getBooking, findBooking.
    rewrite (find_NoDup_booking _ _ N (lookupExisting_In _ _ _ L)). exact H.
  - now apply getBooking_created.
Qed.

(** On the seed data: the booking of the last seats of the Classical
    Concert, read back. *)
Lemma getBooking_after_createBooking_witness :
  getBooking "b1" afterLastSeats =
  Ok (mkResult "b1" "a@test.com" CONFIRMED 10
        [mkResultItem (e_id classicalConcert) "Classical Concert" 2] 2).
Proof.
  apply (getBooking_after_createBooking consoleService (mkEnv "b1" 10) lastSeats
           (Some "k1") seed []
           (mkResult "b1" "a@test.com" CONFIRMED 10
              [mkResultItem (e_id classicalConcert) "Classical Concert" 2] 2)).
  - constructor.
  - reflexivity.
Defined.

Lemma foreignKeys_seed_booked : foreignKeys afterLastSeats.
Proof.
  intros b [<-|[]] i [<-|[]]. discriminate.
Qed.

(** X2. GET /bookings/:id has two answers under the constraints of the
    tables: 404 BookingNotFound with the message of the error class exactly
    when no booking has the id, and otherwise 200 with the columns, the line
    items and the ticket total of the booking of that id; the handler throws
    nothing on. *)
Theorem getBookingRoute_replies (bookingId : string) (db : Db) :
  foreignKeys db ->
  ((forall b, In b (bookings db) -> b_id b <> bookingId) /\
   getBookingRoute bookingId db =
   ErrorReply 404 "BookingNotFound" ("Booking not found: " ++ bookingId)) \/
  (exists b r, In b (bookings db) /\ b_id b = bookingId /\
               getBookingRoute bookingId db = Data r /\ projects b r).
Proof.
  intros FK. unfold getBookingRoute, getBooking.
  destruct (findBooking bookingId db) as [b|] eqn:F.
  - right. pose proof F as I. apply find_some in I as [I E]. apply String.eqb_eq in E.
    destruct (toBookingResult_ok db b (FK b I)) as (r & R & _).
    exists b, r. rewrite R. split; [exact I|]. split; [exact E|]. split; [reflexivity|].
    now apply (toBookingResult_projects db).
  - left. split; [now apply findBooking_None | reflexivity].
Qed.

Lemma getBookingRoute_replies_witness :
  foreignKeys afterLastSeats /\
  (((forall b, In b (bookings afterLastSeats) -> b_id b <> "b1") /\
    getBookingRoute "b1" afterLastSeats =
    ErrorReply 404 "BookingNotFound" ("Booking not found: " ++ "b1")) \/
   (exists b r, In b (bookings afterLastSeats) /\ b_id b = "b1" /\
                getBookingRoute "b1" afterLastSeats = Data r /\ projects b r)).
Proof.
  split; [exact foreignKeys_seed_booked|].
  apply (getBookingRoute_replies "b1" afterLastSeats). exact foreignKeys_seed_booked.
Defined.

(** ** Cancelling *)


Lemma availableSeats_cancelledDb env id b db eid :
  availableSeats (cancelledDb env id b db) eid =
  option_map (fun a => a + seatsDelta i_quantity i_event_id (b_items b) eid)
             (availableSeats db eid).
Proof.
  unfold availableSeats, findEvent, cancelledDb. cbn [events].
  rewrite find_applySeats. destruct (find _ (events db)) as [e|] eqn:F; [|reflexivity].
  cbn [option_map]. rewrite adjust_available. now rewrite (find_id_event _ _ _ F).
Qed.

(** X3. What cancelBooking returns is what getBooking then reads: after a
    cancellation that went through, getBooking on the same id returns the
    projection the cancellation returned. *)
Theorem getBooking_after_cancelBooking (env : Env) (bookingId : string) (db : Db)
    (r : BookingResult) :
  fst (cancelBooking env bookingId db) = Ok r ->
  getBooking bookingId (snd (cancelBooking env bookingId db)) = Ok r.
Proof.
  destruct (findBooking bookingId db) as [b|] eqn:F.
  - destruct (b_status b) eqn:S.
    + pose proof (cancelBooking_confirmed env _ _ _ F S) as C. cbn zeta in C.
      rewrite C. cbn [fst snd]. intros R.
      unfold getBooking, findBooking, cancelledDb at 1. cbn [bookings].
      unfold findBooking in F. now rewrite (find_setStatus _ CANCELLED _ _ F).
    + now rewrite (cancelBooking_cancelled env _ _ _ F S).
  - now rewrite (cancelBooking_absent env _ _ F).
Qed.

Lemma getBooking_after_cancelBooking_witness :
  getBooking "b1" (snd (cancelBooking (mkEnv "c1" 30) "b1" afterLastSeats)) =
  Ok (mkResult "b1" "a@test.com" CANCELLED 10
        [mkResultItem (e_id classicalConcert) "Classical Concert" 2] 2).
Proof.
  apply (getBooking_after_cancelBooking (mkEnv "c1" 30) "b1" afterLastSeats). reflexivity.
Defined.





(** ** When createBooking goes through, and what it then changes *)

Lemma nodupb_NoDup (l : list string) : nodupb l = true <-> NoDup l.
Proof.
  induction l as [|x rest IH]; cbn.
  - split; [constructor | reflexivity].
  - rewrite andb_true_iff, negb_true_iff, IH. split.
    + intros [E N]. constructor; [|exact N]. intros I.
      assert (X : existsb (String.eqb x) rest = true).
      { apply existsb_exists. exists x. split; [exact I | apply String.eqb_refl]. }
      congruence.
    + intros N. inversion N as [|? ? NI N']; subst. split; [|exact N'].
      destruct (existsb (String.eqb x) rest) eqn:E; [|reflexivity].
      apply existsb_exists in E as (y & I & E). apply String.eqb_eq in E. now subst.
Qed.

Lemma find_none_existsb {A} (f : A -> bool) l : find f l = None -> existsb f l = false.
Proof.
  induction l as [|x rest IH]; cbn; [reflexivity|].
  destruct (f x); [discriminate | exact IH].
Qed.

(** A key the lookup did not find is free for the insert. *)
Lemma lookupExisting_key_free key db :
  lookupExisting key db = None -> key_free (storedKey key) db = true.
Proof.
  unfold lookupExisting, storedKey. destruct (truthy key); [|reflexivity].
  destruct key as [k|]; [|reflexivity]. unfold findBookingByKey. intros F.
  cbn [key_free]. now rewrite (find_none_existsb _ _ F).
Qed.

Lemma bookingCreate_succeeds env email key its db :
  findBooking (env_uuid env) db = None ->
  key_free key db = true ->
  NoDup (map i_event_id its) ->
  (forall i, In i its -> findEvent (i_event_id i) db <> None) ->
  let b := mkBooking (env_uuid env) email CONFIRMED (env_now env) key its in
  bookingCreate env email key its db = (Ok b, mkDb (events db) (bookings db ++ [b])).
Proof.
  intros PK KF N FK. cbn zeta. unfold bookingCreate.
  unfold findBooking in PK. rewrite (find_none_existsb _ _ PK), KF.
  apply nodupb_NoDup in N. rewrite N. cbn [negb].
  replace (forallb _ its) with true; [reflexivity|].
  symmetry. apply forallb_forall. intros i I. specialize (FK i I). unfold findEvent in FK.
  destruct (existsb _ (events db)) eqn:E; [reflexivity|].
  now rewrite (existsb_false_find _ _ E) in FK.
Qed.

Lemma firstOffending_None db its item :
  firstOffending db its = None -> In item its ->
  exists ev, findEvent (eventId item) db = Some ev /\
             quantity item <= e_available_seats ev.
Proof.
  intros F I. pose proof (find_none _ _ F _ I) as O. unfold offending in O.
  destruct (findEvent (eventId item) db) as [ev|]; [|discriminate].
  exists ev. split; [reflexivity|]. apply Z.ltb_ge in O. exact O.
Qed.

Lemma map_eventId_lineItems input : map i_event_id (lineItems input) = map eventId (items input).
Proof. unfold lineItems. rewrite map_map. reflexivity. Qed.

Lemma createBooking_fresh_succeeds svc env input key db con :
  lookupExisting key db = None ->
  firstOffending db (items input) = None ->
  NoDup (map eventId (items input)) ->
  findBooking (env_uuid env) db = None ->
  exists r, resultOf (createBooking svc env input key db con) = Ok r.
Proof.
  intros L F N PK.
  unfold createBooking, resultOf, transaction. rewrite L.
  pose proof (createBookingTx_passes env input key db F) as P. cbn zeta in P.
  rewrite P. clear P.
  pose proof (bookingCreate_succeeds env (customerEmail input) (storedKey key)
                (lineItems input)
                (decrementedDb env (validatedDetails db (items input)) db)) as B.
  cbn zeta in B. rewrite B; clear B.
  - cbn [b_items].
    destruct (mapDetails_validated db (items input) [] F) as (ris & M & _).
    cbn [length app] in M. unfold lineItems. rewrite M. cbn [fst]. eexists. reflexivity.
  - exact PK.
  - now apply lookupExisting_key_free.
  - now rewrite map_eventId_lineItems.
  - intros i I. unfold lineItems in I. apply in_map_iff in I as (item & <- & I).
    destruct (firstOffending_None _ _ _ F I) as (ev & Fe & _). cbn [i_event_id].
    destruct (decremented_names env (validatedDetails db (items input)) db (bookings db)
                _ _ Fe) as (ev' & Fe' & _).
    unfold findEvent, decrementedDb in *. cbn [events] in *. congruence.
Qed.



Lemma seatsDelta_lineItems (its : list BookingItemInput) eid :
  seatsDelta i_quantity i_event_id
    (map (fun item => mkBookingItem (eventId item) (quantity item)) its) eid =
  seatsDelta quantity eventId its eid.
Proof.
  unfold seatsDelta. induction its as [|item rest IH]; [reflexivity|].
  cbn [map filter i_event_id]. destruct (String.eqb eid (eventId item)); cbn; now rewrite IH.
Qed.

Lemma availableSeats_created env input db bs eid :
  firstOffending db (items input) = None ->
  availableSeats
    (mkDb (events (decrementedDb env (validatedDetails db (items input)) db)) bs) eid =
  option_map (fun a => a - asked input eid) (availableSeats db eid).
Proof.
  intros F. unfold availableSeats, findEvent, decrementedDb, asked. cbn [events].
  rewrite find_applySeats. destruct (find _ (events db)) as [e|] eqn:Fe; [|reflexivity].
  cbn [option_map]. rewrite adjust_available, (find_id_event _ _ _ Fe).
  pose proof (seatsDelta_restores db (items input) eid F) as S.
  rewrite seatsDelta_lineItems in S. f_equal. lia.
Qed.

(** X7. What a new booking changes: a createBooking call that goes through
    without being answered from the idempotency lookup takes from every event
    exactly the seats the request asks of it (nothing from the others), had
    those seats available, and adds one CONFIRMED booking, under the id
    returned, with the request's email, key and line items; the bookings
    stored before are untouched. *)
Theorem createBooking_takes_seats (svc : NotificationService) (env : Env)
    (input : CreateBookingInput) (idempotencyKey : option string)
    (db : Db) (con : Console) (r : BookingResult) :
  lookupExisting idempotencyKey db = None ->
  resultOf (createBooking svc env input idempotencyKey db con) = Ok r ->
  let db' := dbOf (createBooking svc env input idempotencyKey db con) in
  (forall eid, availableSeats db' eid =
               option_map (fun a => a - asked input eid) (availableSeats db eid)) /\
  (forall item, In item (items input) ->
     exists a, availableSeats db (eventId item) = Some a /\ asked input (eventId item) <= a) /\
  bookings db' =
  bookings db ++ [mkBooking (r_id r) (customerEmail input) CONFIRMED (r_createdAt r)
                            (storedKey idempotencyKey) (lineItems input)].
Proof.
  intros L H. cbn zeta.
  destruct (createBooking_fresh_ok _ _ _ _ _ _ _ L H) as (F & B & _ & R & ->).
  unfold dbOf. cbn [fst snd bookings].
  apply bookingCreate_ok in B as (_ & _ & _ & _ & N & _).
  split; [|split].
  - intros eid. now apply availableSeats_created.
  - intros item I. destruct (firstOffending_None _ _ _ F I) as (ev & Fe & Q).
    exists (e_available_seats ev). unfold availableSeats. rewrite Fe. split; [reflexivity|].
    unfold asked. rewrite <- seatsDelta_lineItems.
    rewrite seatsDelta_NoDup.
    2:{ rewrite <- map_eventId_lineItems. now apply nodupb_NoDup. }
    destruct (find _ (items input)) as [item'|] eqn:Fi.
    + pose proof Fi as I'. apply find_some in I' as [I' E]. apply String.eqb_eq in E.
      destruct (firstOffending_None _ _ _ F I') as (ev' & Fe' & Q').
      rewrite <- E in Fe'. congruence.
    + pose proof (find_none _ _ Fi _ I) as E. cbn beta in E.
      now rewrite String.eqb_refl in E.
  - now rewrite R.
Qed.

Lemma createBooking_takes_seats_witness :
  let r := mkResult "b1" "a@test.com" CONFIRMED 10
             [mkResultItem (e_id classicalConcert) "Classical Concert" 2] 2 in
  (forall eid, availableSeats afterLastSeats eid =
               option_map (fun a => a - asked lastSeats eid) (availableSeats seed eid)) /\
  (forall item, In item (items lastSeats) ->
     exists a, availableSeats seed (eventId item) = Some a /\
               asked lastSeats (eventId item) <= a) /\
  bookings afterLastSeats =
  bookings seed ++ [mkBooking (r_id r) (customerEmail lastSeats) CONFIRMED (r_createdAt r)
                              (storedKey (Some "k1")) (lineItems lastSeats)].
Proof.
  apply (createBooking_takes_seats consoleService (mkEnv "b1" 10) lastSeats (Some "k1")
           seed []); reflexivity.
Defined.

(** ** Notifications *)

(** X8. The notification is dispatched exactly for new bookings: a
    createBooking call hands the channel one notification, built from the
    result it returns, when it creates a booking, and touches neither channel
    nor console when it fails or is answered from the idempotency lookup; with
    the console channel the console grows by that one confirmation. *)
Theorem createBooking_notifies_new_bookings (svc : NotificationService) (env : Env)
    (input : CreateBookingInput) (idempotencyKey : option string)
    (db : Db) (con : Console) :
  consoleOf (createBooking svc env input idempotencyKey db con) =
  match lookupExisting idempotencyKey db,
        resultOf (createBooking svc env input idempotencyKey db con) with
  | None, Ok r => snd (notify svc (toNotification r) con)
  | _, _ => con
  end /\
  consoleOf (createBooking consoleService env input idempotencyKey db con) =
  match lookupExisting idempotencyKey db,
        resultOf (createBooking consoleService env input idempotencyKey db con) with
  | None, Ok r =>
      con ++ [Confirmation
                (mkNotification (r_id r) (r_customerEmail r)
                   (map (fun i => mkNotificationItem (ri_eventName i) (ri_quantity i))
                        (r_items r))
                   (r_totalTickets r) (r_createdAt r))]
  | _, _ => con
  end.
Proof.
  assert (G : forall svc,
    consoleOf (createBooking svc env input idempotencyKey db con) =
    match lookupExisting idempotencyKey db,
          resultOf (createBooking svc env input idempotencyKey db con) with
    | None, Ok r => snd (notify svc (toNotification r) con)
    | _, _ => con
    end).
  { intros s. destruct (lookupExisting idempotencyKey db) as [b|] eqn:L.
    - now rewrite (createBooking_replay _ _ _ _ _ _ _ L).
    - destruct (resultOf (createBooking s env input idempotencyKey db con)) as [r|e] eqn:H.
      + destruct (createBooking_fresh_ok _ _ _ _ _ _ _ L H) as (_ & _ & _ & _ & ->).
        reflexivity.
      + revert H. unfold createBooking, resultOf, consoleOf. rewrite L.
        destruct (transaction _ db) as [[[booking details]|e'] db']; [|reflexivity].
        now destruct (mapDetails _ 0 _). }
  split; [apply G|]. rewrite G.
  destruct (lookupExisting idempotencyKey db); [reflexivity|].
  now destruct (resultOf _).
Qed.

(** ** A retry after the cancellation *)

Lemma find_key_setStatus k id s l :
  find (key_is k) (map (setStatus id s) l) = option_map (setStatus id s) (find (key_is k) l).
Proof.
  induction l as [|b rest IH]; [reflexivity|]. cbn [map find].
  replace (key_is k (setStatus id s b)) with (key_is k b).
  - destruct (key_is k b); [reflexivity | exact IH].
  - unfold key_is, setStatus. now destruct (String.eqb (b_id b) id).
Qed.

(** The cancellation of the booking a createBooking call just created. *)
Lemma cancelBooking_created svc env env2 input key db con r :
  lookupExisting key db = None ->
  resultOf (createBooking svc env input key db con) = Ok r ->
  let db1 := dbOf (createBooking svc env input key db con) in
  let b := mkBooking (env_uuid env) (customerEmail input) CONFIRMED (env_now env)
                     (storedKey key) (lineItems input) in
  let b' := mkBooking (env_uuid env) (customerEmail input) CANCELLED (env_now env)
                      (storedKey key) (lineItems input) in
  let db2 := cancelledDb env2 (env_uuid env) b db1 in
  r_id r = env_uuid env /\
  bookings db1 = bookings db ++ [b] /\
  exists r', cancelBooking env2 (r_id r) db1 = (Ok r', db2) /\
             toBookingResult b' (includeItems db2 b') = Ok r' /\
             r_id r' = env_uuid env /\ r_status r' = CANCELLED /\
             forall eid, availableSeats db2 eid = availableSeats db eid.
Proof.
  intros L H. cbn zeta.
  destruct (createBooking_fresh_ok _ _ _ _ _ _ _ L H) as (F & B & _ & R & ->).
  unfold dbOf. cbn [fst snd].
  apply bookingCreate_ok in B as (_ & _ & PK & _ & _ & FA).
  set (b := mkBooking (env_uuid env) (customerEmail input) CONFIRMED (env_now env)
                      (storedKey key) (lineItems input)) in *.
  set (db1 := mkDb _ (bookings db ++ [b])).
  assert (Rid : r_id r = env_uuid env) by now rewrite R.
  split; [exact Rid|]. split; [reflexivity|].
  assert (FB : findBooking (r_id r) db1 = Some b).
  { unfold findBooking, db1. cbn [bookings]. rewrite Rid.
    rewrite find_app_None by now apply existsb_false_find.
    unfold b. cbn [b_id]. now rewrite String.eqb_refl. }
  pose proof (cancelBooking_confirmed env2 _ _ _ FB eq_refl) as C. cbn zeta in C.
  rewrite C. clear C. rewrite Rid.
  assert (Eb' : setStatus (env_uuid env) CANCELLED b =
                mkBooking (env_uuid env) (customerEmail input) CANCELLED (env_now env)
                          (storedKey key) (lineItems input)).
  { unfold setStatus, b. cbn [b_id]. now rewrite String.eqb_refl. }
  rewrite Eb'.
  destruct (toBookingResult_ok (cancelledDb env2 (env_uuid env) b db1)
              (mkBooking (env_uuid env) (customerEmail input) CANCELLED (env_now env)
                         (storedKey key) (lineItems input))) as (r' & E & Hid & Hst).
  { cbn [b_items]. intros i I.
    exact (fresh_items_exist env input db i FA I (env_now env2) (lineItems input)
             (map (setStatus (env_uuid env) CANCELLED) (bookings db1))). }
  exists r'. rewrite E. split; [reflexivity|]. split; [reflexivity|].
  split; [exact Hid|]. split; [exact Hst|].
  intros eid. rewrite availableSeats_cancelledDb. unfold db1.
  rewrite availableSeats_created by exact F.
  destruct (availableSeats db eid) as [a|]; [|reflexivity]. cbn [option_map]. f_equal.
  unfold b, asked, lineItems. cbn [b_items]. rewrite seatsDelta_lineItems. lia.
Qed.

(** X9. A retry after the cancellation does not book again: when a booking
    made under a non-empty key is cancelled, a later createBooking under that
    key (whatever its input) returns the CANCELLED booking, the projection the
    cancellation returned, and changes nothing; the seats stay where they were
    before the booking was made. *)
Theorem createBooking_retry_after_cancel (svc : NotificationService) (env env2 : Env)
    (input : CreateBookingInput) (K : string) (db : Db) (con : Console)
    (r : BookingResult) :
  K <> "" ->
  findBookingByKey K db = None ->
  resultOf (createBooking svc env input (Some K) db con) = Ok r ->
  let db1 := dbOf (createBooking svc env input (Some K) db con) in
  let db2 := snd (cancelBooking env2 (r_id r) db1) in
  exists r',
    fst (cancelBooking env2 (r_id r) db1) = Ok r' /\
    r_id r' = r_id r /\ r_status r' = CANCELLED /\
    (forall svc3 env3 input3 con3,
       createBooking svc3 env3 input3 (Some K) db2 con3 = (Ok r', db2, con3)) /\
    (forall eid, availableSeats db2 eid = availableSeats db eid).
Proof.
  intros N FK H. cbn zeta.
  assert (L : lookupExisting (Some K) db = None) by now rewrite lookupExisting_key.
  destruct (cancelBooking_created svc env env2 input (Some K) db con r L H)
    as (Rid & Bs & r' & C & P & Hid & Hst & Seats).
  rewrite C. cbn [fst snd]. exists r'. split; [reflexivity|].
  split; [congruence|]. split; [exact Hst|]. split; [|exact Seats].
  intros svc3 env3 input3 con3.
  set (b' := mkBooking (env_uuid env) (customerEmail input) CANCELLED (env_now env)
                       (storedKey (Some K)) (lineItems input)) in *.
  assert (L2 : lookupExisting (Some K)
                 (cancelledDb env2 (env_uuid env)
                    (mkBooking (env_uuid env) (customerEmail input) CONFIRMED (env_now env)
                               (storedKey (Some K)) (lineItems input))
                    (dbOf (createBooking svc env input (Some K) db con))) = Some b').
  { rewrite lookupExisting_key by exact N. unfold findBookingByKey, cancelledDb.
    cbn [bookings]. rewrite find_key_setStatus, Bs.
    unfold findBookingByKey in FK. rewrite (find_app_None _ _ _ FK).
    assert (SK : storedKey (Some K) = Some K).
    { unfold storedKey, truthy. apply String.eqb_neq in N. now rewrite N. }
    unfold key_is at 1. cbn [b_idempotency_key]. rewrite SK, String.eqb_refl.
    cbn [option_map]. unfold setStatus, b'. cbn. now rewrite String.eqb_refl, SK. }
  rewrite (createBooking_replay _ _ _ _ _ _ _ L2). now rewrite P.
Qed.

(** On the seed data: the last seats of the Classical Concert are booked
    under "k1", the booking is cancelled, and the request is sent again. *)
Lemma createBooking_retry_after_cancel_witness :
  let db2 := snd (cancelBooking (mkEnv "c1" 30) "b1" afterLastSeats) in
  "k1" <> "" /\
  exists r',
    fst (cancelBooking (mkEnv "c1" 30) "b1" afterLastSeats) = Ok r' /\
    r_id r' = "b1" /\ r_status r' = CANCELLED /\
    (forall svc3 env3 input3 con3,
       createBooking svc3 env3 input3 (Some "k1") db2 con3 = (Ok r', db2, con3)) /\
    (forall eid, availableSeats db2 eid = availableSeats seed eid).
Proof.
  split; [discriminate|].
  apply (createBooking_retry_after_cancel consoleService (mkEnv "b1" 10) (mkEnv "c1" 30)
           lastSeats "k1" seed []
           (mkResult "b1" "a@test.com" CONFIRMED 10
              [mkResultItem (e_id classicalConcert) "Classical Concert" 2] 2)).
  - discriminate.
  - reflexivity.
  - reflexivity.
Defined.

(** ** What every run keeps *)

Lemma serve_committed req db con : Committed db req (fst (serve req (db, con))).
Proof.
  destruct req as [svc env input key|env id]; cbn [serve fst snd].
  - destruct (lookupExisting key db) as [b|] eqn:L.
    { rewrite (createBooking_replay _ _ _ _ _ _ _ L). constructor. }
    destruct (resultOf (createBooking svc env input key db con)) as [r|e] eqn:H.
    + destruct (createBooking_fresh_ok _ _ _ _ _ _ _ L H) as (F & B & _ & _ & ->).
      unfold dbOf. cbn [fst snd].
      apply bookingCreate_ok in B as (_ & _ & PK & _ & N & _).
      constructor; try assumption.
      * unfold findBooking. now apply existsb_false_find.
      * rewrite <- map_eventId_lineItems. now apply nodupb_NoDup.
    + rewrite (createBooking_fresh_throw _ _ _ _ _ _ _ L H). constructor.
  - destruct (findBooking id db) as [b|] eqn:F.
    + destruct (b_status b) eqn:S.
      * pose proof (cancelBooking_confirmed env _ _ _ F S) as C. cbn zeta in C.
        rewrite C. cbn [snd]. now constructor.
      * rewrite (cancelBooking_cancelled env _ _ _ F S). constructor.
    + rewrite (cancelBooking_absent env _ _ F). constructor.
Qed.

(** A property of the database kept by each commit is kept by every run. *)
Lemma serveAll_keeps (P : Db -> Prop) :
  (forall db req db', P db -> Committed db req db' -> P db') ->
  forall reqs db con, P db -> P (fst (serveAll reqs (db, con))).
Proof.
  intros Step. induction reqs as [|req rest IH]; intros db con H; [exact H|].
  cbn [serveAll fold_left]. pose proof (serve_committed req db con) as C.
  destruct (serve req (db, con)) as [db1 con1]. apply IH. now apply (Step db req).
Qed.

Lemma laterRow_refl b : laterRow b b.
Proof. unfold laterRow. tauto. Qed.

Lemma laterRow_trans a b c : laterRow a b -> laterRow b c -> laterRow a c.
Proof.
  unfold laterRow. intros (A1 & A2 & A3 & A4 & A5 & A6) (B1 & B2 & B3 & B4 & B5 & B6).
  repeat split; try congruence. auto.
Qed.

Lemma laterRow_setStatus id b : laterRow b (setStatus id CANCELLED b).
Proof.
  unfold laterRow, setStatus. destruct (String.eqb (b_id b) id); cbn; tauto.
Qed.

Lemma Forall2_refl_map {A} (R : A -> A -> Prop) (f : A -> A) l :
  (forall x, R x (f x)) -> Forall2 R l (map f l).
Proof. intros H. induction l; cbn; constructor; auto. Qed.

Lemma Forall2_trans {A} (R : A -> A -> Prop) :
  (forall a b c, R a b -> R b c -> R a c) ->
  forall l1 l2 l3, Forall2 R l1 l2 -> Forall2 R l2 l3 -> Forall2 R l1 l3.
Proof.
  intros T l1 l2 l3 F. revert l3. induction F; intros l3 G; inversion G; subst;
    constructor; eauto.
Qed.

Lemma keptRows_step bs db req db' :
  keptRows bs (bookings db) -> Committed db req db' -> keptRows bs (bookings db').
Proof.
  intros (kept & added & E & F) C. destruct C; cbn [bookings cancelledDb].
  - now exists kept, added.
  - exists kept, (added ++ [mkBooking (env_uuid env) (customerEmail input) CONFIRMED
                                     (env_now env) (storedKey key) (lineItems input)]).
    split; [|exact F]. now rewrite E, app_assoc.
  - exists (map (setStatus id CANCELLED) kept), (map (setStatus id CANCELLED) added).
    split; [now rewrite E, map_app|].
    apply (Forall2_trans _ laterRow_trans _ kept); [exact F|].
    apply Forall2_refl_map. apply laterRow_setStatus.
Qed.

(** X10. Bookings are never deleted, rewritten or revived: after any
    sequence of create and cancel requests, every booking stored at the start
    is still stored, in place, with its id, email, creation time, idempotency
    key and line items, and with the status it had or, if it was CONFIRMED,
    possibly CANCELLED; a CANCELLED booking stays CANCELLED. *)
Theorem bookings_only_grow (reqs : list Request) (db : Db) (con : Console) :
  exists kept added,
    bookings (fst (serveAll reqs (db, con))) = kept ++ added /\
    Forall2 laterRow (bookings db) kept.
Proof.
  apply (serveAll_keeps (fun d => keptRows (bookings db) (bookings d))).
  - intros d req d'. apply keptRows_step.
  - exists (bookings db), []. split; [now rewrite app_nil_r|].
    rewrite <- (map_id (bookings db)) at 2. apply Forall2_refl_map, laterRow_refl.
Qed.

Lemma laterEvent_refl e : laterEvent e e.
Proof. unfold laterEvent. tauto. Qed.

Lemma laterEvent_trans a b c : laterEvent a b -> laterEvent b c -> laterEvent a c.
Proof.
  unfold laterEvent. intros (A1 & A2 & A3 & A4 & A5 & A6) (B1 & B2 & B3 & B4 & B5 & B6).
  repeat split; congruence.
Qed.

Lemma laterEvent_setSeats d now id e : laterEvent e (setSeats d now id e).
Proof.
  unfold laterEvent, setSeats. destruct (String.eqb (e_id e) id); cbn; tauto.
Qed.

Lemma laterEvent_adjust {A} (delta : A -> Z) (id : A -> string) now xs :
  forall e, laterEvent e (adjust delta id now xs e).
Proof.
  unfold adjust. induction xs as [|x rest IH]; intros e; cbn [fold_left].
  - apply laterEvent_refl.
  - eapply laterEvent_trans; [apply laterEvent_setSeats | apply IH].
Qed.

Lemma laterEvent_step evs db req db' :
  Forall2 laterEvent evs (events db) -> Committed db req db' ->
  Forall2 laterEvent evs (events db').
Proof.
  intros F C. destruct C; cbn [events cancelledDb decrementedDb]; [exact F| |];
    rewrite applySeats_adjust;
    (apply (Forall2_trans _ laterEvent_trans _ (events db)); [exact F|]);
    apply Forall2_refl_map, laterEvent_adjust.
Qed.

(** X11. The events table is fixed but for the seats: after any sequence of
    create and cancel requests the table holds the same events in the same
    order, each with its id, name, date, venue, total seats and creation time;
    only the available seats (and the update stamp) can differ. *)
Theorem events_only_change_seats (reqs : list Request) (db : Db) (con : Console) :
  Forall2 laterEvent (events db) (events (fst (serveAll reqs (db, con)))).
Proof.
  apply (serveAll_keeps (fun d => Forall2 laterEvent (events db) (events d))).
  - intros d req d'. apply laterEvent_step.
  - rewrite <- (map_id (events db)) at 2. apply Forall2_refl_map, laterEvent_refl.
Qed.

Lemma confirmedSeats_app bs b eid :
  confirmedSeats (bs ++ [b]) eid =
  confirmedSeats bs eid +
  (if BookingStatus_eqb (b_status b) CONFIRMED
   then seatsDelta i_quantity i_event_id (b_items b) eid else 0).
Proof.
  unfold confirmedSeats. induction bs as [|x rest IH]; cbn; [lia|]. rewrite IH. lia.
Qed.

Lemma map_setStatus_other id s bs :
  (forall b, In b bs -> b_id b <> id) -> map (setStatus id s) bs = bs.
Proof.
  intros H. induction bs as [|x rest IH]; [reflexivity|]. cbn [map].
  rewrite IH by (intros b I; apply H; now right). f_equal.
  unfold setStatus. specialize (H x (or_introl eq_refl)).
  apply String.eqb_neq in H. now rewrite H.
Qed.

(** Under the primary key of "bookings", a cancellation releases the seats
    of one booking. *)
Lemma confirmedSeats_cancel id bs b eid :
  NoDup (map b_id bs) ->
  find (fun b => String.eqb (b_id b) id) bs = Some b -> b_status b = CONFIRMED ->
  confirmedSeats (map (setStatus id CANCELLED) bs) eid =
  confirmedSeats bs eid - seatsDelta i_quantity i_event_id (b_items b) eid.
Proof.
  induction bs as [|x rest IH]; [discriminate|].
  intros N F S. inversion N as [|? ? NI N']; subst. cbn [find] in F.
  destruct (String.eqb (b_id x) id) eqn:E.
  - injection F as ->. apply String.eqb_eq in E.
    cbn [map]. rewrite map_setStatus_other.
    2:{ intros y I Ey. apply NI. rewrite E, <- Ey. now apply in_map. }
    unfold confirmedSeats. cbn [map fold_right]. rewrite setStatus_items.
    unfold setStatus. apply String.eqb_eq in E. rewrite E, S. cbn. lia.
  - specialize (IH N' F S). unfold confirmedSeats in *. cbn [map fold_right].
    rewrite IH. unfold setStatus at 1 2. rewrite E. lia.
Qed.

Lemma map_id_setStatus id s bs : map b_id (map (setStatus id s) bs) = map b_id bs.
Proof. rewrite map_map. apply map_ext. intros b. apply setStatus_id. Qed.

Lemma NoDup_snoc {A} (l : list A) x : NoDup l -> ~ In x l -> NoDup (l ++ [x]).
Proof.
  induction l as [|y rest IH]; cbn; intros N NI.
  - constructor; [intros [] | constructor].
  - inversion N as [|? ? NI' N']; subst. constructor.
    + rewrite in_app_iff. cbn. intuition congruence.
    + apply IH; [exact N' | tauto].
Qed.

Lemma findBooking_None_ids id db :
  findBooking id db = None -> ~ In id (map b_id (bookings db)).
Proof.
  intros F I. apply in_map_iff in I as (b & E & I).
  now apply (proj1 (findBooking_None id db) F b I).
Qed.

Lemma booking_ids_step db req db' :
  NoDup (map b_id (bookings db)) -> Committed db req db' ->
  NoDup (map b_id (bookings db')).
Proof.
  intros N C. destruct C; cbn [bookings cancelledDb].
  - exact N.
  - rewrite map_app. cbn [map b_id]. apply NoDup_snoc; [exact N|].
    now apply findBooking_None_ids.
  - now rewrite map_id_setStatus.
Qed.

Lemma ledger_step db req db' eid :
  NoDup (map b_id (bookings db)) -> Committed db req db' ->
  ledger db' eid = ledger db eid.
Proof.
  intros N C. destruct C as [req|svc env input key L F PK ND|env id b F S]; [reflexivity| |];
    unfold ledger.
  - rewrite availableSeats_created by exact F. cbn [bookings].
    rewrite confirmedSeats_app. cbn [b_status b_items BookingStatus_eqb].
    unfold lineItems, asked. rewrite seatsDelta_lineItems.
    destruct (availableSeats db eid); [|reflexivity]. cbn [option_map]. f_equal. lia.
  - rewrite availableSeats_cancelledDb. unfold cancelledDb. cbn [bookings].
    rewrite (confirmedSeats_cancel id _ b eid N F S).
    destruct (availableSeats db eid); [|reflexivity]. cbn [option_map]. f_equal. lia.
Qed.

(** X12. Seats are conserved: given the primary key of "bookings", after any
    sequence of create and cancel requests, whatever they ask and whether
    they fail or not, every event has the same ledger as at the start: its
    available seats plus the seats its CONFIRMED bookings hold. A seat leaves
    the available seats only into a CONFIRMED booking and comes back only out
    of one. *)
Theorem seats_conserved (reqs : list Request) (db : Db) (con : Console) :
  NoDup (map b_id (bookings db)) ->
  forall eid, ledger (fst (serveAll reqs (db, con))) eid = ledger db eid.
Proof.
  intros N.
  assert (G : NoDup (map b_id (bookings (fst (serveAll reqs (db, con))))) /\
              forall eid, ledger (fst (serveAll reqs (db, con))) eid = ledger db eid).
  { apply (serveAll_keeps (fun d => NoDup (map b_id (bookings d)) /\
                                    forall eid, ledger d eid = ledger db eid)).
    - intros d req d' [Nd Ld] C. split; [now apply (booking_ids_step d req)|].
      intros eid. rewrite <- Ld. now apply (ledger_step d req).
    - now split. }
  apply G.
Qed.

(** On the seed data, along the sample run: the Classical Concert has two
    seats in its ledger throughout. *)
Lemma seats_conserved_witness :
  ledger (fst (serveAll sampleRun (seed, []))) (e_id classicalConcert) = Some 2.
Proof.
  apply (seats_conserved sampleRun seed [] (NoDup_nil _) (e_id classicalConcert)).
Defined.

(** ** The constraints of the tables *)

Lemma storedKeys_setStatus id s bs : storedKeys (map (setStatus id s) bs) = storedKeys bs.
Proof.
  unfold storedKeys. induction bs as [|b rest IH]; [reflexivity|].
  cbn [map flat_map]. rewrite IH. f_equal.
  unfold setStatus. now destruct (String.eqb (b_id b) id).
Qed.







(** ** From the schema to the engine *)

Section HandlerFacts.
Variables isEmail isUuid : string -> bool.

Lemma BookingItemSchema_Some item i :
  BookingItemSchema isUuid item = Some i ->
  isUuid (raw_eventId item) = true /\
  eventId i = raw_eventId item /\
  raw_quantity item = JsInteger (quantity i) /\
  1 <= quantity i <= 3.
Proof.
  unfold BookingItemSchema. destruct (isUuid (raw_eventId item)); [|discriminate].
  destruct (raw_quantity item) as [q|]; [|discriminate].
  destruct ((1 <=? q) && (q <=? 3)) eqn:R; [|discriminate].
  intros [= <-]. apply andb_true_iff in R as [R1 R2]. cbn [eventId quantity].
  repeat split; try reflexivity; lia.
Qed.

Lemma parseItems_Forall2 l : forall its,
  parseItems isUuid l = Some its ->
  Forall2 (fun item i => BookingItemSchema isUuid item = Some i) l its.
Proof.
  induction l as [|item rest IH]; cbn [parseItems]; intros its H.
  - injection H as <-. constructor.
  - destruct (BookingItemSchema isUuid item) as [i|] eqn:B; [|discriminate].
    destruct (parseItems isUuid rest) as [r|]; [|discriminate].
    injection H as <-. constructor; [exact B | now apply IH].
Qed.

Lemma CreateBookingSchema_Some body data :
  CreateBookingSchema isEmail isUuid body = Some data ->
  isEmail (raw_customerEmail body) = true /\
  customerEmail data = raw_customerEmail body /\
  Forall2 (fun item i => BookingItemSchema isUuid item = Some i)
          (raw_items body) (items data) /\
  (1 <= length (items data) <= 20)%nat /\
  NoDup (map eventId (items data)).
Proof.
  unfold CreateBookingSchema. destruct (isEmail (raw_customerEmail body)); [|discriminate].
  destruct (parseItems isUuid (raw_items body)) as [its|] eqn:P; [|discriminate].
  destruct ((1 <=? length its)%nat && (length its <=? 20)%nat) eqn:Len; [|discriminate].
  destruct (setSize (map eventId its) =? length (map eventId its))%nat eqn:S; [|discriminate].
  intros [= <-]. cbn [customerEmail items].
  apply andb_true_iff in Len as [L1 L2].
  apply Nat.leb_le in L1. apply Nat.leb_le in L2. apply Nat.eqb_eq in S.
  split; [reflexivity|]. split; [reflexivity|]. split; [now apply parseItems_Forall2|].
  split; [lia|]. now apply setSize_NoDup.
Qed.

(** X14. What the schema hands to the engine: when CreateBookingSchema
    accepts a body, the parsed input is the body field by field (the email,
    and the items in order with their event ids and quantities), the email and
    the event ids passed the string checks, and the input meets the
    preconditions of the engine: 1 to 20 items, every quantity an integer
    from 1 to 3, no event listed twice. *)
Theorem CreateBookingSchema_output (body : RawBody) (data : CreateBookingInput) :
  CreateBookingSchema isEmail isUuid body = Some data ->
  customerEmail data = raw_customerEmail body /\
  map eventId (items data) = map raw_eventId (raw_items body) /\
  map (fun item => JsInteger (quantity item)) (items data) =
  map raw_quantity (raw_items body) /\
  isEmail (customerEmail data) = true /\
  Forall (fun item => isUuid (eventId item) = true) (items data) /\
  (1 <= length (items data) <= 20)%nat /\
  schema_preconditions data.
Proof.
  intros H. apply CreateBookingSchema_Some in H as (E & C & F & Len & N).
  unfold schema_preconditions. rewrite C.
  assert (G : map eventId (items data) = map raw_eventId (raw_items body) /\
              map (fun item => JsInteger (quantity item)) (items data) =
              map raw_quantity (raw_items body) /\
              Forall (fun item => isUuid (eventId item) = true) (items data) /\
              Forall (fun item => 1 <= quantity item <= 3) (items data)).
  { clear Len N. induction F as [|item i l its B F IH].
    - repeat split; constructor.
    - apply BookingItemSchema_Some in B as (U & Ei & Q & R).
      destruct IH as (I1 & I2 & I3 & I4). cbn [map].
      rewrite I1, I2, Ei, Q. repeat split; constructor; try assumption.
      now rewrite Ei. }
  destruct G as (G1 & G2 & G3 & G4). repeat split; assumption || lia.
Qed.

(** X15. POST /bookings on an accepted body answers 201, 404 or 409 and
    nothing else, given the foreign key of the line items and an id for the
    booking that is new: 201 with the stored booking when the Idempotency-Key
    header names one; otherwise 404 or 409 by the first offending item, the
    database and the console untouched; otherwise 201 with a new CONFIRMED
    booking whose ticket total is the sum of the quantities of the body. *)
Theorem postBookings_replies (svc : NotificationService) (env : Env) (body : RawBody)
    (header : option string) (db : Db) (con : Console) (data : CreateBookingInput) :
  CreateBookingSchema isEmail isUuid body = Some data ->
  foreignKeys db ->
  (forall b, In b (bookings db) -> b_id b <> env_uuid env) ->
  let key := if truthy header then header else None in
  let out := postBookings isEmail isUuid svc env body header db con in
  (exists b r, lookupExisting key db = Some b /\
               out = (Reply201 r, db, con) /\ projects b r) \/
  (lookupExisting key db = None /\
   exists item, firstOffending db (items data) = Some item /\
                findEvent (eventId item) db = None /\
                out = (Reply404 (eventId item), db, con)) \/
  (lookupExisting key db = None /\
   exists item ev, firstOffending db (items data) = Some item /\
                   findEvent (eventId item) db = Some ev /\
                   out = (Reply409 (eventId item) (quantity item) (e_available_seats ev),
                          db, con)) \/
  (lookupExisting key db = None /\ firstOffending db (items data) = None /\
   exists r, resultOf out = Reply201 r /\
             r_id r = env_uuid env /\ r_status r = CONFIRMED /\
             r_totalTickets r = fold_right Z.add 0 (map quantity (items data))).
Proof.
  intros A FK PK. cbn zeta. unfold postBookings. rewrite A.
  apply CreateBookingSchema_Some in A as (_ & _ & _ & _ & N).
  set (key := if truthy header then header else None).
  destruct (lookupExisting key db) as [b|] eqn:L.
  - left. rewrite (createBooking_replay _ _ _ _ _ _ _ L).
    destruct (toBookingResult_ok db b) as (r & R & _).
    { apply FK. now apply (lookupExisting_In key). }
    exists b, r. rewrite R. split; [reflexivity|]. split; [reflexivity|].
    now apply (toBookingResult_projects db).
  - right. destruct (firstOffending db (items data)) as [item|] eqn:F.
    + rewrite (createBooking_fresh_offending _ _ _ _ _ _ _ L F).
      destruct (findEvent (eventId item) db) as [ev|] eqn:Fe.
      * right. left. split; [reflexivity|]. exists item, ev. now repeat split.
      * left. split; [reflexivity|]. exists item. now repeat split.
    + right. right. split; [reflexivity|]. split; [reflexivity|].
      destruct (createBooking_fresh_succeeds svc env data key db con L F N) as (r & H).
      { now apply findBooking_None. }
      destruct (createBooking_fresh_ok _ _ _ _ _ _ _ L H) as (_ & _ & _ & R & ->).
      exists r. split; [reflexivity|]. rewrite R.
      cbn [r_id r_status r_totalTickets]. split; [reflexivity|]. split; [reflexivity|].
      rewrite totalQuantity_sum. unfold lineItems. now rewrite map_map.
Qed.

End HandlerFacts.

(** With string checks that accept everything, on the two-event body of
    the tests. *)
Lemma CreateBookingSchema_output_witness :
  let accept := fun _ : string => true in
  let body := mkRawBody "test@example.com"
                [mkRawItem "00000000-0000-0000-0000-000000000001" (JsInteger 3);
                 mkRawItem "00000000-0000-0000-0000-000000000002" (JsInteger 1)] in
  let data := mkInput "test@example.com"
                [mkItemInput "00000000-0000-0000-0000-000000000001" 3;
                 mkItemInput "00000000-0000-0000-0000-000000000002" 1] in
  CreateBookingSchema accept accept body = Some data /\
  customerEmail data = raw_customerEmail body /\
  map eventId (items data) = map raw_eventId (raw_items body) /\
  map (fun item => JsInteger (quantity item)) (items data) =
  map raw_quantity (raw_items body) /\
  accept (customerEmail data) = true /\
  Forall (fun item => accept (eventId item) = true) (items data) /\
  (1 <= length (items data) <= 20)%nat /\
  schema_preconditions data.
Proof.
  split; [reflexivity|].
  apply (CreateBookingSchema_output (fun _ => true) (fun _ => true)
           (mkRawBody "test@example.com"
              [mkRawItem "00000000-0000-0000-0000-000000000001" (JsInteger 3);
               mkRawItem "00000000-0000-0000-0000-000000000002" (JsInteger 1)])).
  reflexivity.
Defined.

(** On the seed data, with string checks that accept everything: the body
    of the last seats of the Classical Concert, under the header "k1". *)
Lemma postBookings_replies_witness :
  let accept := fun _ : string => true in
  let env := mkEnv "b1" 10 in
  let body := mkRawBody "a@test.com" [mkRawItem (e_id classicalConcert) (JsInteger 2)] in
  let data := lastSeats in
  let key := Some "k1" in
  let out := postBookings accept accept consoleService env body (Some "k1") seed [] in
  CreateBookingSchema accept accept body = Some data /\
  ((exists b r, lookupExisting key seed = Some b /\
                out = (Reply201 r, seed, []) /\ projects b r) \/
   (lookupExisting key seed = None /\
    exists item, firstOffending seed (items data) = Some item /\
                 findEvent (eventId item) seed = None /\
                 out = (Reply404 (eventId item), seed, [])) \/
   (lookupExisting key seed = None /\
    exists item ev, firstOffending seed (items data) = Some item /\
                    findEvent (eventId item) seed = Some ev /\
                    out = (Reply409 (eventId item) (quantity item) (e_available_seats ev),
                           seed, [])) \/
   (lookupExisting key seed = None /\ firstOffending seed (items data) = None /\
    exists r, resultOf out = Reply201 r /\
              r_id r = env_uuid env /\ r_status r = CONFIRMED /\
              r_totalTickets r = fold_right Z.add 0 (map quantity (items data)))).
Proof.
  split; [reflexivity|].
  apply (postBookings_replies (fun _ => true) (fun _ => true) consoleService
           (mkEnv "b1" 10)
           (mkRawBody "a@test.com" [mkRawItem (e_id classicalConcert) (JsInteger 2)])
           (Some "k1") seed [] lastSeats).
  - reflexivity.
  - intros b [].
  - intros b [].
Defined.

(** ** The listings *)

Lemma insertBy_Permutation {A} (before : A -> A -> bool) x l :
  Permutation (insertBy before x l) (x :: l).
Proof.
  induction l as [|y rest IH]; cbn [insertBy]; [reflexivity|].
  destruct (before y x); [|reflexivity].
  rewrite IH. apply perm_swap.
Qed.

Lemma orderBy_Permutation {A} (before : A -> A -> bool) l :
  Permutation (orderBy before l) l.
Proof.
  induction l as [|x rest IH]; cbn [orderBy fold_right]; [reflexivity|].
  fold (orderBy before rest). rewrite insertBy_Permutation. now constructor.
Qed.


Section OrderByKey.
Context {A : Type} (key : A -> Z).

Lemma insertBy_sorted x l :
  StronglySorted (fun a b => key a <= key b) l ->
  StronglySorted (fun a b => key a <= key b) (insertBy (fun y x => key y <? key x) x l).
Proof.
  induction l as [|y rest IH]; cbn [insertBy]; intros S.
  - constructor; constructor.
  - inversion S as [|? ? S' F]; subst.
    destruct (key y <? key x) eqn:E.
    + apply Z.ltb_lt in E. constructor; [now apply IH|].
      rewrite (insertBy_Permutation _ x rest). constructor; [lia | exact F].
    + apply Z.ltb_ge in E. constructor; [exact S|].
      constructor; [exact E|]. eapply Forall_impl; [|exact F]. cbn. intros. lia.
Qed.

Lemma orderBy_sorted l :
  StronglySorted (fun a b => key a <= key b) (orderBy (fun y x => key y <? key x) l).
Proof.
  induction l as [|x rest IH]; cbn [orderBy fold_right]; [constructor|].
  now apply insertBy_sorted.
Qed.

End OrderByKey.

Lemma StronglySorted_map {A B} (f : A -> B) (R : B -> B -> Prop) l :
  StronglySorted (fun a b => R (f a) (f b)) l -> StronglySorted R (map f l).
Proof.
  induction 1 as [|x l S IH F]; cbn [map]; constructor; [exact IH|].
  now apply Forall_map.
Qed.

(** X16. GET /events lists every event of the table exactly once, with its
    id, name, date, venue, total seats and current available seats, the
    earliest date first. *)
Theorem getEvents_lists_by_date (db : Db) :
  Permutation (getEvents db) (map selectEvent (events db)) /\
  StronglySorted (fun a b => v_date a <= v_date b) (getEvents db).
Proof.
  unfold getEvents. split.
  - apply Permutation_map, orderBy_Permutation.
  - apply StronglySorted_map. cbn [selectEvent v_date].
    apply (orderBy_sorted e_date).
Qed.



(** ** listBookings *)



Lemma projectAll_Forall2 db bs : forall rs,
  projectAll db bs = Ok rs <->
  Forall2 (fun b r => toBookingResult b (includeItems db b) = Ok r) bs rs.
Proof.
  induction bs as [|b rest IH]; cbn [projectAll]; intros rs.
  - split; [intros [= <-]; constructor | intros H; now inversion H].
  - destruct (toBookingResult b (includeItems db b)) as [r|e] eqn:T.
    + destruct (projectAll db rest) as [rs'|e].
      * split.
        -- intros [= <-]. constructor; [exact T | now apply IH].
        -- intros H. inversion H as [|? r' ? rs'' Er F]; subst.
           apply IH in F. congruence.
      * split; [discriminate|]. intros H. inversion H as [|? r' ? rs'' Er F]; subst.
        now apply IH in F.
    + split; [discriminate|]. intros H. inversion H. congruence.
Qed.

Lemma Forall2_In_r {A B} (P : A -> B -> Prop) l r y :
  Forall2 P l r -> In y r -> exists x, In x l /\ P x y.
Proof.
  induction 1 as [|a b l r H F IH]; intros I; [contradiction|].
  destruct I as [->|I]; [exists a; split; [now left | exact H]|].
  destruct (IH I) as (x & Ix & Px). exists x. split; [now right | exact Px].
Qed.


(** The queries the embedding covers, and what listBookings computes on
    them. *)
Lemma listBookings_Some filters pagination db l :
  listBookings filters pagination db = Some (Ok l) ->
  let page := match p_page pagination with Some p => p | None => 1 end in
  let limit := match p_limit pagination with Some l => l | None => 20 end in
  let total := bookingCount (whereOf filters) db in
  1 <= page /\ 1 <= limit /\
  projectAll db (bookingFindMany (whereOf filters) ((page - 1) * limit) limit db) =
  Ok (l_data l) /\
  l_pagination l = mkPageInfo page limit total (ceilDiv total limit).
Proof.
  unfold listBookings. cbn zeta.
  set (page := match p_page pagination with Some p => p | None => 1 end).
  set (limit := match p_limit pagination with Some l => l | None => 20 end).
  destruct ((0 <=? (page - 1) * limit) && (1 <=? limit) && _) eqn:G; [|discriminate].
  apply andb_true_iff in G as [G _]. apply andb_true_iff in G as [G1 G2].
  apply Z.leb_le in G1. apply Z.leb_le in G2.
  destruct (projectAll db _) as [data|e]; [|discriminate].
  intros [= <-]. cbn [l_data l_pagination]. repeat split; try assumption. nia.
Qed.




















(** ** Concurrent units: any quantities *)

Lemma ticketsSold_Permutation l l' : Permutation l l' -> ticketsSold l = ticketsSold l'.
Proof.
  unfold ticketsSold. induction 1; cbn [map fold_right]; lia.
Qed.

(** One call without key, on the seats of one event. *)
Lemma single_accounts env input e q db a :
  items input = [mkItemInput e q] ->
  availableSeats db e = Some a -> 0 <= a ->
  let out := createBooking consoleService env input None db [] in
  exists a', availableSeats (dbOf out) e = Some a' /\ 0 <= a' /\
             a' + ticketsOf (Some (resultOf out)) = a.
Proof.
  intros I A P. cbn zeta.
  destruct (resultOf (createBooking consoleService env input None db [])) as [r|err] eqn:H.
  - destruct (createBooking_fresh_ok consoleService env input None db [] r eq_refl H)
      as (F & _ & _ & R & ->).
    unfold dbOf. cbn [fst snd].
    rewrite availableSeats_created by exact F. rewrite A. cbn [option_map].
    assert (Q : asked input e = q).
    { unfold asked, seatsDelta. rewrite I. cbn. rewrite String.eqb_refl. cbn. lia. }
    assert (T : r_totalTickets r = q).
    { rewrite R. cbn [r_totalTickets]. unfold lineItems. rewrite I. reflexivity. }
    assert (Le : q <= a).
    { destruct (firstOffending_None db (items input) (mkItemInput e q) F) as (ev & Fe & Le).
      { rewrite I. now left. }
      cbn [eventId quantity] in *. unfold availableSeats in A. rewrite Fe in A.
      injection A as <-. exact Le. }
    exists (a - q). rewrite Q. cbn [ticketsOf]. rewrite T.
    split; [reflexivity|]. lia.
  - rewrite (createBooking_fresh_throw consoleService env input None db [] err eq_refl H).
    exists a. cbn [ticketsOf]. split; [exact A|]. lia.
Qed.

Lemma serial_accounts e reqs : forall db a,
  (forall req, In req reqs -> exists q, asks e req q) ->
  availableSeats db e = Some a -> 0 <= a ->
  exists a', availableSeats (snd (serial reqs db)) e = Some a' /\ 0 <= a' /\
             a' + ticketsSold (map Some (fst (serial reqs db))) = a.
Proof.
  induction reqs as [|req rest IH]; intros db a Hasks A P.
  - exists a. cbn. split; [exact A|]. lia.
  - destruct (Hasks req (or_introl eq_refl)) as (q & Q).
    destruct (single_accounts (fst req) (snd req) e q db a Q A P) as (a1 & A1 & P1 & E1).
    cbn [serial].
    destruct (IH (dbOf (createBooking consoleService (fst req) (snd req) None db [])) a1)
      as (a' & A' & P' & E'); try assumption.
    { intros x I. apply Hasks. now right. }
    destruct (serial rest _) as [rs db']. cbn [fst snd] in *.
    exists a'. split; [exact A'|]. split; [exact P'|].
    unfold ticketsSold in *. cbn [map fold_right]. lia.
Qed.

(** A complete run of units on one event, as a serial run. *)
Lemma complete_run_serial e db0 reqs sched :
  (forall req, In req reqs -> exists q, asks e req q) ->
  findEvent e db0 <> None ->
  let c := run sched (initial db0 reqs) in
  complete c ->
  exists order results,
    Permutation order reqs /\
    serial order db0 = (results, committed c) /\
    Permutation (map Some results) (map returned (units c)).
Proof.
  intros Hasks Hev c Hc.
  apply findEvent_rows in Hev.
  destruct (run_serialized e db0 reqs Hasks sched _ _ _ _
              (initial_serialized e db0 reqs Hev)) as (done & act & results & S).
  fold c in S.
  destruct (complete_serialized e db0 reqs c done act results S Hc) as (-> & Ed & P).
  exists (map (fun i => nth i reqs noRequest) done), results.
  destruct S as (_ & _ & _ & Hreq & _ & Hser & Hres & _).
  split; [|split; [exact Hser|]].
  - apply Permutation_trans
      with (map (fun i => nth i reqs noRequest) (seq 0 (length reqs))).
    + now apply Permutation_map.
    + pose proof (map_nth_seq noRequest reqs []) as X. cbn [length app] in X.
      rewrite X. apply Permutation_refl.
  - assert (Hret : map (returnedAt c) done = map Some results).
    { clear - Hres. induction Hres as [|i r l rs (u & Hu & Hpc) F IH]; cbn; [reflexivity|].
      rewrite IH. f_equal. unfold returnedAt, returned. now rewrite Hu, Hpc. }
    rewrite <- Hret, <- map_returnedAt.
    assert (Hn : length (units c) = length reqs) by now rewrite <- Hreq, length_map.
    rewrite Hn. now apply Permutation_map.
Qed.

(** X20. No oversell for any quantities: when concurrent createBooking
    calls (without idempotency key) each ask seats of one event, whatever the
    quantities and the schedule, a run in which every call has returned leaves
    the event with its initial available seats minus the tickets of the
    bookings that were returned, and that number is not negative: the
    bookings returned never hold more seats than were available. *)
Theorem concurrent_seats_accounted (e : string) (db0 : Db)
    (reqs : list (Env * CreateBookingInput)) (sched : list nat) (a : Z) :
  (forall req, In req reqs -> exists q, asks e req q) ->
  availableSeats db0 e = Some a -> 0 <= a ->
  let c := run sched (initial db0 reqs) in
  complete c ->
  exists a', availableSeats (committed c) e = Some a' /\ 0 <= a' /\
             a' + ticketsSold (map returned (units c)) = a.
Proof.
  intros Hasks A P c Hc.
  assert (Hev : findEvent e db0 <> None).
  { unfold availableSeats in A. now destruct (findEvent e db0). }
  destruct (complete_run_serial e db0 reqs sched Hasks Hev Hc)
    as (order & results & Po & Hser & Pr).
  destruct (serial_accounts e order db0 a) as (a' & A' & P' & E'); try assumption.
  { intros req I. apply Hasks. now apply Permutation_in with order. }
  rewrite Hser in A', E'. cbn [fst snd] in A', E'.
  exists a'. split; [exact A'|]. split; [exact P'|].
  now rewrite (ticketsSold_Permutation _ _ Pr) in E'.
Qed.

(** The stress script on the seed data, under the round-robin schedule: the
    two seats of the Classical Concert are accounted for. *)
Lemma concurrent_seats_accounted_witness :
  let c := run roundRobin (initial seed stressRequests) in
  complete c /\
  exists a', availableSeats (committed c) (e_id classicalConcert) = Some a' /\ 0 <= a' /\
             a' + ticketsSold (map returned (units c)) = 2.
Proof.
  cbv zeta. split; [exact roundRobin_complete|].
  apply (concurrent_seats_accounted (e_id classicalConcert) seed stressRequests roundRobin 2).
  - intros req H. exists 1. now apply stressRequests_ask.
  - reflexivity.
  - lia.
  - exact roundRobin_complete.
Defined.

(** ** Keys, errors and listings *)

Lemma storedKey_nonempty key k : storedKey key = Some k -> k <> "".
Proof.
  unfold storedKey, truthy. destruct key as [s|]; [|discriminate].
  destruct (String.eqb s "") eqn:E; [discriminate|]. cbn [negb].
  intros [= <-]. now apply String.eqb_neq.
Qed.

Lemma storedKeys_step db req db' :
  Forall (fun k => k <> "") (storedKeys (bookings db)) -> Committed db req db' ->
  Forall (fun k => k <> "") (storedKeys (bookings db')).
Proof.
  intros F C. destruct C; cbn [bookings cancelledDb].
  - exact F.
  - unfold storedKeys. rewrite flat_map_app. apply Forall_app. split; [exact F|].
    cbn [flat_map b_idempotency_key]. rewrite app_nil_r.
    destruct (storedKey key) as [k|] eqn:K; [|constructor].
    constructor; [now apply (storedKey_nonempty key) | constructor].
  - now rewrite storedKeys_setStatus.
Qed.

Lemma In_storedKeys b bs k :
  In b bs -> b_idempotency_key b = Some k -> In k (storedKeys bs).
Proof.
  intros I K. unfold storedKeys. apply in_flat_map. exists b. split; [exact I|].
  rewrite K. now left.
Qed.

(** X21. No booking is ever stored under the empty key, so every stored key
    replays: if no stored idempotency key is the empty string at the start,
    none is after any sequence of create and cancel requests, and a
    createBooking call under the key of any stored booking is then answered
    from the idempotency lookup, with the database and the console
    untouched. *)
Theorem stored_keys_replay (reqs : list Request) (db : Db) (con : Console) :
  Forall (fun k => k <> "") (storedKeys (bookings db)) ->
  let db' := fst (serveAll reqs (db, con)) in
  Forall (fun k => k <> "") (storedKeys (bookings db')) /\
  forall b k, In b (bookings db') -> b_idempotency_key b = Some k ->
    lookupExisting (Some k) db' <> None /\
    forall svc env input con',
      dbOf (createBooking svc env input (Some k) db' con') = db' /\
      consoleOf (createBooking svc env input (Some k) db' con') = con'.
Proof.
  intros F. cbn zeta.
  assert (F' : Forall (fun k => k <> "") (storedKeys (bookings (fst (serveAll reqs (db, con)))))).
  { apply (serveAll_keeps (fun d => Forall (fun k => k <> "") (storedKeys (bookings d))));
      [|exact F].
    intros d req d'. apply storedKeys_step. }
  split; [exact F'|]. intros b k I K.
  set (db' := fst (serveAll reqs (db, con))) in *.
  assert (N : k <> "").
  { rewrite Forall_forall in F'. apply F'. now apply (In_storedKeys b). }
  assert (L : lookupExisting (Some k) db' <> None).
  { rewrite lookupExisting_key by exact N. unfold findBookingByKey. intros X.
    pose proof (find_none _ _ X b I) as Y. unfold key_is in Y.
    now rewrite K, String.eqb_refl in Y. }
  split; [exact L|]. intros svc env input con'.
  destruct (lookupExisting (Some k) db') as [b'|] eqn:E; [|contradiction].
  now rewrite (createBooking_replay _ _ _ _ _ _ _ E).
Qed.

Lemma stored_keys_replay_witness :
  let db' := afterSampleRun in
  Forall (fun k => k <> "") (storedKeys (bookings db')) /\
  forall b k, In b (bookings db') -> b_idempotency_key b = Some k ->
    lookupExisting (Some k) db' <> None /\
    forall svc env input con',
      dbOf (createBooking svc env input (Some k) db' con') = db' /\
      consoleOf (createBooking svc env input (Some k) db' con') = con'.
Proof.
  apply (stored_keys_replay sampleRun seed []). constructor.
Defined.



(** X23. The listing and the detail agree: under the primary key of
    "bookings", every booking shown on a page of listBookings is what
    getBooking returns for its id. *)
Theorem listBookings_rows_read_back (filters : ListFilters) (pagination : ListPagination)
    (db : Db) (l : Listing) :
  NoDup (map b_id (bookings db)) ->
  listBookings filters pagination db = Some (Ok l) ->
  forall r, In r (l_data l) -> getBooking (r_id r) db = Ok r.
Proof.
  intros N H r I. apply listBookings_Some in H as (_ & _ & D & _).
  apply projectAll_Forall2 in D.
  destruct (Forall2_In_r _ _ _ _ D I) as (b & Ib & T).
  assert (Ib' : In b (bookings db)).
  { unfold bookingFindMany in Ib.
    assert (X : In b (filter (matches (whereOf filters)) (bookings db))).
    { rewrite <- (orderBy_Permutation createdAtDesc).
      rewrite <- (firstn_skipn (Z.to_nat
                    ((match p_page pagination with Some p => p | None => 1 end - 1) *
                     match p_limit pagination with Some l => l | None => 20 end))).
      apply in_or_app. right.
      rewrite <- (firstn_skipn (Z.to_nat
                    match p_limit pagination with Some l => l | None => 20 end)
                    (skipn _ _)).
      apply in_or_app. now left. }
    now apply filter_In in X. }
  rewrite (toBookingResult_id _ _ _ T). unfold getBooking, findBooking.
  now rewrite (find_NoDup_booking _ _ N Ib').
Qed.

Lemma listBookings_rows_read_back_witness :
  let l := mkListing
             [mkResult "b1" "a@test.com" CANCELLED 10
                [mkResultItem (e_id classicalConcert) "Classical Concert" 2] 2]
             (mkPageInfo 2 1 2 2) in
  NoDup (map b_id (bookings afterSampleRun)) /\
  listBookings (mkFilters (Some "a@test.com") None) (mkPagination (Some 2) (Some 1))
               afterSampleRun = Some (Ok l) /\
  forall r, In r (l_data l) -> getBooking (r_id r) afterSampleRun = Ok r.
Proof.
  assert (N : NoDup (map b_id (bookings afterSampleRun))).
  { vm_compute. repeat constructor; cbn; intuition discriminate. }
  split; [exact N|]. split; [reflexivity|].
  apply (listBookings_rows_read_back (mkFilters (Some "a@test.com") None)
           (mkPagination (Some 2) (Some 1)) afterSampleRun).
  - exact N.
  - reflexivity.
Defined.

(** ** The response of a retry *)

(** The booking a createBooking call just created, read through [include]
    in the state the call leaves, projects to the result of the call. *)
Lemma created_projection svc env input key db con r :
  lookupExisting key db = None ->
  resultOf (createBooking svc env input key db con) = Ok r ->
  let b := mkBooking (env_uuid env) (customerEmail input) CONFIRMED (env_now env)
                     (storedKey key) (lineItems input) in
  let db1 := dbOf (createBooking svc env input key db con) in
  bookings db1 = bookings db ++ [b] /\
  toBookingResult b (includeItems db1 b) = Ok r.
Proof.
  intros L H. cbn zeta.
  destruct (createBooking_fresh_ok _ _ _ _ _ _ _ L H) as (F & _ & M & R & ->).
  unfold dbOf. cbn [fst snd bookings]. split; [reflexivity|].
  unfold toBookingResult, includeItems.
  cbn [b_items b_id b_customer_email b_status b_created_at].
  destruct (mapDetails_validated db (items input) [] F) as (ris & M' & F2).
  cbn [length app] in M'. unfold lineItems in M. rewrite M in M'. injection M' as <-.
  unfold lineItems.
  rewrite (mapItems_validated db _ (items input) (r_items r)); [|
    intros id ev Fe; now apply decremented_names | exact F2].
  rewrite map_map. cbn [includeEvent fst]. rewrite map_id.
  symmetry. f_equal. exact R.
Qed.

(** X24. A retry gets the response of the original call: after a
    createBooking call under a non-empty idempotency key has returned a
    booking, a second call under that key, whatever its input, returns the
    very same projection (not only the same id) and leaves the database and
    the console as they are. *)
Theorem createBooking_retry_same_response (svc : NotificationService) (env : Env)
    (input : CreateBookingInput) (K : string) (db : Db) (con : Console)
    (r : BookingResult) :
  K <> "" ->
  resultOf (createBooking svc env input (Some K) db con) = Ok r ->
  let db1 := dbOf (createBooking svc env input (Some K) db con) in
  forall svc2 env2 input2 con2,
    createBooking svc2 env2 input2 (Some K) db1 con2 = (Ok r, db1, con2).
Proof.
  intros N H. cbn zeta. intros svc2 env2 input2 con2.
  destruct (lookupExisting (Some K) db) as [b|] eqn:L.
  - rewrite (createBooking_replay _ _ _ _ _ _ _ L) in *.
    unfold resultOf, dbOf in *. cbn [fst snd] in *.
    rewrite (createBooking_replay _ _ _ _ _ _ _ L). now rewrite H.
  - destruct (created_projection svc env input (Some K) db con r L H) as [Bs P].
    cbn zeta in Bs, P.
    set (db1 := dbOf (createBooking svc env input (Some K) db con)) in *.
    assert (L1 : lookupExisting (Some K) db1 =
                 Some (mkBooking (env_uuid env) (customerEmail input) CONFIRMED
                                 (env_now env) (storedKey (Some K)) (lineItems input))).
    { rewrite lookupExisting_key in * by exact N. unfold findBookingByKey in *.
      rewrite Bs, (find_app_None _ _ _ L).
      assert (SK : storedKey (Some K) = Some K).
      { unfold storedKey, truthy. apply String.eqb_neq in N. now rewrite N. }
      unfold key_is at 1. cbn [b_idempotency_key]. now rewrite SK, String.eqb_refl. }
    rewrite (createBooking_replay _ _ _ _ _ _ _ L1). now rewrite P.
Qed.

(** On the seed data: the request for the last seats of the Classical
    Concert under "k1", then any request under "k1". *)
Lemma createBooking_retry_same_response_witness :
  "k1" <> "" /\
  forall svc2 env2 input2 con2,
    createBooking svc2 env2 input2 (Some "k1") afterLastSeats con2 =
    (Ok (mkResult "b1" "a@test.com" CONFIRMED 10
           [mkResultItem (e_id classicalConcert) "Classical Concert" 2] 2),
     afterLastSeats, con2).
Proof.
  split; [discriminate|].
  apply (createBooking_retry_same_response consoleService (mkEnv "b1" 10) lastSeats "k1"
           seed []).
  - discriminate.
  - reflexivity.
Defined.
